(** * pbcore.io.dataset.DataSetIO: a shallow embedding

    The DataSet state model of [pbcore/io/dataset/DataSetIO.py]: the
    round-robin chunker, copy / equality / UniqueId, split by resource,
    merge, the cache mutators and the multi-resource record iteration of
    AlignmentSet; then the filter switches, the MetaType ids, the polling
    of the readers, the pooled index with [__getitem__], and the helpers of
    the split by contigs (coverage contour, atoms and windows).  Python
    values appear as follows: an [int] is a [Z], a
    [str] a [string], a list a [list], a [dict] with string keys a
    [gmap string _], [None] is [option]'s [None], and an exception is a
    constructor of [exn] carried by an explicit outcome type. *)

From stdpp Require Import gmap strings list fin_maps.
From Stdlib Require Import ZArith Lia Sorting.Sorted.

Local Open Scope Z_scope.

(** ** Python list primitives *)

Module Py.

(** The exceptions raised by the embedded code. *)
Inductive exn : Type :=
  | TypeError
  | ValueError
  | IndexError
  | KeyError
  | StopIteration
  | RuntimeError.

(** What a call does: it returns a value or raises. *)
Inductive outcome (A : Type) : Type :=
  | Returned (a : A)
  | Raised (e : exn).
Arguments Returned {A} a.
Arguments Raised {A} e.

Section Sorting.
Context {A : Type}.

(** Insertion of [x] in front of a list sorted by [lt]-descending keys:
    [x] passes over the elements whose key is strictly greater and stops
    at the first one that is not, so that it stays before its equals. *)
Fixpoint insert_desc (key : A -> Z) (x : A) (l : list A) : list A :=
  match l with
  | [] => [x]
  | y :: l' =>
      if key x <? key y then y :: insert_desc key x l' else x :: l
  end.

(** [sorted(l, key=key, reverse=True)]: descending by key, and stable
    (elements with equal keys keep the order they have in [l]). *)
Fixpoint sorted_reverse (key : A -> Z) (l : list A) : list A :=
  match l with
  | [] => []
  | x :: l' => insert_desc key x (sorted_reverse key l')
  end.

(** Insertion of [x] in front of a list sorted by ascending keys, before
    its equals. *)
Fixpoint insert_asc (key : A -> Z) (x : A) (l : list A) : list A :=
  match l with
  | [] => [x]
  | y :: l' =>
      if key y <? key x then y :: insert_asc key x l' else x :: l
  end.

(** A stable ascending sort by key: numpy's [argsort(kind='mergesort')]
    orders positions this way. *)
Fixpoint sorted_stable (key : A -> Z) (l : list A) : list A :=
  match l with
  | [] => []
  | x :: l' => insert_asc key x (sorted_stable key l')
  end.
End Sorting.

End Py.

(** ** The generic chunker: [DataSet._chunkList] *)

Module ChunkList.
Import Py.

(** An entry [[size, i]] of [chunkSizes]. *)
Definition entry : Type := (Z * nat)%type.

(** Python compares the two-element lists [[size, i]] lexicographically. *)
Definition entry_leb (a b : entry) : bool :=
  (a.1 <? b.1) || ((a.1 =? b.1) && (a.2 <=? b.2)%nat).

Fixpoint entry_insert (a : entry) (l : list entry) : list entry :=
  match l with
  | [] => [a]
  | b :: l' => if entry_leb a b then a :: l else b :: entry_insert a l'
  end.

(** [chunkSizes.sort()]. *)
Fixpoint entries_sort (l : list entry) : list entry :=
  match l with
  | [] => []
  | a :: l' => entry_insert a (entries_sort l')
  end.

(** The head of a list is below every other element: what the loop uses
    of the sorted [chunkSizes]. *)
Definition head_least (l : list entry) : Prop :=
  match l with
  | [] => True
  | h :: t => Forall (fun e => entry_leb h e = true) t
  end.

Section Chunker.
Context {A : Type} (balanceKey : A -> Z).

(** [mass = balanceKey(item); if mass == 0: mass += 1]. *)
Definition mass (item : A) : Z :=
  let m := balanceKey item in
  if m =? 0 then m + 1 else m.

(** One turn of the [for] loop.  [None] is the [IndexError] of
    [chunkSizes[0]] on an empty list (or of [chunks[...]] out of range). *)
Definition chunk_step (st : list (list A) * list entry) (item : A)
  : option (list (list A) * list entry) :=
  match entries_sort st.2 with
  | [] => None
  | (size, i) :: rest =>
      match st.1 !! i with
      | None => None
      | Some c => Some (<[i := c ++ [item]]> st.1, (size + mass item, i) :: rest)
      end
  end.

Fixpoint chunk_loop (items : list A) (st : list (list A) * list entry)
  : option (list (list A) * list entry) :=
  match items with
  | [] => Some st
  | item :: items' =>
      match chunk_step st item with
      | None => None
      | Some st' => chunk_loop items' st'
      end
  end.

(** The state before the loop: [chunknum] empty chunks, all of size 0.
    [range] of a negative count is empty. *)
Definition chunk_init (chunknum : Z) : list (list A) * list entry :=
  let n := Z.to_nat chunknum in
  (replicate n [], (fun i => (0, i)) <$> seq 0 n).

Definition _chunkList (inlist : list A) (chunknum : Z)
  : option (list (list A)) :=
  fst <$> chunk_loop (sorted_reverse balanceKey inlist) (chunk_init chunknum).

(** The load of a chunk as the loop accounts for it. *)
Definition load (c : list A) : Z := foldr (fun a s => mass a + s) 0 c.

(** The assignment in the words of the claim: the atoms are filed in the
    order given, each at the end of a chunk that is of least load at that
    moment (the first such chunk on a tie). *)
Inductive greedy : list A -> list (list A) -> list (list A) -> Prop :=
  | greedy_nil chunks : greedy [] chunks chunks
  | greedy_cons item items chunks i c chunks' :
      chunks !! i = Some c ->
      (forall j d, chunks !! j = Some d ->
         load c < load d \/ (load c = load d /\ (i <= j)%nat)) ->
      greedy items (<[i := c ++ [item]]> chunks) chunks' ->
      greedy (item :: items) chunks chunks'.

(** The number of chunks that hold at least one atom. *)
Fixpoint filled (chunks : list (list A)) : nat :=
  match chunks with
  | [] => 0
  | [] :: r => filled r
  | (_ :: _) :: r => S (filled r)
  end.

(** The loop invariant over [chunknum] bins: the indices recorded in
    [chunkSizes] are exactly the positions of [chunks], and each entry
    carries the load of its chunk. *)
Definition chunk_inv (n : nat) (st : list (list A) * list entry) : Prop :=
  length st.1 = n /\
  st.2.*2 ≡ₚ seq 0 n /\
  Forall (fun e => exists c, st.1 !! e.2 = Some c /\ e.1 = load c) st.2.
End Chunker.

End ChunkList.

(** ** The DataSet record and its members *)

Module DataSetModel.
Import Py ChunkList.

(** [self.__class__.__name__]. *)
Inductive ClassName : Type :=
  | DataSet_
  | ReadSet
  | HdfSubreadSet
  | SubreadSet
  | AlignmentSet
  | ConsensusReadSet
  | ConsensusAlignmentSet
  | ContigSet
  | ReferenceSet
  | BarcodeSet.

Global Instance ClassName_eq_dec : EqDecision ClassName.
Proof. solve_decision. Defined.

(** An ExternalResource: its ResourceId, its MetaType and its child
    elements (companion indices); [len(resource)] counts the children. *)
Record ExternalResource : Type := mkExternalResource {
  resourceId : string;
  metaType : string;
  children : list string
}.

(** A requirement [(name, operator, value)], a filter (the AND of its
    requirements) and a Filters collection (the OR of its filters). *)
Abbreviation Requirement := (string * string * string)%type.
Abbreviation Filters := (list (list Requirement)).

(** An aligned read, as far as iteration looks at it. *)
Record BamAlignment : Type := mkBamAlignment {
  qName : string;
  tStart : Z;
  tEnd : Z
}.

(** A row of the pbi index of an aligned file. *)
Record IndexRow : Type := mkIndexRow {
  tId : Z;
  row_tStart : Z;
  row_tEnd : Z
}.

(** The content metadata. *)
Record DataSetMetadata : Type := mkDataSetMetadata {
  totalLength : Z;
  numRecords : Z;
  summaryStats : option (list Z)
}.

(** The state of a DataSet object: the members set by [__init__]. *)
#[warnings="-register-all"]
Inductive DataSet : Type := mkDataSet {
  className : ClassName;
  objMetadata : gmap string string;
  metadata : DataSetMetadata;
  externalResources : list ExternalResource;
  filters : Filters;
  subdatasets : list DataSet;
  fileNames : list string;
  _strict : bool;
  _skipCounts : bool;
  _cachedFilters : list (BamAlignment -> bool);
  noFiltering : bool;
  _index : option (list IndexRow);
  _indexMap : option (list (nat * nat))
}.

Definition set_objMetadata (m : gmap string string) (d : DataSet) : DataSet :=
  mkDataSet (className d) m (metadata d) (externalResources d) (filters d)
    (subdatasets d) (fileNames d) (_strict d) (_skipCounts d)
    (_cachedFilters d) (noFiltering d) (_index d) (_indexMap d).

Definition set_metadata (m : DataSetMetadata) (d : DataSet) : DataSet :=
  mkDataSet (className d) (objMetadata d) m (externalResources d) (filters d)
    (subdatasets d) (fileNames d) (_strict d) (_skipCounts d)
    (_cachedFilters d) (noFiltering d) (_index d) (_indexMap d).

Definition set_externalResources (r : list ExternalResource) (d : DataSet)
  : DataSet :=
  mkDataSet (className d) (objMetadata d) (metadata d) r (filters d)
    (subdatasets d) (fileNames d) (_strict d) (_skipCounts d)
    (_cachedFilters d) (noFiltering d) (_index d) (_indexMap d).

Definition set_filters (f : Filters) (d : DataSet) : DataSet :=
  mkDataSet (className d) (objMetadata d) (metadata d) (externalResources d) f
    (subdatasets d) (fileNames d) (_strict d) (_skipCounts d)
    (_cachedFilters d) (noFiltering d) (_index d) (_indexMap d).

Definition set_subdatasets (s : list DataSet) (d : DataSet) : DataSet :=
  mkDataSet (className d) (objMetadata d) (metadata d) (externalResources d)
    (filters d) s (fileNames d) (_strict d) (_skipCounts d)
    (_cachedFilters d) (noFiltering d) (_index d) (_indexMap d).

Definition set_cachedFilters (c : list (BamAlignment -> bool)) (d : DataSet)
  : DataSet :=
  mkDataSet (className d) (objMetadata d) (metadata d) (externalResources d)
    (filters d) (subdatasets d) (fileNames d) (_strict d) (_skipCounts d)
    c (noFiltering d) (_index d) (_indexMap d).

Definition set_index (i : option (list IndexRow)) (d : DataSet) : DataSet :=
  mkDataSet (className d) (objMetadata d) (metadata d) (externalResources d)
    (filters d) (subdatasets d) (fileNames d) (_strict d) (_skipCounts d)
    (_cachedFilters d) (noFiltering d) i (_indexMap d).

Definition set_indexMap (m : option (list (nat * nat))) (d : DataSet)
  : DataSet :=
  mkDataSet (className d) (objMetadata d) (metadata d) (externalResources d)
    (filters d) (subdatasets d) (fileNames d) (_strict d) (_skipCounts d)
    (_cachedFilters d) (noFiltering d) (_index d) m.

(** The three caches are invalidated. *)
Definition caches_cleared (d : DataSet) : Prop :=
  _cachedFilters d = [] /\ _index d = None /\ _indexMap d = None.

(** The three caches of [d'] are those of [d]. *)
Definition caches_kept (d d' : DataSet) : Prop :=
  _cachedFilters d' = _cachedFilters d /\ _index d' = _index d /\
  _indexMap d' = _indexMap d.

(** What DataSetIO takes from modules that are not in this embedding:
    [DataSetWriter.toXml], [hashlib.md5] and the methods of the member
    classes of [DataSetMembers]. *)
Class Collaborators : Type := {
  (** [toXml(dataset, core=True)]. *)
  toXml_core : DataSet -> string;
  (** [hashlib.md5(s).hexdigest()]. *)
  md5_hexdigest : string -> string;
  (** [Filters.merge]: the receiver after the merge. *)
  Filters_merge : Filters -> Filters -> Filters;
  (** [Filters.testCompatibility]. *)
  Filters_testCompatibility : Filters -> Filters -> bool;
  (** [Filters.tests(readType=...)]. *)
  Filters_tests : Filters -> list (BamAlignment -> bool);
  (** [ExternalResources.merge]: the receiver after the merge. *)
  ExternalResources_merge :
    list ExternalResource -> list ExternalResource -> list ExternalResource;
  (** [DataSetMetadata.merge]: the receiver after the merge. *)
  DataSetMetadata_merge : DataSetMetadata -> DataSetMetadata -> DataSetMetadata;
  (** The truth value of a metadata record ([if newMetadata:]). *)
  DataSetMetadata_bool : DataSetMetadata -> bool
}.

Section Lifecycle.
Context `{Collaborators}.

(** [self.uuid]. *)
Definition uuid (d : DataSet) : option string := objMetadata d !! "UniqueId".

(** The value [newUuid] computes: the md5 of the core XML, grouped as
    8-4-4-4-12 by the slices [[:8]], [[8:12]], [[12:16]], [[16:20]] and
    [[20:]]. *)
Definition newId (d : DataSet) : string :=
  let h := md5_hexdigest (toXml_core d) in
  String.concat "-"
    [String.substring 0 8 h; String.substring 8 4 h;
     String.substring 12 4 h; String.substring 16 4 h;
     String.substring 20 (String.length h - 20) h].

(** [newUuid(setter)]: the object afterwards and the value returned. *)
Definition newUuid (setter : bool) (d : DataSet) : DataSet * string :=
  (if setter then set_objMetadata (<["UniqueId" := newId d]> (objMetadata d)) d
   else d,
   newId d).

(** [__eq__]. *)
Definition __eq__ (self other : DataSet) : bool :=
  String.eqb (newUuid false self).2 (newUuid false other).2.

(** [__deepcopy__]: a new object of the same class built with
    [skipCounts=True], hence with the state [__init__] gives it, into which
    the six members are deep-copied; [_skipCounts] is then put to False. *)
Definition __deepcopy__ (d : DataSet) : DataSet :=
  mkDataSet (className d) (objMetadata d) (metadata d) (externalResources d)
    (filters d) (subdatasets d) (fileNames d) false false [] false None None.

(** [copy()], without [asType]. *)
Definition copy (d : DataSet) : DataSet := (newUuid true (__deepcopy__ d)).1.

(** [reFilter(light)]. *)
Definition reFilter (light : bool) (d : DataSet) : DataSet :=
  let d := set_indexMap None (set_index None (set_cachedFilters [] d)) in
  if light then d
  else
    let m := metadata d in
    set_metadata
      (mkDataSetMetadata (-1) (-1)
         (match summaryStats m with Some _ => None | None => None end)) d.

(** The callback that the [filters] property registers on the Filters
    object: [lambda x=self: x.reFilter()]. *)
Definition filters_callback (d : DataSet) : DataSet := reFilter true d.

(** [addFilters(newFilters, underConstruction)]. *)
Definition addFilters (newFilters : Filters) (underConstruction : bool)
    (d : DataSet) : DataSet :=
  reFilter underConstruction
    (set_filters (Filters_merge (filters d) newFilters) d).

(** The classes that take [_openFiles] from class DataSet: ReadSet,
    HdfSubreadSet and ContigSet define their own, which their subclasses
    inherit. *)
Definition inherits_openFiles (c : ClassName) : bool :=
  match c with
  | DataSet_ | BarcodeSet => true
  | ReadSet | HdfSubreadSet | SubreadSet | AlignmentSet | ConsensusReadSet
  | ConsensusAlignmentSet | ContigSet | ReferenceSet => false
  end.

(** [_openFiles] of class DataSet. *)
Definition _openFiles (d : DataSet) : outcome unit := Raised RuntimeError.

(** [updateCounts] of class DataSet. *)
Definition updateCounts (d : DataSet) : DataSet :=
  set_metadata (mkDataSetMetadata (-1) (-1) (summaryStats (metadata d))) d.

(** [addExternalResources(newExtResources, updateCount)] for an
    ExternalResources argument: the object and how the call ends.  With
    [updateCount] the method calls [self._openFiles()] and then
    [self.updateCounts()].  In the classes that inherit [_openFiles] these
    are the two methods above.  In the other classes they are methods of
    the subclass, which open the files of the resources and read their
    indices; they are outside this embedding, and the call is followed up
    to them: the object is the one they start from, and [None] stands for
    their outcome. *)
Definition addExternalResources (newExtResources : list ExternalResource)
    (updateCount : bool) (d : DataSet) : DataSet * option (outcome unit) :=
  let d :=
    set_externalResources
      (ExternalResources_merge (externalResources d) newExtResources) d in
  if updateCount then
    if inherits_openFiles (className d) then
      match _openFiles d with
      | Raised e => (d, Some (Raised e))
      | Returned _ => (updateCounts d, Some (Returned tt))
      end
    else (d, None)
  else (d, Some (Returned tt)).

(** [addDatasets(otherDataSet)]. *)
Definition addDatasets (otherDataSet : DataSet) (d : DataSet) : DataSet :=
  match subdatasets otherDataSet with
  | [] => set_subdatasets (subdatasets d ++ [otherDataSet]) d
  | _ :: _ => set_subdatasets (subdatasets d ++ subdatasets otherDataSet) d
  end.

(** [addMetadata(newMetadata)] of class DataSet, without keyword
    arguments. *)
Definition addMetadata (newMetadata : DataSetMetadata) (d : DataSet)
  : DataSet :=
  if DataSetMetadata_bool newMetadata then
    if DataSetMetadata_bool (metadata d) then
      set_metadata (DataSetMetadata_merge (metadata d) newMetadata) d
    else set_metadata newMetadata d
  else d.

(** The truth value of a string or of [None]. *)
Definition py_truthy (v : option string) : bool :=
  match v with
  | Some s => negb (String.eqb s "")
  | None => false
  end.

(** [a > b] on values that are strings or [None]: [None] is below every
    string, strings compare byte by byte. *)
Definition py_gt (a b : option string) : bool :=
  match a, b with
  | Some x, Some y => String.ltb y x
  | Some _, None => true
  | None, _ => false
  end.

(** [_checkObjMetadata(newMetadata)]. *)
Definition _checkObjMetadata (newMetadata : gmap string string) (d : DataSet)
  : outcome unit :=
  if py_truthy (objMetadata d !! "Version") then
    if py_gt (newMetadata !! "Version") (objMetadata d !! "Version")
    then Raised ValueError
    else Returned tt
  else Returned tt.

(** [len(resource)], the default [balanceKey] of [split]. *)
Definition resource_len (r : ExternalResource) : Z :=
  Z.of_nat (length (children r)).

(** [zip(results, chunks)] with the assignment
    [result.externalResources.resources = copy.deepcopy(chunk)]; the
    results past the last chunk are left as they are. *)
Fixpoint assign_chunks (results : list DataSet)
    (chunks : list (list ExternalResource)) : list DataSet :=
  match results, chunks with
  | r :: results', c :: chunks' =>
      set_externalResources c r :: assign_chunks results' chunks'
  | _, _ => results
  end.

(** The same loop of [_split_subdatasets]:
    [newCopy = self.copy(); newCopy.subdatasets = subDatasets;
     newCopy.newUuid()]. *)
Definition subdataset_chunk (d : DataSet) (subDatasets : list DataSet)
  : DataSet :=
  (newUuid true (set_subdatasets subDatasets (copy d))).1.

(** [_split_subdatasets(chunks)]. *)
Definition _split_subdatasets (chunks : Z) (d : DataSet)
  : outcome (list DataSet) :=
  let n := Z.of_nat (length (subdatasets d)) in
  let chunks := if (chunks =? 0) || (n <? chunks) then n else chunks in
  if (chunks =? n)
     && forallb (fun sds => negb (Nat.eqb (length (externalResources sds)) 0))
          (subdatasets d)
  then Returned (subdatasets d)
  else
    match _chunkList (fun x => numRecords (metadata x)) (subdatasets d) chunks
    with
    | None => Raised IndexError
    | Some cl => Returned (subdataset_chunk d <$> cl)
    end.

(** [split] of class DataSet.  The three specialised modes end in the
    TypeError that [_split_contigs], [_split_zmws] and [_split_barcodes]
    raise in this class. *)
Definition split (chunks : Z) (ignoreSubDatasets contigs zmws barcodes : bool)
    (d : DataSet) : outcome (list DataSet) :=
  if contigs then Raised TypeError
  else if zmws then Raised TypeError
  else if barcodes then Raised TypeError
  else if (1 <? Z.of_nat (length (subdatasets d))) && negb ignoreSubDatasets
  then _split_subdatasets chunks d
  else
    let atoms := externalResources d in
    let n := Z.of_nat (length atoms) in
    let chunks := if (chunks =? 0) || (n <? chunks) then n else chunks in
    if chunks =? 1 then Returned [copy d]
    else
      let results := replicate (Z.to_nat chunks) (copy d) in
      match _chunkList resource_len atoms chunks with
      | None => Raised IndexError
      | Some cl =>
          Returned ((fun r => (newUuid true r).1) <$> assign_chunks results cl)
      end.
End Lifecycle.

End DataSetModel.

(** ** Objects in a store: [merge] *)

Module Merge.
Import Py DataSetModel.

(** The DataSet objects alive, by reference.  [merge] works on two objects
    that may be one and the same, and returns the receiver itself or a new
    object. *)
Abbreviation Store := (gmap nat DataSet).

(** A computation on the store that returns or raises. *)
Definition M (A : Type) : Type := Store -> Store * outcome A.

Definition ret {A} (a : A) : M A := fun s => (s, Returned a).

Definition raise {A} (e : exn) : M A := fun s => (s, Raised e).

Definition bind {A B} (m : M A) (k : A -> M B) : M B :=
  fun s =>
    match m s with
    | (s', Returned a) => k a s'
    | (s', Raised e) => (s', Raised e)
    end.

Notation "x <- m ;; k" := (bind m (fun x => k))
  (at level 100, m at next level, right associativity).
Notation "m ;;; k" := (bind m (fun _ => k))
  (at level 100, right associativity).

(** Reading an object.  A reference to no object does not occur in Python;
    here it ends the computation with RuntimeError. *)
Definition get (l : nat) : M DataSet :=
  fun s =>
    match s !! l with
    | Some d => (s, Returned d)
    | None => (s, Raised RuntimeError)
    end.

(** Changing an object in place. *)
Definition modify (l : nat) (f : DataSet -> DataSet) : M unit :=
  fun s =>
    match s !! l with
    | Some d => (<[l := f d]> s, Returned tt)
    | None => (s, Raised RuntimeError)
    end.

(** A new object, at a reference not in use. *)
Definition alloc (d : DataSet) : M nat :=
  fun s => (<[fresh (dom s) := d]> s, Returned (fresh (dom s))).

(** Lifting an outcome. *)
Definition lift {A} (o : outcome A) : M A := fun s => (s, o).

Section MergeMethod.
Context `{Collaborators}.

(** The test that opens [merge]: same class, or one of the two is the
    base class. *)
Definition mergeable (self other : ClassName) : bool :=
  bool_decide (other = self) || bool_decide (other = DataSet_)
  || bool_decide (self = DataSet_).

(** [x.copy()] as a new object of the store. *)
Definition copy_object (l : nat) : M nat := d <- get l ;; alloc (copy d).

(** [target.addDatasets(source.copy())]. *)
Definition addDatasets_copy (target source : nat) : M unit :=
  c <- copy_object source ;;
  cd <- get c ;;
  modify target (addDatasets cd).

(** The second half of [merge], from the comment "If this dataset has no
    subsets representing it" on: subdatasets, content metadata and
    external resources go to [result]. *)
Definition merge_into (firstIn : bool) (self other result : nat)
  : M (option nat) :=
  s <- get self ;;
  (if (Nat.eqb (length (subdatasets s)) 0) && negb firstIn
   then addDatasets_copy result self else ret tt) ;;;
  o <- get other ;;
  (if negb (Nat.eqb (length (subdatasets o)) 0) || negb firstIn
   then addDatasets_copy result other else ret tt) ;;;
  o <- get other ;;
  (if firstIn then modify result (set_metadata (metadata o))
   else modify result (addMetadata (metadata o))) ;;;
  o <- get other ;;
  modify result
    (fun r => (addExternalResources (externalResources o) false r).1) ;;;
  ret (Some result).

(** [merge(other, copyOnMerge)]: the reference returned, [None] for the
    blocked merge. *)
Definition merge (self other : nat) (copyOnMerge : bool) : M (option nat) :=
  s <- get self ;;
  o <- get other ;;
  if mergeable (className s) (className o) then
    let firstIn := Nat.eqb (length (externalResources s)) 0 in
    if negb firstIn
       && negb (Filters_testCompatibility (filters s) (filters o))
    then ret None
    else
      modify self (addFilters (filters o) true) ;;;
      modify self (set_cachedFilters []) ;;;
      s <- get self ;;
      o <- get other ;;
      lift (_checkObjMetadata (objMetadata o) s) ;;;
      modify self (set_objMetadata (objMetadata o ∪ objMetadata s)) ;;;
      result <- (if copyOnMerge then copy_object self else ret self) ;;
      merge_into firstIn self other result
  else raise TypeError.

(** [self + other]. *)
Definition __add__ (self other : nat) : M (option nat) :=
  merge self other true.

(** The receiver once its filters are merged and its cache reset. *)
Definition filtered_receiver (s o : DataSet) : DataSet :=
  set_cachedFilters [] (addFilters (filters o) true s).

(** The receiver as [merge] leaves it when it copies. *)
Definition merged_receiver (s o : DataSet) : DataSet :=
  set_objMetadata (objMetadata o ∪ objMetadata s) (filtered_receiver s o).

(** The filter check lets the merge through. *)
Definition filters_pass (s o : DataSet) : bool :=
  Nat.eqb (length (externalResources s)) 0
  || Filters_testCompatibility (filters s) (filters o).

(** What the second half of [merge] keeps until its last step: the objects
    other than [result], and in [result] everything but the subdatasets and
    the content metadata. *)
Definition result_frame (result : nat) (r : DataSet) (σ σ' : Store) : Prop :=
  (forall l, l <> result -> is_Some (σ !! l) -> σ' !! l = σ !! l) /\
  exists r', σ' !! result = Some r' /\
    className r' = className r /\ objMetadata r' = objMetadata r /\
    filters r' = filters r /\ externalResources r' = externalResources r /\
    caches_kept r r'.
End MergeMethod.

End Merge.

(** ** Record iteration of AlignmentSet *)

Module Iteration.
Import Py DataSetModel.

(** What iterating a generator gives: the records yielded, and the
    exception that ended it if one did. *)
Definition gen (A : Type) : Type := (list A * option exn)%type.

(** A generator followed by the rest of the body, which runs only if the
    first part ended without raising. *)
Definition gen_then {A} (g : gen A) (k : gen A) : gen A :=
  match g.2 with
  | Some e => g
  | None => (g.1 ++ k.1, k.2)
  end.

(** An open reader of a resource: the reads of the file by row, the rows of
    its pbi index, and its own range query. *)
Record Reader : Type := mkReader {
  reader_indexed : bool;
  reader_rows : list BamAlignment;
  reader_index : list IndexRow;
  reader_readsInRange : string -> Z -> Z -> list BamAlignment
}.

(** [rr.atRowNumber(n)]; out of range is an IndexError. *)
Definition atRowNumber (rr : Reader) (n : nat) : option BamAlignment :=
  reader_rows rr !! n.

(** [self.resourceReaders()[rrNum].atRowNumber(row)]. *)
Definition fetch (readers : list Reader) (t : nat * nat)
  : option BamAlignment :=
  rr ← readers !! t.1; atRowNumber rr t.2.

(** The loop of [_getRecords] for [buffsize == 1]. *)
Fixpoint getRecords_single (readers : list Reader) (indexList : list (nat * nat))
  : gen BamAlignment :=
  match indexList with
  | [] => ([], None)
  | t :: rest =>
      match fetch readers t with
      | None => ([], Some IndexError)
      | Some r => gen_then ([r], None) (getRecords_single readers rest)
      end
  end.

(** The buffers of the other path: [recCache] is empty between two calls of
    [debuf] and is left out; [reqCache] holds the rows asked of each reader,
    [fromCache] the reader of each request in the order asked, [cacheFill]
    their number. *)
Record Buffers : Type := mkBuffers {
  reqCache : list (list nat);
  fromCache : list (option nat);
  cacheFill : nat
}.

(** [cleanBuffs()]. *)
Definition cleanBuffs (readers : list Reader) (buffsize : Z) : Buffers :=
  mkBuffers (replicate (length readers) []) (replicate (Z.to_nat buffsize) None)
    0.

(** The first loop of [debuf]: the rows asked of each reader are read, reader
    by reader; [None] is the IndexError of a row out of range. *)
Fixpoint fill_recCache (readers : list Reader) (reqs : list (list nat))
  : option (list (list BamAlignment)) :=
  match readers with
  | [] => Some []
  | rr :: readers' =>
      recs ← mapM (atRowNumber rr) (default [] (head reqs));
      rest ← fill_recCache readers' (tail reqs);
      Some (recs :: rest)
  end.

(** The second loop of [debuf]: the records leave the cache in the order
    the requests came; [reqCacheI] counts the records taken from each
    reader. *)
Fixpoint empty_recCache (recCache : list (list BamAlignment))
    (reqCacheI : list nat) (from : list (option nat)) : gen BamAlignment :=
  match from with
  | [] => ([], None)
  | None :: _ => ([], Some TypeError)
  | Some rrNum :: from' =>
      match reqCacheI !! rrNum with
      | None => ([], Some IndexError)
      | Some curI =>
          match recCache !! rrNum ≫= (fun c => c !! curI) with
          | None => ([], Some IndexError)
          | Some r =>
              gen_then ([r], None)
                (empty_recCache recCache (<[rrNum := S curI]> reqCacheI) from')
          end
      end
  end.

(** [debuf()]. *)
Definition debuf (readers : list Reader) (b : Buffers) : gen BamAlignment :=
  match fill_recCache readers (reqCache b) with
  | None => ([], Some IndexError)
  | Some recCache =>
      empty_recCache recCache (replicate (length readers) 0%nat)
        (take (cacheFill b) (fromCache b))
  end.

(** The loop of [_getRecords] for [buffsize != 1]. *)
Fixpoint getRecords_buffered (readers : list Reader) (buffsize : Z)
    (indexList : list (nat * nat)) (b : Buffers) : gen BamAlignment :=
  match indexList with
  | [] => if (0 <? cacheFill b)%nat then debuf readers b else ([], None)
  | t :: rest =>
      match reqCache b !! t.1 with
      | None => ([], Some IndexError)
      | Some q =>
          if (cacheFill b <? length (fromCache b))%nat then
            let b' :=
              mkBuffers (<[t.1 := q ++ [t.2]]> (reqCache b))
                (<[cacheFill b := Some t.1]> (fromCache b))
                (S (cacheFill b)) in
            if buffsize <=? Z.of_nat (cacheFill b') then
              gen_then (debuf readers b')
                (getRecords_buffered readers buffsize rest
                   (cleanBuffs readers buffsize))
            else getRecords_buffered readers buffsize rest b'
          else ([], Some IndexError)
      end
  end.

(** [_getRecords(indexList, buffsize)]. *)
Definition _getRecords (readers : list Reader) (indexList : list (nat * nat))
    (buffsize : Z) : gen BamAlignment :=
  if buffsize =? 1 then getRecords_single readers indexList
  else getRecords_buffered readers buffsize indexList
         (cleanBuffs readers buffsize).

(** *** The indexed range query: [_pbiReadsInRange] *)

(** [(tId == desiredTid) & (tStart < end) & (tEnd > start)]. *)
Definition in_window (desiredTid start end_ : Z) (row : IndexRow) : bool :=
  (tId row =? desiredTid) && (row_tStart row <? end_) && (start <? row_tEnd row).

(** [a[mask]] for a boolean mask as long as [a]. *)
Fixpoint mask_select {A} (mask : list bool) (a : list A) : list A :=
  match mask, a with
  | true :: mask', x :: a' => x :: mask_select mask' a'
  | false :: mask', _ :: a' => mask_select mask' a'
  | _, _ => []
  end.

(** [a[order]] for a list of positions; [None] is the IndexError of a
    position out of range. *)
Definition take_positions {A} (order : list nat) (a : list A) : option (list A) :=
  mapM (fun i => a !! i) order.

(** [lengthInWindow]: the ends past the window are put to [end], the starts
    before it to [start]. *)
Definition lengthInWindow (start end_ : Z) (row : IndexRow) : Z :=
  (if end_ <? row_tEnd row then end_ else row_tEnd row)
  - (if row_tStart row <? start then start else row_tStart row).

(** The keys sorted on: [(end - start) - lens]. *)
Definition reversed_key (start end_ : Z) (row : IndexRow) : Z :=
  (end_ - start) - lengthInWindow start end_ row.

(** [argsort(kind='mergesort')]: the positions by ascending key, equal keys
    in the order of the positions. *)
Definition argsort_mergesort (keys : list Z) : list nat :=
  (sorted_stable snd (zip (seq 0 (length keys)) keys)).*1.

(** [min(l)] of a list that is not empty. *)
Definition py_min (l : list Z) : option Z :=
  match l with
  | [] => None
  | x :: l' => Some (foldl Z.min x l')
  end.

(** [l.index(x)]. *)
Fixpoint py_index (x : Z) (l : list Z) : option nat :=
  match l with
  | [] => None
  | y :: l' => if y =? x then Some 0%nat else S <$> py_index x l'
  end.

(** [Counter(lens)[min(lens)]], and 0 for no key. *)
Definition count_min (lens : list Z) : Z :=
  match py_min lens with
  | Some m => Z.of_nat (length (filter (fun k => k = m) lens))
  | None => 0
  end.

(** The sort that orders the reads of the window. *)
Inductive SortKind : Type :=
  | Quicksort
  | Mergesort.

(** The branch taken for [longest=True]. *)
Definition longest_sort_kind (lens : list Z) (sampleSize : Z) : SortKind :=
  if negb (sampleSize =? 0) then
    if sampleSize <? count_min lens then Quicksort else Mergesort
  else Mergesort.

Section Indexed.
(** numpy's default [argsort()], a quicksort that is not stable. *)
Variable argsort_default : list Z -> list nat.

Definition argsort (kind : SortKind) (keys : list Z) : list nat :=
  match kind with
  | Quicksort => argsort_default keys
  | Mergesort => argsort_mergesort keys
  end.

(** [sort_order] of [_pbiReadsInRange], over the rows of the window:
    [None] when the query leaves the pooled order as it is. *)
Definition pbi_sort_order (hits : list IndexRow) (start end_ : Z)
    (longest : bool) (sampleSize : Z) (nFiles : nat) : option (list nat) :=
  if longest then
    let lens := reversed_key start end_ <$> hits in
    Some (argsort (longest_sort_kind lens sampleSize) lens)
  else if (1 <? nFiles)%nat then
    Some (argsort_mergesort (row_tStart <$> hits))
  else None.

(** The (reader, row) positions handed to [_getRecords]. *)
Definition pbi_requests (index : list IndexRow) (indexMap : list (nat * nat))
    (desiredTid start end_ : Z) (longest : bool) (sampleSize : Z)
    (nFiles : nat) : option (list (nat * nat)) :=
  let passes := in_window desiredTid start end_ <$> index in
  let mapPasses := mask_select passes indexMap in
  match pbi_sort_order (mask_select passes index) start end_ longest
          sampleSize nFiles with
  | Some order => take_positions order mapPasses
  | None => Some mapPasses
  end.

(** [_pbiReadsInRange(refName, start, end, longest, sampleSize)], given the
    values of [self.refNames], [self.refIds], [self.index],
    [self._indexMap] and [len(self.toExternalFiles())]. *)
Definition _pbiReadsInRange (readers : list Reader) (refNames : list string)
    (refIds : gmap string Z) (index : list IndexRow)
    (indexMap : list (nat * nat)) (nFiles : nat)
    (refName : string) (start end_ : Z) (longest : bool) (sampleSize : Z)
  : gen BamAlignment :=
  if bool_decide (refName ∈ refNames) then
    match refIds !! refName with
    | None => ([], Some KeyError)
    | Some desiredTid =>
        match pbi_requests index indexMap desiredTid start end_ longest
                sampleSize nFiles with
        | None => ([], Some IndexError)
        | Some mapPasses => _getRecords readers mapPasses 1
        end
    end
  else ([], Some StopIteration).
End Indexed.

(** An order of the positions of [keys] that sorts them. *)
Definition is_argsort (keys : list Z) (order : list nat) : Prop :=
  order ≡ₚ seq 0 (length keys) /\
  Sorted Z.le (omap (fun i => keys !! i) order).

(** Sorted by key, and by position among equal keys. *)
Definition key_then_position (a b : nat * Z) : Prop :=
  a.2 < b.2 \/ (a.2 = b.2 /\ (a.1 < b.1)%nat).

(** *** The range query without index: [readsInRange] *)

(** [[next(it, None) for _ in range(buffsize)]]: the buffer, and the
    iterator afterwards. *)
Definition take_buffer (buffsize : nat) (it : list BamAlignment)
  : list (option BamAlignment) * list BamAlignment :=
  ((Some <$> take buffsize it) ++ replicate (buffsize - length it) None,
   drop buffsize it).

(** [del l[i]]. *)
Definition py_del {A} (i : nat) (l : list A) : list A := delete i l.

(** The state of the merge with look-ahead buffers. *)
Record Buffered : Type := mkBuffered {
  read_its : list (list BamAlignment);
  deep_buf : list (list (option BamAlignment));
  buf_indices : list nat;
  tStarts : list Z
}.

(** The truth value of a buffer entry: [None] is false, a read is taken to
    be true. *)
Definition entry_bool (e : option (option BamAlignment)) : bool :=
  match e with
  | Some (Some _) => true
  | _ => false
  end.

(** The state before the loop: a buffer per reader, the readers whose buffer
    starts with [None] removed. *)
Definition buffered_init (buffsize : nat) (its : list (list BamAlignment))
  : Buffered :=
  let filled := take_buffer buffsize <$> its in
  let kept := List.filter (fun f => entry_bool (f.1 !! 0%nat)) filled in
  mkBuffered kept.*2 kept.*1 (replicate (length kept) 0%nat)
    (omap (fun f => tStart <$> (f.1 !! 0%nat ≫= id)) kept).

(** One turn of the loop of the buffered merge: the read yielded and the
    state afterwards; [None] stands for an exception (there is none while
    the four lists are as the loop keeps them). *)
Definition buffered_step (buffsize : nat) (st : Buffered)
  : option (BamAlignment * Buffered) :=
  first ← py_min (tStarts st);
  first_i ← py_index first (tStarts st);
  buf_index ← buf_indices st !! first_i;
  buf ← deep_buf st !! first_i;
  first ← buf !! buf_index ≫= id;
  it ← read_its st !! first_i;
  let buf_index := S buf_index in
  let refill := Nat.eqb buf_index buffsize in
  let buf_index := if refill then 0%nat else buf_index in
  let buf := if refill then (take_buffer buffsize it).1 else buf in
  let it := if refill then (take_buffer buffsize it).2 else it in
  match buf !! buf_index ≫= id with
  | None =>
      Some (first,
            mkBuffered (py_del first_i (read_its st))
              (py_del first_i (deep_buf st))
              (py_del first_i (buf_indices st))
              (py_del first_i (tStarts st)))
  | Some cur =>
      Some (first,
            mkBuffered (<[first_i := it]> (read_its st))
              (<[first_i := buf]> (deep_buf st))
              (<[first_i := buf_index]> (buf_indices st))
              (<[first_i := tStart cur]> (tStarts st)))
  end.

(** The [while len(read_its) != 0] loop, for at most [fuel] turns: [None]
    when the turns do not suffice. *)
Fixpoint buffered_loop (fuel : nat) (buffsize : nat) (st : Buffered)
  : option (gen BamAlignment) :=
  match read_its st with
  | [] => Some ([], None)
  | _ :: _ =>
      match fuel with
      | O => None
      | S fuel' =>
          match buffered_step buffsize st with
          | None => Some ([], Some IndexError)
          | Some (r, st') =>
              gen_then ([r], None) <$> buffered_loop fuel' buffsize st'
          end
      end
  end.

(** The state of the merge that buffers one read per reader. *)
Record Unbuffered : Type := mkUnbuffered {
  u_read_its : list (list BamAlignment);
  currents : list BamAlignment;
  u_tStarts : list Z
}.

Definition unbuffered_init (its : list (list BamAlignment)) : Unbuffered :=
  let kept := List.filter (fun it => match it with [] => false | _ => true end) its in
  mkUnbuffered (tail <$> kept) (omap head kept) (omap (fun it => tStart <$> head it) kept).

Definition unbuffered_step (st : Unbuffered)
  : option (BamAlignment * Unbuffered) :=
  first ← py_min (u_tStarts st);
  first_i ← py_index first (u_tStarts st);
  first ← currents st !! first_i;
  it ← u_read_its st !! first_i;
  match it with
  | cur :: it' =>
      Some (first,
            mkUnbuffered (<[first_i := it']> (u_read_its st))
              (<[first_i := cur]> (currents st))
              (<[first_i := tStart cur]> (u_tStarts st)))
  | [] =>
      Some (first,
            mkUnbuffered (py_del first_i (u_read_its st))
              (py_del first_i (currents st))
              (py_del first_i (u_tStarts st)))
  end.

Fixpoint unbuffered_loop (fuel : nat) (st : Unbuffered)
  : option (gen BamAlignment) :=
  match u_read_its st with
  | [] => Some ([], None)
  | _ :: _ =>
      match fuel with
      | O => None
      | S fuel' =>
          match unbuffered_step st with
          | None => Some ([], Some IndexError)
          | Some (r, st') => gen_then ([r], None) <$> unbuffered_loop fuel' st'
          end
      end
  end.

(** The body of [readsInRange] past the indexed path (from the comment
    "merge sort before yield" on), given the open readers.  The loops get as
    many turns as there are reads in the range, which is what they take. *)
Definition readsInRange_unindexed (readers : list Reader)
    (numExternalResources : nat) (refName : string) (start end_ : Z)
    (buffsize : Z) : option (gen BamAlignment) :=
  let its := (fun rr => reader_readsInRange rr refName start end_) <$> readers in
  if (1 <? numExternalResources)%nat then
    if 1 <? buffsize then
      buffered_loop (length (concat its)) (Z.to_nat buffsize)
        (buffered_init (Z.to_nat buffsize) its)
    else unbuffered_loop (length (concat its)) (unbuffered_init its)
  else Some (concat its, None).

Section Filtered.
Context `{Collaborators}.

(** [processFilters()] of a ReadSet: the tests cached, or those of the
    filters, or the test that is always true when there is no filter. *)
Definition processFilters (d : DataSet) : list (BamAlignment -> bool) :=
  match _cachedFilters d with
  | _ :: _ => _cachedFilters d
  | [] =>
      match Filters_tests (filters d) with
      | [] => [fun _ => true]
      | tests => tests
      end
  end.

(** The decorator [filtered]: a read is yielded when filtering is off or
    when it passes one of the tests. *)
Definition filtered (d : DataSet) (g : gen BamAlignment) : gen BamAlignment :=
  if noFiltering d then g
  else
    (List.filter (fun read => existsb (fun filt => filt read) (processFilters d))
       g.1,
     g.2).

(** Whether every reader is an IndexedBamReader: [hasPbi], for readers that
    agree. *)
Definition hasPbi (readers : list Reader) : bool :=
  forallb reader_indexed readers.

(** [readsInRange] of an AlignmentSet over BAM readers, on the path that
    does not use the index ([hasPbi and usePbi] is false), for a reference
    given by name. *)
Definition readsInRange (d : DataSet) (readers : list Reader)
    (refName : string) (start end_ : Z) (buffsize : Z)
  : option (gen BamAlignment) :=
  filtered d
    <$> readsInRange_unindexed readers (length (externalResources d)) refName
          start end_ buffsize.
End Filtered.

(** Nondecreasing starts. *)
Definition by_start (a b : BamAlignment) : Prop := tStart a <= tStart b.

(** The starts of the reads at the head of the streams. *)
Definition head_starts (streams : list (list BamAlignment)) : list Z :=
  omap (fun s => tStart <$> head s) streams.

(** The merge in the words of the claim: of the reads at the head of the
    streams, the one with the smallest start is yielded next (the first such
    stream on a tie), and a stream that is exhausted is dropped. *)
Definition kway_step (streams : list (list BamAlignment))
  : option (BamAlignment * list (list BamAlignment)) :=
  first ← py_min (head_starts streams);
  i ← py_index first (head_starts streams);
  s ← streams !! i;
  match s with
  | [] => None
  | r :: [] => Some (r, delete i streams)
  | r :: s' => Some (r, <[i := s']> streams)
  end.

Fixpoint kway_merge (fuel : nat) (streams : list (list BamAlignment))
  : list BamAlignment :=
  match fuel with
  | O => []
  | S fuel' =>
      match kway_step streams with
      | None => []
      | Some (r, streams') => r :: kway_merge fuel' streams'
      end
  end.

(** The streams that are not empty. *)
Definition nonempty_streams (its : list (list BamAlignment))
  : list (list BamAlignment) :=
  List.filter (fun it => match it with [] => false | _ => true end) its.

(** The three lists of the merge without buffers stand for the streams:
    position by position, the current read followed by what its iterator
    still holds, and the start of the current read. *)
Inductive unbuffered_rel :
  list (list BamAlignment) -> list BamAlignment -> list Z ->
  list (list BamAlignment) -> Prop :=
  | unbuffered_rel_nil : unbuffered_rel [] [] [] []
  | unbuffered_rel_cons it cur its curs ts streams :
      unbuffered_rel its curs ts streams ->
      unbuffered_rel (it :: its) (cur :: curs) (tStart cur :: ts)
        ((cur :: it) :: streams).

(** A look-ahead buffer, its position and its iterator stand for a stream:
    the buffer holds reads and then [None]s, which come only once the
    iterator is exhausted; the position is on a read. *)
Definition buffer_rel (buffsize : nat) (it : list BamAlignment)
    (buf : list (option BamAlignment)) (idx : nat) (t : Z)
    (stream : list BamAlignment) : Prop :=
  exists xs k r,
    buf = (Some <$> xs) ++ replicate k None /\
    length buf = buffsize /\
    (k <> 0%nat -> it = []) /\
    xs !! idx = Some r /\ t = tStart r /\
    stream = drop idx xs ++ it.

Inductive buffered_rel (buffsize : nat) :
  list (list BamAlignment) -> list (list (option BamAlignment)) ->
  list nat -> list Z -> list (list BamAlignment) -> Prop :=
  | buffered_rel_nil : buffered_rel buffsize [] [] [] [] []
  | buffered_rel_cons it buf idx t stream its bufs idxs ts streams :
      buffer_rel buffsize it buf idx t stream ->
      buffered_rel buffsize its bufs idxs ts streams ->
      buffered_rel buffsize (it :: its) (buf :: bufs) (idx :: idxs) (t :: ts)
        (stream :: streams).

(** A request served by its record. *)
Definition served (readers : list Reader) (p : (nat * nat) * BamAlignment)
  : Prop :=
  fetch readers p.1 = Some p.2.

(** The requests not yet served, as the buffers hold them. *)
Definition buffers_of (readers : list Reader) (buffsize : Z)
    (pending : list (nat * nat)) : Buffers :=
  mkBuffers
    ((fun k => (filter (fun t => t.1 = k) pending).*2) <$> seq 0 (length readers))
    ((Some <$> pending.*1)
       ++ replicate (Z.to_nat buffsize - length pending) None)
    (length pending).

End Iteration.

(** ** A stand-in for the collaborators, and sample objects *)

Module Samples.
Import Py DataSetModel Merge Iteration.

Definition render_resource (r : ExternalResource) : string :=
  "<ExternalResource ResourceId='" +:+ resourceId r +:+ "'/>".

Definition render_requirement (q : Requirement) : string :=
  "<Property Name='" +:+ q.1.1 +:+ "' Operator='" +:+ q.1.2 +:+ "' Value='"
    +:+ q.2 +:+ "'/>".

Definition render_filter (f : list Requirement) : string :=
  "<Filter>" +:+ String.concat "" (render_requirement <$> f) +:+ "</Filter>".

(** Modelled from the spec: [DataSetWriter.toXml] is missing.  The spec gives
    the canonical core serialization as that of the resources, the filters
    and the subdatasets; the docstring of [newUuid] adds that the previous
    UniqueId is not stripped from it, so it is rendered as an attribute. *)
Fixpoint sample_toXml_core (d : DataSet) : string :=
  match d with
  | mkDataSet _ om _ res fs subs _ _ _ _ _ _ _ =>
      "<DataSet UniqueId='" +:+ default "" (om !! "UniqueId") +:+ "'>"
      +:+ String.concat "" (render_resource <$> res)
      +:+ String.concat "" (render_filter <$> fs)
      +:+ String.concat "" (map sample_toXml_core subs)
      +:+ "</DataSet>"
  end.

(** Modelled from the spec: [Filters.merge] is missing; filters merge by
    union of groups. *)
Definition sample_Filters_merge (f g : Filters) : Filters :=
  f ++ filter (fun x => x ∉ f) g.

(** Modelled from the spec: [Filters.testCompatibility] is missing; two
    Filters are compatible under an equality rule. *)
Definition sample_testCompatibility (f g : Filters) : bool :=
  bool_decide (f = g).

(** Modelled from the spec: [Filters.tests] is missing; a record passes a
    filter when it passes each of its (name, operator, value) tests.  Only
    the tests on the read name are evaluated here. *)
Definition sample_requirement (q : Requirement) (r : BamAlignment) : bool :=
  if String.eqb q.1.1 "qname" then
    if String.eqb q.1.2 "=" then String.eqb (qName r) q.2
    else if String.eqb q.1.2 "!=" then negb (String.eqb (qName r) q.2)
    else true
  else true.

Definition sample_tests (fs : Filters) : list (BamAlignment -> bool) :=
  (fun f r => forallb (fun q => sample_requirement q r) f) <$> fs.

(** Modelled from the spec: [ExternalResources.merge] is missing; resources
    are unioned, a resource whose ResourceId is already present is skipped
    (first wins). *)
Fixpoint sample_resources_merge (a b : list ExternalResource)
  : list ExternalResource :=
  match b with
  | [] => a
  | r :: b' =>
      if bool_decide (resourceId r ∈ resourceId <$> a)
      then sample_resources_merge a b'
      else sample_resources_merge (a ++ [r]) b'
  end.

(** Modelled from the spec: [DataSetMetadata.merge] is missing; the counts of
    the two records add up. *)
Definition sample_metadata_merge (a b : DataSetMetadata) : DataSetMetadata :=
  mkDataSetMetadata (totalLength a + totalLength b)
    (numRecords a + numRecords b)
    (match summaryStats a, summaryStats b with
     | Some x, Some y => Some (zip_with Z.add x y)
     | Some x, None => Some x
     | None, y => y
     end).

(** The collaborators of the examples.  The digest is the identity: the
    examples need only that different strings have different digests. *)
Definition sample_collaborators : Collaborators :=
  {| toXml_core := sample_toXml_core;
     md5_hexdigest := fun s => s;
     Filters_merge := sample_Filters_merge;
     Filters_testCompatibility := sample_testCompatibility;
     Filters_tests := sample_tests;
     ExternalResources_merge := sample_resources_merge;
     DataSetMetadata_merge := sample_metadata_merge;
     DataSetMetadata_bool := fun _ => true |}.

Definition bam1 : ExternalResource := mkExternalResource "bam1.bam" "" [].
Definition bam2 : ExternalResource :=
  mkExternalResource "bam2.bam" "" ["bam2.bam.pbi"].
Definition bam3 : ExternalResource := mkExternalResource "bam3.bam" "" [].

(** A DataSet as [__init__] leaves it, given its class, object metadata,
    resources and filters. *)
Definition fresh_dataset (c : ClassName) (om : gmap string string)
    (res : list ExternalResource) (fs : Filters) : DataSet :=
  mkDataSet c om (mkDataSetMetadata 0 0 None) res fs [] [] false false
    [] false None None.

Definition ds_three : DataSet :=
  fresh_dataset AlignmentSet {[ "UniqueId" := "b095d0a3-94b8-4918-b3af-a3f81bbe519c" ]}
    [bam1; bam2; bam3] [].

(** A dataset whose caches have been filled by use. *)
Definition ds_cached : DataSet :=
  set_indexMap (Some [(0, 0)%nat])
    (set_index (Some [mkIndexRow 0 10 20])
       (set_cachedFilters [fun _ => true] ds_three)).

(** The ResourceIds of the datasets a split returns, chunk by chunk. *)
Definition chunk_resource_ids (o : outcome (list DataSet))
  : option (list (list string)) :=
  match o with
  | Returned rs => Some (map (fun d => map resourceId (externalResources d)) rs)
  | Raised _ => None
  end.

Definition rname_filter : Filters := [[("rname", "=", "E.faecalis.1")]].

Definition with_version (v : string) (res : list ExternalResource)
    (fs : Filters) : DataSet :=
  fresh_dataset AlignmentSet {[ "Version" := v ]} res fs.

(** Reads of two aligned files on one reference, and their index rows. *)
Definition read_a1 : BamAlignment := mkBamAlignment "a1" 0 100.
Definition read_a2 : BamAlignment := mkBamAlignment "a2" 10 60.
Definition read_a3 : BamAlignment := mkBamAlignment "a3" 40 120.
Definition read_b1 : BamAlignment := mkBamAlignment "b1" 0 100.
Definition read_b2 : BamAlignment := mkBamAlignment "b2" 30 80.

Definition row_of (r : BamAlignment) : IndexRow :=
  mkIndexRow 0 (tStart r) (tEnd r).

(** A reader over the given reads, sorted by start: its range query gives
    the reads that overlap the range. *)
Definition reader_over (indexed : bool) (reads : list BamAlignment) : Reader :=
  mkReader indexed reads (row_of <$> reads)
    (fun _ start end_ =>
       List.filter (fun r => (tStart r <? end_) && (start <? tEnd r)) reads).

Definition reader_A : Reader := reader_over true [read_a1; read_a2; read_a3].
Definition reader_B : Reader := reader_over true [read_b1; read_b2].
Definition reader_A_plain : Reader :=
  reader_over false [read_a1; read_a2; read_a3].
Definition reader_B_plain : Reader := reader_over false [read_b1; read_b2].

(** The stacked index of the two readers and its map. *)
Definition sample_index : list IndexRow :=
  reader_index reader_A ++ reader_index reader_B.
Definition sample_indexMap : list (nat * nat) :=
  [(0, 0); (0, 1); (0, 2); (1, 0); (1, 1)]%nat.

(** Two datasets without resources; the receiver declares the higher
    Version. *)
Definition store_lower_incoming : gmap nat DataSet :=
  <[0%nat := with_version "3.0.1" [] []]>
    (<[1%nat := with_version "3.0.0" [] []]> ∅).

(** The same with the versions exchanged: the incoming Version is the
    higher one. *)
Definition store_higher_incoming : gmap nat DataSet :=
  <[0%nat := with_version "3.0.0" [] []]>
    (<[1%nat := with_version "3.0.1" [] []]> ∅).

(** A receiver with one resource and no filter, and an incoming dataset with
    no resource and a filter on the reference name. *)
Definition store_empty_incoming : gmap nat DataSet :=
  <[0%nat := fresh_dataset AlignmentSet ∅ [bam1] []]>
    (<[1%nat := fresh_dataset AlignmentSet ∅ [] rname_filter]> ∅).

(** Both with a resource, and different filters. *)
Definition store_both_resources : gmap nat DataSet :=
  <[0%nat := fresh_dataset AlignmentSet ∅ [bam1] []]>
    (<[1%nat := fresh_dataset AlignmentSet ∅ [bam2] rname_filter]> ∅).

(** Both with a resource and the same (empty) filters. *)
Definition store_compatible : gmap nat DataSet :=
  <[0%nat := fresh_dataset AlignmentSet {[ "Name" := "left" ]} [bam1] []]>
    (<[1%nat := fresh_dataset AlignmentSet {[ "Name" := "right" ]} [bam2] []]> ∅).

(** Two datasets of different classes, neither of the base class. *)
Definition store_two_classes : gmap nat DataSet :=
  <[0%nat := fresh_dataset AlignmentSet ∅ [bam1] []]>
    (<[1%nat := fresh_dataset SubreadSet ∅ [bam2] []]> ∅).
End Samples.

(** ** The balance of the chunks *)

Module ChunkBalance.
Import Py ChunkList.

Section Balance.
Context {A : Type} (balanceKey : A -> Z).

(** No chunk is heavier than another by more than [M]. *)
Definition balanced (M : Z) (chunks : list (list A)) : Prop :=
  forall i j c d, chunks !! i = Some c -> chunks !! j = Some d ->
    load balanceKey c - load balanceKey d <= M.
End Balance.

End ChunkBalance.

(** ** Exceptions beyond the built-in ones *)

Module Errors.
Import Py.

(** The exceptions of the functions below: those of [Py], the two classes
    DataSetIO defines, and three more of Python. *)
Inductive error : Type :=
  | Builtin (e : exn)
  | InvalidDataSetIOError
  | ResourceMismatchError
  | ZeroDivisionError
  | AssertionError
  | NotImplementedError.

Inductive result (A : Type) : Type :=
  | Ok (a : A)
  | Err (e : error).
Arguments Ok {A} a.
Arguments Err {A} e.

End Errors.

(** ** Switching the filters off and on: [processFilters] and its cache *)

Module FilterControl.
Import Py DataSetModel Iteration Errors.

Definition set_noFiltering (b : bool) (d : DataSet) : DataSet :=
  mkDataSet (className d) (objMetadata d) (metadata d) (externalResources d)
    (filters d) (subdatasets d) (fileNames d) (_strict d) (_skipCounts d)
    (_cachedFilters d) b (_index d) (_indexMap d).

(** [disableFilters()]. *)
Definition disableFilters (d : DataSet) : DataSet :=
  set_cachedFilters [fun _ => true] (set_noFiltering true (reFilter true d)).

(** [enableFilters()]. *)
Definition enableFilters (d : DataSet) : DataSet :=
  set_noFiltering false (reFilter true d).

(** [_filterType()]: class DataSet raises NotImplementedError, and
    BarcodeSet has no method of its own; ReadSet gives 'bam' and ContigSet
    'fasta', which their subclasses inherit. *)
Definition _filterType (c : ClassName) : result string :=
  match c with
  | DataSet_ | BarcodeSet => Err NotImplementedError
  | ReadSet | HdfSubreadSet | SubreadSet | AlignmentSet | ConsensusReadSet
  | ConsensusAlignmentSet => Ok "bam"
  | ContigSet | ReferenceSet => Ok "fasta"
  end.

Section FilterControl.
(** [self.filters.tests(readType=readType)], of class Filters; the records
    that the tests look at are taken to be those of this embedding. *)
Variable Filters_tests_for : string -> Filters -> list (BamAlignment -> bool).

(** The tests of the filters, computed afresh: those of [tests], or the
    test that is always true when there is none. *)
Definition fresh_tests (readType : string) (d : DataSet)
  : list (BamAlignment -> bool) :=
  match Filters_tests_for readType (filters d) with
  | [] => [fun _ => true]
  | tests => tests
  end.

(** [processFilters()] with the cache it writes: the object afterwards and
    the tests returned, or the exception of [_filterType]. *)
Definition processFilters_cached (d : DataSet)
  : DataSet * result (list (BamAlignment -> bool)) :=
  match _cachedFilters d with
  | _ :: _ => (d, Ok (_cachedFilters d))
  | [] =>
      match _filterType (className d) with
      | Err e => (d, Err e)
      | Ok readType =>
          match Filters_tests_for readType (filters d) with
          | [] => (set_cachedFilters [fun _ => true] d, Ok [fun _ => true])
          | tests => (set_cachedFilters tests d, Ok tests)
          end
      end
  end.
End FilterControl.

End FilterControl.

(** ** MetaTypes and class names *)

Module MetaTypes.
Import Py DataSetModel Errors.

(** [_toDsId(name)]. *)
Definition _toDsId (name : string) : string := "PacBio.DataSet." +:+ name.

(** [DataSetMetaTypes.ALL]. *)
Definition ALL : list string :=
  [_toDsId "SubreadSet"; _toDsId "HdfSubreadSet"; _toDsId "AlignmentSet";
   _toDsId "BarcodeSet"; _toDsId "ConsensusReadSet";
   _toDsId "ConsensusAlignmentSet"; _toDsId "ReferenceSet";
   _toDsId "ContigSet"].

(** [DataSetMetaTypes.isValid(dsId)]. *)
Definition isValid (dsId : string) : bool := bool_decide (dsId ∈ ALL).

(** The character [.]. *)
Definition dot : Ascii.ascii := Ascii.ascii_of_nat 46.

(** [s.split(sep)] for a separator of one character: the pieces between the
    separators, of which there is always at least one. *)
Fixpoint py_split (sep : Ascii.ascii) (s : string) : list string :=
  match s with
  | EmptyString => [""]
  | String c s' =>
      if Ascii.eqb c sep then "" :: py_split sep s'
      else
        match py_split sep s' with
        | [] => [String c ""]
        | w :: ws => String c w :: ws
        end
  end.

(** [l[-1]] of a list of strings that is not empty. *)
Definition py_last (l : list string) : string := List.last l "".

(** [_dsIdToName(dsId)]. *)
Definition _dsIdToName (dsId : string) : result string :=
  if isValid dsId then Ok (py_last (py_split dot dsId))
  else Err InvalidDataSetIOError.

(** [DataSet.castableTypes()], called on the base class. *)
Definition castableTypes : list (string * ClassName) :=
  [("DataSet", DataSet_); ("SubreadSet", SubreadSet);
   ("HdfSubreadSet", HdfSubreadSet); ("AlignmentSet", AlignmentSet);
   ("ContigSet", ContigSet); ("ConsensusReadSet", ConsensusReadSet);
   ("ConsensusAlignmentSet", ConsensusAlignmentSet);
   ("ReferenceSet", ReferenceSet); ("BarcodeSet", BarcodeSet)].

(** [d[key]] of a dict given by its items. *)
Fixpoint py_getitem {V} (items : list (string * V)) (key : string)
  : result V :=
  match items with
  | [] => Err (Builtin KeyError)
  | (k, v) :: items' =>
      if String.eqb k key then Ok v else py_getitem items' key
  end.

(** [_dsIdToType(dsId)]. *)
Definition _dsIdToType (dsId : string) : result ClassName :=
  if isValid dsId then
    match _dsIdToName dsId with
    | Ok name => py_getitem castableTypes name
    | Err e => Err e
    end
  else Err InvalidDataSetIOError.

(** [c.lower()] and [s.lower()] on ASCII. *)
Definition ascii_lower (c : Ascii.ascii) : Ascii.ascii :=
  let n := Ascii.nat_of_ascii c in
  if ((65 <=? n) && (n <=? 90))%nat then Ascii.ascii_of_nat (n + 32) else c.

Fixpoint py_lower (s : string) : string :=
  match s with
  | EmptyString => EmptyString
  | String c s' => String (ascii_lower c) (py_lower s')
  end.

(** The dict comprehension [{dsId: _dsIdToName(dsId) for dsId in dsIds}]:
    the items, or the first exception. *)
Fixpoint names_of (dsIds : list string) : result (list (string * string)) :=
  match dsIds with
  | [] => Ok []
  | dsId :: rest =>
      match _dsIdToName dsId with
      | Err e => Err e
      | Ok name =>
          match names_of rest with
          | Err e => Err e
          | Ok items => Ok ((dsId, name) :: items)
          end
      end
  end.

(** [_dsIdToSuffix(dsId)].  The entry added for the base class comes first
    in the items, since it is the one a lookup of its key finds. *)
Definition _dsIdToSuffix (dsId : string) : result string :=
  match names_of ALL with
  | Err e => Err e
  | Ok suffixMap =>
      let suffixMap := (_toDsId "DataSet", "DataSet") :: suffixMap in
      if isValid dsId then
        match py_getitem suffixMap dsId with
        | Err e => Err e
        | Ok suffix => Ok (py_lower suffix +:+ ".xml")
        end
      else Err InvalidDataSetIOError
  end.

(** [_typeDataSet(dset)], given the root tag that [xmlRootType] reads from
    the file. *)
Definition _typeDataSet (xml_rt : string) : result ClassName :=
  _dsIdToType (_toDsId xml_rt).

(** [isDataSet(xmlfile)], given the outcome of [xmlRootType]: any exception
    gives False. *)
Definition isDataSet (xml_rt : result string) : bool :=
  match xml_rt with
  | Err _ => false
  | Ok rt =>
      match _typeDataSet rt with
      | Ok _ => true
      | Err _ => false
      end
  end.

(** The name of a class, [cls.__name__]. *)
Definition class_name (c : ClassName) : string :=
  match c with
  | DataSet_ => "DataSet"
  | ReadSet => "ReadSet"
  | HdfSubreadSet => "HdfSubreadSet"
  | SubreadSet => "SubreadSet"
  | AlignmentSet => "AlignmentSet"
  | ConsensusReadSet => "ConsensusReadSet"
  | ConsensusAlignmentSet => "ConsensusAlignmentSet"
  | ContigSet => "ContigSet"
  | ReferenceSet => "ReferenceSet"
  | BarcodeSet => "BarcodeSet"
  end.

End MetaTypes.

(** ** Polling the resources: [_unifyResponses] and its callers *)

Module Responses.
Import Py DataSetModel Iteration Errors.

Section Unify.
Context {A K : Type} (keyFunc : A -> K) (eqFunc : K -> K -> bool).

(** The loop over [responses[1:]], with the first response at hand. *)
Fixpoint check_rest (first : A) (rest : list A) : result unit :=
  match rest with
  | [] => Ok tt
  | res :: rest' =>
      if negb (eqFunc (keyFunc first) (keyFunc res))
      then Err ResourceMismatchError
      else check_rest first rest'
  end.

(** [_unifyResponses(responses, keyFunc, eqFunc)]. *)
Definition _unifyResponses (responses : list A) : result A :=
  match responses with
  | [] => Err (Builtin IndexError)
  | first :: rest =>
      match (if (1 <? length responses)%nat then check_rest first rest
             else Ok tt) with
      | Err e => Err e
      | Ok _ => Ok first
      end
  end.
End Unify.

(** [_pollResources(func)], given the open readers. *)
Definition _pollResources {A} (func : Reader -> A) (readers : list Reader)
  : list A :=
  func <$> readers.

(** [_checkIdentical(key)], for an attribute with boolean values: the
    default key and equality of [_unifyResponses]. *)
Definition _checkIdentical (attr : Reader -> bool) (readers : list Reader)
  : result bool :=
  _unifyResponses (fun x => x) Bool.eqb (_pollResources attr readers).

(** [hasPbi] of class ReadSet, given the open readers and [_strict]. *)
Definition hasPbi (strict : bool) (readers : list Reader) : result bool :=
  match _unifyResponses (fun x => x) Bool.eqb
          (_pollResources reader_indexed readers) with
  | Err ResourceMismatchError =>
      if negb strict then Ok false else Err ResourceMismatchError
  | r => r
  end.

(** [isIndexed] of class ReadSet. *)
Definition isIndexed (strict : bool) (readers : list Reader) : result bool :=
  match hasPbi strict readers with
  | Ok true => Ok true
  | Ok false => Ok false
  | Err e => Err e
  end.

End Responses.

(** ** The pooled index: [_indexRecords], [index] and [__getitem__] *)

Module IndexRecords.
Import Py DataSetModel Iteration Errors Samples.

(** [np.nonzero(mask)[0]], counted from [k]. *)
Fixpoint nonzero_from (k : nat) (mask : list bool) : list nat :=
  match mask with
  | [] => []
  | true :: mask' => k :: nonzero_from (S k) mask'
  | false :: mask' => nonzero_from (S k) mask'
  end.

(** [l[i]] for a Python integer: a negative [i] counts from the end. *)
Definition py_nth {A} (l : list A) (i : Z) : option A :=
  if i <? 0 then
    if - i <=? Z.of_nat (length l) then l !! Z.to_nat (Z.of_nat (length l) + i)
    else None
  else l !! Z.to_nat i.

(** The positions of the map are in the order of the readers, and within a
    reader in the order of the rows. *)
Definition position_lt (a b : nat * nat) : Prop :=
  (a.1 < b.1)%nat \/ (a.1 = b.1 /\ (a.2 < b.2)%nat).

Section IndexRecords.
(** The truth value of a Filters object, and the mask that
    [self._filters.filterIndexRecords(indices._tbl, nameMap)] gives for the
    table of a reader: both belong to class Filters. *)
Variable Filters_bool : Filters -> bool.
Variable filterIndexRecords : Filters -> Reader -> list bool.

(** The masks of the filters are as long as the tables they are for. *)
Definition masks_fit (d : DataSet) (readers : list Reader) : Prop :=
  Forall (fun rr =>
            length (filterIndexRecords (filters d) rr)
            = length (reader_index rr)) readers.

(** The body of the loop of [_indexRecords] for reader [rrNum]: the rows
    appended to [recArrays] and the positions that extend [_indexMap]. *)
Definition index_of_reader (d : DataSet) (rrNum : nat) (rr : Reader)
  : list IndexRow * list (nat * nat) :=
  let tbl := reader_index rr in
  if negb (Filters_bool (filters d)) || noFiltering d then
    (tbl, (fun i => (rrNum, i)) <$> seq 0 (length tbl))
  else
    let passes := filterIndexRecords (filters d) rr in
    (mask_select passes tbl, (fun i => (rrNum, i)) <$> nonzero_from 0 passes).

Fixpoint index_loop (d : DataSet) (rrNum : nat) (readers : list Reader)
  : list (list IndexRow) * list (nat * nat) :=
  match readers with
  | [] => ([], [])
  | rr :: readers' =>
      let here := index_of_reader d rrNum rr in
      let rest := index_loop d (S rrNum) readers' in
      (here.1 :: rest.1, here.2 ++ rest.2)
  end.

(** [_stackRecArrays(recArrays)]: [np.concatenate] refuses an empty list of
    arrays with ValueError. *)
Definition _stackRecArrays (recArrays : list (list IndexRow))
  : result (list IndexRow) :=
  match recArrays with
  | [] => Err (Builtin ValueError)
  | _ :: _ => Ok (concat recArrays)
  end.

(** [_indexRecords()] of class ReadSet, given the open readers: the object
    afterwards ([_indexMap] is assigned before the arrays are stacked) and
    the index returned. *)
Definition _indexRecords (d : DataSet) (readers : list Reader)
  : DataSet * result (list IndexRow) :=
  let r := index_loop d 0 readers in
  (set_indexMap (Some r.2) d, _stackRecArrays r.1).

(** The property [index], for readers that pass [assertIndexed]. *)
Definition index (d : DataSet) (readers : list Reader)
  : DataSet * result (list IndexRow) :=
  match _index d with
  | Some i => (d, Ok i)
  | None =>
      let r := _indexRecords d readers in
      match r.2 with
      | Ok i => (set_index (Some i) r.1, Ok i)
      | Err e => (r.1, Err e)
      end
  end.

(** [self.resourceReaders()[rrNo][recNo]]; the row of a reader by [[recNo]]
    is taken to be [atRowNumber(recNo)]. *)
Definition record_at (readers : list Reader) (t : nat * nat)
  : result BamAlignment :=
  match fetch readers t with
  | Some r => Ok r
  | None => Err (Builtin IndexError)
  end.

(** [__getitem__(index)] for an [int]: the object afterwards and the
    record. *)
Definition getitem_int (d : DataSet) (readers : list Reader) (i : Z)
  : DataSet * result BamAlignment :=
  let s1 :=
    match _indexMap d with
    | None => index d readers
    | Some _ => (d, Ok [])
    end in
  match s1.2 with
  | Err e => (s1.1, Err e)
  | Ok _ =>
      let s2 := if i <? 0 then index s1.1 readers else (s1.1, Ok []) in
      match s2.2 with
      | Err e => (s2.1, Err e)
      | Ok idx =>
          let i := if i <? 0 then Z.of_nat (length idx) + i else i in
          match _indexMap s2.1 with
          | None => (s2.1, Err (Builtin TypeError))
          | Some m =>
              match py_nth m i with
              | None => (s2.1, Err (Builtin IndexError))
              | Some t => (s2.1, record_at readers t)
              end
          end
      end
  end.
End IndexRecords.

(** A truth value and a mask for the examples: a Filters object is true
    when it holds a filter, and the rows that pass start before 35. *)
Definition sample_Filters_bool (f : Filters) : bool :=
  negb (Nat.eqb (length f) 0).

Definition sample_filterIndexRecords (f : Filters) (rr : Reader) : list bool :=
  (fun row => row_tStart row <? 35) <$> reader_index rr.

(** A dataset with a filter on the start, and the same with the pooled
    index of the two sample readers in place. *)
Definition ds_window : DataSet :=
  fresh_dataset AlignmentSet ∅ [bam1; bam3] [[("tstart", "<", "35")]].

Definition ds_indexed : DataSet :=
  set_indexMap (Some sample_indexMap) (set_index (Some sample_index) ds_window).

End IndexRecords.

(** ** Coverage contours: [_splitContour] *)

Module Contour.
Import Py Errors.

(** [sum(l)]. *)
Definition py_sum (l : list Z) : Z := foldr Z.add 0 l.

(** The test of the [while] loop of [_splitContour], with [e] the endpoint
    [tbr[-1]]. *)
Definition more (contour : list Z) (splitSize size : Z) (e : nat) : bool :=
  (size <? splitSize) && (Z.of_nat e <? Z.of_nat (length contour) - 1).

(** The [while] loop, for at most [fuel] turns: the endpoint and the size
    when it ends.  [contour[tbr[-1]]] is in range by the test of the
    loop. *)
Fixpoint advance (fuel : nat) (contour : list Z) (splitSize size : Z)
    (e : nat) : nat * Z :=
  match fuel with
  | O => (e, size)
  | S fuel' =>
      if more contour splitSize size e then
        advance fuel' contour splitSize
          (size + default 0 (contour !! S e)) (S e)
      else (e, size)
  end.

(** The [for] loop: each turn starts where the last one ended, with a size
    of 0.  The inner loop gets as many turns as the contour is long, which
    is more than it can take. *)
Fixpoint split_loop (turns : nat) (contour : list Z) (splitSize : Z)
    (last : nat) : list nat :=
  match turns with
  | O => []
  | S turns' =>
      let e := (advance (length contour) contour splitSize 0 last).1 in
      e :: split_loop turns' contour splitSize e
  end.

(** [_splitContour(contour, splits)]; the division is the one of Python 2
    on integers. *)
Definition _splitContour (contour : list Z) (splits : Z) : result (list nat) :=
  if splits =? 0 then Err ZeroDivisionError
  else
    let splitSize := py_sum contour / splits in
    let tbr := 0%nat :: split_loop (Z.to_nat (splits - 1)) contour splitSize 0 in
    if Z.of_nat (length tbr) =? splits then Ok tbr else Err AssertionError.

(** The coverage between two endpoints: [contour[a+1] + ... + contour[b]]. *)
Definition coverage_between (contour : list Z) (a b : nat) : Z :=
  py_sum (take (b - a) (drop (S a) contour)).

End Contour.

(** ** Atoms and reference windows: [_split_atoms] and the windows of
    [_split_contigs] *)

Module Atoms.
Import Py Errors.

(** An atom [[rId, size, segments]] and a reference window
    [(rId, start, end)]. *)
Abbreviation Atom := (string * Z * Z)%type.
Abbreviation Window := (string * Z * Z)%type.

(** The key [x[1]/x[2]] of [_split_atoms], by the division of Python 2 on
    integers; the segments of an atom are counted from 1, and a count of 0
    is taken as the ZeroDivisionError of Python integers. *)
Definition atom_key (x : Atom) : result Z :=
  if x.2 =? 0 then Err ZeroDivisionError else Ok (x.1.2 / x.2).

(** The keys of the atoms in order; the first exception ends the call. *)
Fixpoint atom_keys (atoms : list Atom) : result (list Z) :=
  match atoms with
  | [] => Ok []
  | x :: atoms' =>
      match atom_key x with
      | Err e => Err e
      | Ok k =>
          match atom_keys atoms' with
          | Err e => Err e
          | Ok ks => Ok (k :: ks)
          end
      end
  end.

(** [max] keeps the first element unless a later one is strictly
    greater. *)
Fixpoint argmax_from (best_i : nat) (best : Z) (i : nat) (keys : list Z)
  : nat :=
  match keys with
  | [] => best_i
  | k :: keys' =>
      if best <? k then argmax_from i k (S i) keys'
      else argmax_from best_i best (S i) keys'
  end.

(** One turn of the loop: [largest = max(atoms, key=...)] and
    [largest[2] += 1]. *)
Definition split_atoms_step (atoms : list Atom) : result (list Atom) :=
  match atoms with
  | [] => Err (Builtin ValueError)
  | _ :: _ =>
      match atom_keys atoms with
      | Err e => Err e
      | Ok [] => Err (Builtin ValueError)
      | Ok (k :: keys) =>
          Ok (alter (fun x => (x.1, x.2 + 1)) (argmax_from 0 k 1 keys) atoms)
      end
  end.

Fixpoint split_atoms_loop (turns : nat) (atoms : list Atom)
  : result (list Atom) :=
  match turns with
  | O => Ok atoms
  | S turns' =>
      match split_atoms_step atoms with
      | Err e => Err e
      | Ok atoms' => split_atoms_loop turns' atoms'
      end
  end.

(** [_split_atoms(atoms, num_chunks)]. *)
Definition _split_atoms (atoms : list Atom) (num_chunks : Z)
  : result (list Atom) :=
  split_atoms_loop (Z.to_nat (num_chunks - Z.of_nat (length atoms))) atoms.

(** The segments of all atoms together. *)
Definition total_segments (atoms : list Atom) : Z :=
  foldr (fun x s => x.2 + s) 0 atoms.

(** [d[key]]. *)
Definition dict_get (d : gmap string Z) (key : string) : result Z :=
  match d !! key with
  | Some v => Ok v
  | None => Err (Builtin KeyError)
  end.

(** The body of the loop "convert back to window format" of
    [_split_contigs], for one atom: its windows, the last of which is
    stretched to the end of the reference. *)
Definition windows_of_atom (refLens : gmap string Z) (byRecords : bool)
    (atom : Atom) : result (list Window) :=
  if atom.2 =? 0 then Err ZeroDivisionError
  else
    match (if byRecords then
             match dict_get refLens atom.1.1 with
             | Ok len => Ok (len / atom.2)
             | Err e => Err e
             end
           else Ok (atom.1.2 / atom.2)) with
    | Err e => Err e
    | Ok segment_size =>
        let sub_segments :=
          (fun i => (atom.1.1, segment_size * Z.of_nat i,
                     segment_size * (Z.of_nat i + 1)))
            <$> seq 0 (Z.to_nat atom.2) in
        match List.last (Some <$> sub_segments) None with
        | None => Err (Builtin IndexError)
        | Some tmp =>
            match dict_get refLens tmp.1.1 with
            | Err e => Err e
            | Ok len =>
                Ok (removelast sub_segments ++ [(tmp.1.1, tmp.1.2, len)])
            end
        end
    end.

(** The loop over the atoms: the windows of all of them, or the first
    exception. *)
Fixpoint windows_of_atoms (refLens : gmap string Z) (byRecords : bool)
    (atoms : list Atom) : result (list (list Window)) :=
  match atoms with
  | [] => Ok []
  | atom :: atoms' =>
      match windows_of_atom refLens byRecords atom with
      | Err e => Err e
      | Ok ws =>
          match windows_of_atoms refLens byRecords atoms' with
          | Err e => Err e
          | Ok wss => Ok (ws :: wss)
          end
      end
  end.

(** [[[rn, refLens[rn], 1] for rn, _, _ in atoms]]. *)
Fixpoint length_atoms (refLens : gmap string Z) (names : list string)
  : result (list Atom) :=
  match names with
  | [] => Ok []
  | rn :: names' =>
      match dict_get refLens rn with
      | Err e => Err e
      | Ok len =>
          match length_atoms refLens names' with
          | Err e => Err e
          | Ok atoms => Ok ((rn, len, 1) :: atoms)
          end
      end
  end.

(** The branch [chunks > len(atoms)] of [_split_contigs] when the split is
    not by records, from the atoms of the references named to the windows
    that replace them. *)
Definition contig_windows (refLens : gmap string Z) (names : list string)
    (chunks : Z) : result (list (list Window)) :=
  match length_atoms refLens names with
  | Err e => Err e
  | Ok atoms =>
      match _split_atoms atoms chunks with
      | Err e => Err e
      | Ok atoms' => windows_of_atoms refLens false atoms'
      end
  end.

(** Windows of one reference that follow each other without gap or
    overlap from [from] to [to]. *)
Fixpoint tiles (name : string) (from to : Z) (ws : list Window) : Prop :=
  match ws with
  | [] => from = to
  | w :: ws' => w.1.1 = name /\ w.1.2 = from /\ tiles name w.2 to ws'
  end.

End Atoms.

(** ** The coverage of a reference: [_intervalContour] *)

Module Coverage.
Import Py Errors DataSetModel.

(** [coverage[i] += delta], the Python way: a negative [i] counts from the
    end, and a position out of range is an IndexError. *)
Definition py_add_at (coverage : list Z) (i delta : Z) : result (list Z) :=
  let n := Z.of_nat (length coverage) in
  if (i <? - n) || (n <=? i) then Err (Builtin IndexError)
  else
    Ok (alter (fun c => c + delta) (Z.to_nat (if i <? 0 then n + i else i))
          coverage).

(** [for i in positions: coverage[i] += delta]. *)
Fixpoint add_each (coverage : list Z) (positions : list Z) (delta : Z)
  : result (list Z) :=
  match positions with
  | [] => Ok coverage
  | i :: positions' =>
      match py_add_at coverage i delta with
      | Err e => Err e
      | Ok coverage' => add_each coverage' positions' delta
      end
  end.

(** The last loop: each entry becomes the sum of the entries up to it. *)
Fixpoint running (curCov : Z) (coverage : list Z) : list Z :=
  match coverage with
  | [] => []
  | delta :: coverage' => (curCov + delta) :: running (curCov + delta) coverage'
  end.

(** [_intervalContour(rname)], given the index rows of the reference and
    its length. *)
Definition _intervalContour (hits : list IndexRow) (refLength : Z)
  : result (list Z) :=
  let coverage := replicate (Z.to_nat (refLength + 1)) 0 in
  let starts := sorted_stable (fun x => x) (row_tStart <$> hits) in
  match add_each coverage starts 1 with
  | Err e => Err e
  | Ok coverage =>
      let ends := sorted_stable (fun x => x) (row_tEnd <$> hits) in
      match add_each coverage ends (-1) with
      | Err e => Err e
      | Ok coverage => Ok (running 0 coverage)
      end
  end.

(** The number of rows that cover position [p]: they start at or before it
    and end after it. *)
Definition depth (hits : list IndexRow) (p : Z) : Z :=
  Z.of_nat (length (filter (fun h => row_tStart h <= p < row_tEnd h) hits)).

(** The number of entries that are at most [p], and that are [p]. *)
Definition count_le (p : Z) (xs : list Z) : Z :=
  Z.of_nat (length (filter (fun x => x <= p) xs)).

Definition count_eq (p : Z) (xs : list Z) : Z :=
  Z.of_nat (length (filter (fun x => x = p) xs)).

End Coverage.

(** ** Sample datasets for the range query *)

Module RangeSamples.
Import Py DataSetModel Iteration Samples.

(** Two resources and no filter; the same with a filter that refuses the
    read [a2]. *)
Definition ds_two : DataSet := fresh_dataset AlignmentSet ∅ [bam1; bam3] [].

Definition ds_two_filtered : DataSet :=
  fresh_dataset AlignmentSet ∅ [bam1; bam3] [[("qname", "!=", "a2")]].

End RangeSamples.

(** ** Iterating the records: [records] and [__iter__] *)

Module Records.
Import Py DataSetModel Iteration.

Section Records.
Context `{Collaborators}.

(** The property [records], given the open readers; iterating a reader is
    taken to give its records by row. *)
Definition records (d : DataSet) (readers : list Reader) : gen BamAlignment :=
  filtered d (concat (reader_rows <$> readers), None).

(** [__iter__]: the generator over [self.records], under [filtered] once
    more. *)
Definition __iter__ (d : DataSet) (readers : list Reader) : gen BamAlignment :=
  filtered d (records d readers).
End Records.

End Records.

(** ** Requests that cannot be served *)

Module Requests.
Import Py DataSetModel Iteration.

(** A request for a row that its reader does not have. *)
Definition missing_row (readers : list Reader) (t : nat * nat) : Prop :=
  exists rr, readers !! t.1 = Some rr /\ atRowNumber rr t.2 = None.

End Requests.

(** * Properties *)

Module ChunkListFacts.
Import Py ChunkList.

(** Boolean comparisons on [Z] and [nat] turned into propositions. *)
Ltac bool_to_prop :=
  repeat rewrite ?orb_true_iff, ?andb_true_iff, ?Z.ltb_lt, ?Z.eqb_eq,
    ?Nat.leb_le in *.

Lemma entry_leb_total a b : entry_leb a b = true \/ entry_leb b a = true.
Proof. unfold entry_leb. destruct a, b; simpl. bool_to_prop. lia. Qed.

Lemma entry_leb_trans a b c :
  entry_leb a b = true -> entry_leb b c = true -> entry_leb a c = true.
Proof. unfold entry_leb. destruct a, b, c; simpl. bool_to_prop. lia. Qed.

Lemma entry_leb_size a b : entry_leb a b = true -> a.1 <= b.1.
Proof. unfold entry_leb. bool_to_prop. lia. Qed.

Lemma entry_leb_spec a b :
  entry_leb a b = true -> a.1 < b.1 \/ (a.1 = b.1 /\ (a.2 <= b.2)%nat).
Proof. unfold entry_leb. bool_to_prop. lia. Qed.

Lemma entry_insert_perm a l : entry_insert a l ≡ₚ a :: l.
Proof.
  induction l as [|b l IH]; simpl; [done|].
  destruct (entry_leb a b); [done|].
  rewrite IH. apply perm_swap.
Qed.

Lemma entries_sort_perm l : entries_sort l ≡ₚ l.
Proof.
  induction l as [|a l IH]; simpl; [done|].
  by rewrite entry_insert_perm, IH.
Qed.

Lemma entry_insert_head_least a l :
  head_least l -> head_least (entry_insert a l).
Proof.
  destruct l as [|b l]; simpl; [by constructor|].
  intros Hb. destruct (entry_leb a b) eqn:E; simpl.
  - constructor; [done|].
    eapply Forall_impl; [exact Hb|]. intros e He. by eapply entry_leb_trans.
  - destruct (entry_leb_total a b) as [?|Hba]; [congruence|].
    rewrite entry_insert_perm. by constructor.
Qed.

Lemma entries_sort_head_least l : head_least (entries_sort l).
Proof.
  induction l as [|a l IH]; simpl; [done|]. by apply entry_insert_head_least.
Qed.

Lemma entries_sort_least l h t e :
  entries_sort l = h :: t -> e ∈ l -> entry_leb h e = true.
Proof.
  intros Hs He. pose proof (entries_sort_head_least l) as Hl.
  rewrite Hs in Hl. simpl in Hl.
  rewrite <- (entries_sort_perm l), Hs in He.
  apply elem_of_cons in He as [->|He].
  - destruct (entry_leb_total h h); done.
  - rewrite Forall_forall in Hl. by apply Hl.
Qed.

Lemma insert_desc_perm {A} (key : A -> Z) x l : insert_desc key x l ≡ₚ x :: l.
Proof.
  induction l as [|y l IH]; simpl; [done|].
  destruct (key x <? key y); [|done].
  rewrite IH. apply perm_swap.
Qed.

Lemma sorted_reverse_perm {A} (key : A -> Z) l : sorted_reverse key l ≡ₚ l.
Proof.
  induction l as [|x l IH]; simpl; [done|].
  by rewrite insert_desc_perm, IH.
Qed.

(** The order of the key is that of [sorted(..., reverse=True)]. *)
Lemma insert_desc_sorted {A} (key : A -> Z) x l :
  Sorted (fun a b => key b <= key a) l ->
  Sorted (fun a b => key b <= key a) (insert_desc key x l).
Proof.
  induction 1 as [|y l Hl IH Hy]; simpl; [by repeat constructor|].
  destruct (Z.ltb_spec (key x) (key y)).
  - constructor; [done|]. destruct Hy as [|z l Hz]; simpl.
    + constructor. lia.
    + destruct (Z.ltb_spec (key x) (key z)); constructor; lia.
  - constructor; [by constructor|]. constructor. lia.
Qed.

Lemma sorted_reverse_sorted {A} (key : A -> Z) l :
  Sorted (fun a b => key b <= key a) (sorted_reverse key l).
Proof.
  induction l as [|x l IH]; simpl; [constructor|].
  by apply insert_desc_sorted.
Qed.

Section ChunkerFacts.
Context {A : Type} (balanceKey : A -> Z).

Lemma concat_insert_app (chunks : list (list A)) i c x :
  chunks !! i = Some c ->
  concat (<[i := c ++ [x]]> chunks) ≡ₚ x :: concat chunks.
Proof.
  revert i. induction chunks as [|d chunks IH]; intros [|i] Hi;
    simplify_eq/=.
  - rewrite <- app_assoc. simpl. symmetry. apply Permutation_middle.
  - rewrite (IH _ Hi). symmetry. apply Permutation_middle.
Qed.

Lemma elem_of_concat_lookup (chunks : list (list A)) i c a :
  chunks !! i = Some c -> a ∈ c -> a ∈ concat chunks.
Proof.
  revert i. induction chunks as [|d chunks IH]; intros [|i] Hi Ha;
    simplify_eq/=; apply elem_of_app; [by left|right; eauto].
Qed.

Lemma filled_insert (chunks : list (list A)) i c x :
  chunks !! i = Some c ->
  filled (<[i := c ++ [x]]> chunks)
  = (filled chunks + match c with [] => 1 | _ => 0 end)%nat.
Proof.
  revert i. induction chunks as [|d chunks IH]; intros [|i] Hi;
    simplify_eq/=.
  - destruct c; simpl; lia.
  - rewrite (IH _ Hi). destruct d; simpl; lia.
Qed.

Lemma filled_le (chunks : list (list A)) :
  (filled chunks <= length chunks)%nat.
Proof. induction chunks as [|[|a c] r IH]; simpl; lia. Qed.

Lemma filled_all (chunks : list (list A)) :
  Forall (fun c => c <> []) chunks <-> filled chunks = length chunks.
Proof.
  induction chunks as [|[|a c] r IH]; simpl.
  - split; [done|constructor].
  - pose proof (filled_le r) as Hle. split; [|lia].
    intros HF. by inversion HF.
  - rewrite Forall_cons, IH. split; [intros [_ ->]; done|].
    intros [=]. done.
Qed.

Lemma load_app (c : list A) x :
  load balanceKey (c ++ [x]) = load balanceKey c + mass balanceKey x.
Proof. induction c as [|a c IH]; simpl; lia. Qed.

Lemma mass_pos x : 0 <= balanceKey x -> 1 <= mass balanceKey x.
Proof. unfold mass. destruct (Z.eqb_spec (balanceKey x) 0); lia. Qed.

Lemma load_pos (c : list A) :
  (forall a, a ∈ c -> 0 <= balanceKey a) -> c <> [] ->
  1 <= load balanceKey c.
Proof.
  intros Hc Hne.
  assert (Forall (fun a => 0 <= balanceKey a) c) as HF
    by (by apply Forall_forall).
  assert (0 <= load balanceKey c /\ (c <> [] -> 1 <= load balanceKey c))
    as [_ Hgoal]; [|by apply Hgoal].
  clear Hc Hne. induction HF as [|a c Ha _ [IH0 IH]]; simpl; [done|].
  pose proof (mass_pos a Ha). split; [lia|]. intros _. lia.
Qed.

(** The loop never fails on at least one bin, keeps its invariant and
    files the atom in exactly one chunk. *)
Lemma chunk_step_inv n st item :
  (0 < n)%nat -> chunk_inv balanceKey n st ->
  exists st', chunk_step balanceKey st item = Some st' /\
    chunk_inv balanceKey n st' /\
    concat st'.1 ≡ₚ item :: concat st.1.
Proof.
  intros Hn (Hlen & Hidx & Hload). unfold chunk_step.
  pose proof (entries_sort_perm st.2) as Hperm.
  destruct (entries_sort st.2) as [|[size i] rest] eqn:Hs.
  { apply Permutation_nil_l in Hperm. rewrite <- Hperm in Hidx. simpl in Hidx.
    apply Permutation_length in Hidx. rewrite length_seq in Hidx.
    simpl in Hidx. lia. }
  assert (Forall (fun e => exists c, st.1 !! e.2 = Some c /\
                                  e.1 = load balanceKey c)
            ((size, i) :: rest)) as Hload' by (by rewrite Hperm).
  assert (NoDup ((size, i) :: rest).*2) as Hnd.
  { rewrite Hperm, Hidx. apply NoDup_seq. }
  apply Forall_cons in Hload' as [(c & Hc & Hsz) Hrest]. simpl in Hc, Hsz.
  rewrite Hc. eexists; split; [done|]. simpl. split; [|by apply concat_insert_app].
  unfold chunk_inv; simpl.
  split; [by rewrite length_insert|]. split.
  { rewrite <- Hidx, <- Hperm. done. }
  apply lookup_lt_Some in Hc as Hi.
  constructor; simpl.
  - exists (c ++ [item]). rewrite list_lookup_insert_eq by done.
    split; [done|]. rewrite load_app. lia.
  - simpl in Hnd. apply NoDup_cons in Hnd as [Hni _].
    rewrite Forall_forall in Hrest. apply Forall_forall. intros e He.
    destruct (Hrest e He) as (d & Hd & Hsd). exists d. split; [|done].
    rewrite list_lookup_insert_ne; [done|]. intros ->.
    apply Hni. apply list_elem_of_fmap. by exists e.
Qed.

(** As long as an empty chunk is left, the atom goes to an empty one. *)
Lemma chunk_step_filled n st st' item k :
  chunk_inv balanceKey n st ->
  (forall a, a ∈ concat st.1 -> 0 <= balanceKey a) ->
  chunk_step balanceKey st item = Some st' ->
  (Nat.min k n <= filled st.1)%nat ->
  (Nat.min (S k) n <= filled st'.1)%nat.
Proof.
  intros (Hlen & Hidx & Hload) Hpos. unfold chunk_step.
  destruct (entries_sort st.2) as [|[size i] rest] eqn:Hs; [done|].
  destruct (st.1 !! i) as [c|] eqn:Hc; [|done].
  intros [= <-] Hk. cbn [fst]. rewrite (filled_insert _ _ _ _ Hc).
  destruct c as [|a c]; [lia|].
  enough (filled st.1 = n) as Hfull by (rewrite Hfull; lia).
  rewrite <- Hlen. apply filled_all. apply Forall_forall. intros d Hd ->.
  apply list_elem_of_lookup in Hd as [j Hj].
  assert (j ∈ st.2.*2) as Hin.
  { rewrite Hidx. apply elem_of_seq. apply lookup_lt_Some in Hj. lia. }
  apply list_elem_of_fmap in Hin as (e & -> & He).
  rewrite Forall_forall in Hload.
  destruct (Hload e He) as (d & Hd & Hsd). rewrite Hj in Hd. simplify_eq.
  pose proof (entries_sort_least _ _ _ _ Hs He) as Hle.
  apply entry_leb_size in Hle. simpl in Hle.
  assert ((size, i) ∈ st.2) as Hhd.
  { rewrite <- (entries_sort_perm st.2), Hs. apply list_elem_of_here. }
  destruct (Hload _ Hhd) as (c' & Hc' & Hsz). simpl in Hc', Hsz.
  rewrite Hc in Hc'. simplify_eq.
  assert (1 <= load balanceKey (a :: c)); [|simpl in *; lia].
  apply load_pos; [|done]. intros b Hb. apply Hpos.
  exact (elem_of_concat_lookup _ _ _ _ Hc Hb).
Qed.

Lemma chunk_loop_inv n items st :
  (0 < n)%nat -> chunk_inv balanceKey n st ->
  exists st', chunk_loop balanceKey items st = Some st' /\
    chunk_inv balanceKey n st' /\
    concat st'.1 ≡ₚ concat st.1 ++ items.
Proof.
  intros Hn. revert st. induction items as [|item items IH]; intros st Hinv.
  - exists st. by rewrite app_nil_r.
  - destruct (chunk_step_inv n st item Hn Hinv) as (st1 & Hst & Hinv1 & Hp1).
    destruct (IH st1 Hinv1) as (st' & Hl & Hinv' & Hp').
    exists st'. simpl. rewrite Hst. split; [done|]. split; [done|].
    rewrite Hp', Hp1. simpl. apply Permutation_middle.
Qed.

Lemma chunk_loop_filled n items st st' k :
  (0 < n)%nat -> chunk_inv balanceKey n st ->
  (forall a, a ∈ concat st.1 ++ items -> 0 <= balanceKey a) ->
  chunk_loop balanceKey items st = Some st' ->
  (Nat.min k n <= filled st.1)%nat ->
  (Nat.min (k + length items) n <= filled st'.1)%nat.
Proof.
  intros Hn. revert st k.
  induction items as [|item items IH]; intros st k Hinv Hpos; simpl.
  - intros [= <-]. by rewrite Nat.add_0_r.
  - destruct (chunk_step_inv n st item Hn Hinv) as (st1 & Hst & Hinv1 & Hp1).
    rewrite Hst. intros Hl Hk.
    replace (k + S (length items))%nat with (S k + length items)%nat by lia.
    apply (IH st1); [done| |done|].
    + intros a Ha. apply Hpos. apply elem_of_app in Ha as [Ha|Ha].
      * rewrite Hp1 in Ha. apply elem_of_cons in Ha as [->|Ha];
          apply elem_of_app; [right; apply list_elem_of_here|by left].
      * apply elem_of_app. right. by apply list_elem_of_further.
    + apply (chunk_step_filled n st st1 item k); [done| |done|done].
      intros a Ha. apply Hpos. apply elem_of_app. by left.
Qed.

Lemma chunk_init_inv (chunknum : Z) :
  chunk_inv balanceKey (Z.to_nat chunknum) (chunk_init chunknum).
Proof.
  unfold chunk_init, chunk_inv. simpl. split; [by rewrite length_replicate|].
  split.
  - rewrite <- list_fmap_compose. by rewrite list_fmap_id.
  - apply Forall_forall. intros e He.
    apply list_elem_of_fmap in He as (i & -> & Hi). apply elem_of_seq in Hi.
    exists []. split; [|done]. simpl. apply lookup_replicate_2. lia.
Qed.

Lemma concat_replicate_nil n : concat (replicate n (@nil A)) = [].
Proof. induction n; simpl; auto. Qed.

(** The atom of a turn goes to a chunk of least load. *)
Lemma chunk_step_lightest n st st' item :
  chunk_inv balanceKey n st ->
  chunk_step balanceKey st item = Some st' ->
  exists i c, st.1 !! i = Some c /\ st'.1 = <[i := c ++ [item]]> st.1 /\
    forall j d, st.1 !! j = Some d -> load balanceKey c <= load balanceKey d.
Proof.
  intros (Hlen & Hidx & Hload). unfold chunk_step.
  destruct (entries_sort st.2) as [|[size i] rest] eqn:Hs; [done|].
  destruct (st.1 !! i) as [c|] eqn:Hc; [|done].
  intros [= <-]. exists i, c. split; [done|]. split; [done|].
  intros j d Hj. rewrite Forall_forall in Hload.
  assert ((size, i) ∈ st.2) as Hhd.
  { rewrite <- (entries_sort_perm st.2), Hs. apply list_elem_of_here. }
  destruct (Hload _ Hhd) as (c' & Hc' & Hsz). simpl in Hc', Hsz.
  rewrite Hc in Hc'. simplify_eq.
  assert (j ∈ st.2.*2) as Hin.
  { rewrite Hidx. apply elem_of_seq. apply lookup_lt_Some in Hj. lia. }
  apply list_elem_of_fmap in Hin as (e & -> & He).
  destruct (Hload e He) as (d' & Hd' & Hsd). rewrite Hj in Hd'. simplify_eq.
  pose proof (entries_sort_least _ _ _ _ Hs He) as Hle.
  apply entry_leb_size in Hle. simpl in Hle. lia.
Qed.

(** The chunks of a list at least as long as the chunk count. *)
Lemma chunkList_chunks (inlist : list A) (chunknum : Z) :
  1 <= chunknum <= Z.of_nat (length inlist) ->
  (forall a, a ∈ inlist -> 0 <= balanceKey a) ->
  exists chunks, _chunkList balanceKey inlist chunknum = Some chunks /\
    Z.of_nat (length chunks) = chunknum /\
    Forall (fun c => c <> []) chunks /\
    concat chunks ≡ₚ inlist.
Proof.
  intros Hk Hpos. unfold _chunkList.
  pose proof (chunk_init_inv chunknum) as Hinit.
  assert (0 < Z.to_nat chunknum)%nat as Hn by lia.
  destruct (chunk_loop_inv _ (sorted_reverse balanceKey inlist) _ Hn Hinit)
    as (st' & Hloop & Hinv' & Hperm).
  rewrite Hloop. exists st'.1. split; [done|].
  pose proof Hinv' as (Hlen & _ & _).
  assert (concat st'.1 ≡ₚ inlist) as Hall.
  { rewrite Hperm. simpl. rewrite concat_replicate_nil. simpl.
    apply sorted_reverse_perm. }
  split; [lia|]. split; [|done].
  apply filled_all.
  pose proof (filled_le st'.1) as Hle.
  pose proof (chunk_loop_filled (Z.to_nat chunknum)
                (sorted_reverse balanceKey inlist) (chunk_init chunknum)
                st' 0%nat Hn Hinit) as Hfill.
  assert (Nat.min (0 + length (sorted_reverse balanceKey inlist))
            (Z.to_nat chunknum) <= filled st'.1)%nat as Hmin.
  { apply Hfill; [|done|lia]. intros a Ha. apply Hpos.
    simpl in Ha. rewrite concat_replicate_nil in Ha. simpl in Ha.
    by rewrite sorted_reverse_perm in Ha. }
  rewrite (Permutation_length (sorted_reverse_perm balanceKey inlist)) in Hmin.
  lia.
Qed.

(** The atom of a turn goes to the first of the chunks of least load. *)
Lemma chunk_step_greedy n st st' item :
  chunk_inv balanceKey n st ->
  chunk_step balanceKey st item = Some st' ->
  exists i c, st.1 !! i = Some c /\ st'.1 = <[i := c ++ [item]]> st.1 /\
    forall j d, st.1 !! j = Some d ->
      load balanceKey c < load balanceKey d \/
      (load balanceKey c = load balanceKey d /\ (i <= j)%nat).
Proof.
  intros (Hlen & Hidx & Hload). unfold chunk_step.
  destruct (entries_sort st.2) as [|[size i] rest] eqn:Hs; [done|].
  destruct (st.1 !! i) as [c|] eqn:Hc; [|done].
  intros [= <-]. exists i, c. split; [done|]. split; [done|].
  intros j d Hj. rewrite Forall_forall in Hload.
  assert ((size, i) ∈ st.2) as Hhd.
  { rewrite <- (entries_sort_perm st.2), Hs. apply list_elem_of_here. }
  destruct (Hload _ Hhd) as (c' & Hc' & Hsz). simpl in Hc', Hsz.
  rewrite Hc in Hc'. simplify_eq.
  assert (j ∈ st.2.*2) as Hin.
  { rewrite Hidx. apply elem_of_seq. apply lookup_lt_Some in Hj. lia. }
  apply list_elem_of_fmap in Hin as (e & -> & He).
  destruct (Hload e He) as (d' & Hd' & Hsd). rewrite Hj in Hd'. simplify_eq.
  pose proof (entries_sort_least _ _ _ _ Hs He) as Hle.
  apply entry_leb_spec in Hle. simpl in Hle. lia.
Qed.

(** The loop files the atoms as the greedy assignment does. *)
Lemma chunk_loop_greedy n items st st' :
  (0 < n)%nat -> chunk_inv balanceKey n st ->
  chunk_loop balanceKey items st = Some st' ->
  greedy balanceKey items st.1 st'.1.
Proof.
  intros Hn. revert st. induction items as [|item items IH]; intros st Hinv.
  - simpl. intros [= <-]. constructor.
  - simpl.
    destruct (chunk_step_inv n st item Hn Hinv) as (st1 & Hst & Hinv1 & _).
    rewrite Hst. intros Hl.
    destruct (chunk_step_greedy n st st1 item Hinv Hst)
      as (i & c & Hc & Hst1 & Hleast).
    apply (greedy_cons balanceKey item items st.1 i c st'.1 Hc Hleast).
    rewrite <- Hst1. by apply IH.
Qed.

(** C5: for a key that measures a size (no atom has a negative key) and a
    chunk count K with 1 <= K <= |A|, [_chunkList] sorts the atoms
    descending by size and files them in that order, each at the end of the
    chunk that is of least load at that moment, an atom of size zero
    counting for 1 in the load; it returns exactly K chunks, none of them
    empty, whose members taken together are the atoms of A, each atom in
    exactly one chunk. *)
Theorem chunkList_partition (inlist : list A) (chunknum : Z) :
  1 <= chunknum <= Z.of_nat (length inlist) ->
  (forall a, a ∈ inlist -> 0 <= balanceKey a) ->
  exists chunks, _chunkList balanceKey inlist chunknum = Some chunks /\
    Z.of_nat (length chunks) = chunknum /\
    Forall (fun c => c <> []) chunks /\
    concat chunks ≡ₚ inlist /\
    let sorted := sorted_reverse balanceKey inlist in
    sorted ≡ₚ inlist /\
    Sorted (fun a b => balanceKey b <= balanceKey a) sorted /\
    greedy balanceKey sorted (replicate (Z.to_nat chunknum) []) chunks /\
    (forall a c, load balanceKey (a :: c)
       = (if balanceKey a =? 0 then 1 else balanceKey a) + load balanceKey c).
Proof.
  intros Hk Hpos. unfold _chunkList.
  pose proof (chunk_init_inv chunknum) as Hinit.
  assert (0 < Z.to_nat chunknum)%nat as Hn by lia.
  destruct (chunk_loop_inv _ (sorted_reverse balanceKey inlist) _ Hn Hinit)
    as (st' & Hloop & Hinv' & Hperm).
  rewrite Hloop. exists st'.1. split; [done|].
  pose proof Hinv' as (Hlen & _ & _).
  assert (concat st'.1 ≡ₚ inlist) as Hall.
  { rewrite Hperm. simpl. rewrite concat_replicate_nil. simpl.
    apply sorted_reverse_perm. }
  split; [lia|]. split; [|split; [done|]].
  - apply filled_all.
    pose proof (filled_le st'.1) as Hle.
    pose proof (chunk_loop_filled (Z.to_nat chunknum)
                  (sorted_reverse balanceKey inlist) (chunk_init chunknum)
                  st' 0%nat Hn Hinit) as Hfill.
    assert (Nat.min (0 + length (sorted_reverse balanceKey inlist))
              (Z.to_nat chunknum) <= filled st'.1)%nat as Hmin.
    { apply Hfill; [|done|lia]. intros a Ha. apply Hpos.
      simpl in Ha. rewrite concat_replicate_nil in Ha. simpl in Ha.
      by rewrite sorted_reverse_perm in Ha. }
    rewrite (Permutation_length (sorted_reverse_perm balanceKey inlist)) in Hmin.
    lia.
  - cbv zeta. split; [apply sorted_reverse_perm|].
    split; [apply sorted_reverse_sorted|]. split.
    + exact (chunk_loop_greedy _ _ _ _ Hn Hinit Hloop).
    + intros a c. unfold load, mass. simpl.
      destruct (Z.eqb_spec (balanceKey a) 0); lia.
Qed.
End ChunkerFacts.

(** Three atoms of sizes 3, 0 and 5 in two chunks: the atom of size 0 counts
    for 1 and joins the lighter chunk. *)
Example chunkList_sizes_3_0_5 :
  _chunkList (fun z : Z => z) [3; 0; 5] 2 = Some [[5]; [3; 0]].
Proof. reflexivity. Qed.

(** A key below zero (the count -1 of a subdataset whose records are not
    counted) keeps the load of the first chunk the least: it takes every atom
    and the other chunk stays empty. *)
Example chunkList_negative_key :
  _chunkList (fun z : Z => z) [-1; -1] 2 = Some [[-1; -1]; []].
Proof. reflexivity. Qed.

Lemma chunkList_partition_witness :
  exists chunks, _chunkList (fun z : Z => z) [3; 0; 5] 2 = Some chunks /\
    Z.of_nat (length chunks) = 2 /\
    Forall (fun c => c <> []) chunks /\
    concat chunks ≡ₚ [3; 0; 5] /\
    let sorted := sorted_reverse (fun z : Z => z) [3; 0; 5] in
    sorted ≡ₚ [3; 0; 5] /\
    Sorted (fun a b => b <= a) sorted /\
    greedy (fun z : Z => z) sorted (replicate (Z.to_nat 2) []) chunks /\
    (forall a c, load (fun z : Z => z) (a :: c)
       = (if a =? 0 then 1 else a) + load (fun z : Z => z) c).
Proof.
  apply (chunkList_partition (fun z : Z => z) [3; 0; 5] 2).
  - simpl. lia.
  - intros a Ha. repeat (apply elem_of_cons in Ha as [->|Ha]; [lia|]).
    by apply elem_of_nil in Ha.
Defined.

End ChunkListFacts.

Module DataSetFacts.
Import Py ChunkList DataSetModel Samples ChunkListFacts.

Section LifecycleFacts.
Context `{Collaborators}.

(** A copy is in the state [__init__] gives, so that copying it again
    starts from the copy itself. *)
Lemma deepcopy_copy (d : DataSet) : __deepcopy__ (copy d) = copy d.
Proof. reflexivity. Qed.

Lemma uuid_copy (d : DataSet) : uuid (copy d) = Some (newId (__deepcopy__ d)).
Proof. unfold uuid, copy. simpl. apply lookup_insert_eq. Qed.

Lemma eq_spec (a b : DataSet) : __eq__ a b = true <-> newId a = newId b.
Proof. unfold __eq__. simpl. apply String.eqb_eq. Qed.

(** C1, as the code has it: the copy keeps every member of [d] but the
    UniqueId, which becomes the digest of the core XML of the deep copy, so
    that it differs from the UniqueId of [d] exactly when that is not this
    digest already; the copy is equal to [d] under [==] exactly when the two
    core XMLs have the same digest; a copy [c] is equal to its own copy
    exactly when that copy, copied again, keeps its UniqueId; and when the
    core XML keeps the UniqueId (equal core XMLs of [c] and [d] mean equal
    UniqueIds) and the digests of the two core XMLs do not collide, a copy
    with another UniqueId is not equal to [d]. *)
Theorem copy_members_and_equality (d : DataSet) :
  let c := copy d in
  className c = className d /\
  metadata c = metadata d /\
  externalResources c = externalResources d /\
  filters c = filters d /\
  subdatasets c = subdatasets d /\
  fileNames c = fileNames d /\
  objMetadata c = <["UniqueId" := newId (__deepcopy__ d)]> (objMetadata d) /\
  uuid c = Some (newId (__deepcopy__ d)) /\
  (__eq__ c d = true <-> newId c = newId d) /\
  (__eq__ (copy c) c = true <-> uuid (copy (copy c)) = uuid (copy c)) /\
  (uuid c <> uuid d <-> uuid d <> Some (newId (__deepcopy__ d))) /\
  ((toXml_core c = toXml_core d -> uuid c = uuid d) ->
   (newId c = newId d -> toXml_core c = toXml_core d) ->
   uuid c <> uuid d -> __eq__ c d = false).
Proof.
  cbv zeta. repeat (split; [reflexivity|]).
  split; [apply uuid_copy|]. split; [apply eq_spec|]. split.
  { rewrite !uuid_copy, !deepcopy_copy, eq_spec.
    split; [by intros ->|by intros [=]]. }
  split.
  { rewrite uuid_copy. split; intros Hne Heq; apply Hne; congruence. }
  intros Hxml Hcol Hne. destruct (__eq__ (copy d) d) eqn:He; [|done].
  apply eq_spec in He. destruct Hne. by apply Hxml, Hcol.
Qed.

(** No dataset that is a copy can satisfy both halves of "the copy is
    equal and has another UniqueId" together with its own copy. *)
Lemma copy_equal_and_distinct_clash (d : DataSet) :
  let c := copy d in
  ~ (__eq__ (copy c) c = true /\ uuid (copy (copy c)) <> uuid (copy c)).
Proof.
  cbv zeta. intros [He Hu]. apply Hu.
  rewrite eq_spec in He. rewrite !uuid_copy, !deepcopy_copy. by rewrite He.
Qed.

(** C4, as the code has it: [addFilters] and the callback of the filters
    property (both through [reFilter]) leave the three caches invalidated.
    [addDatasets] and [addExternalResources] invalidate nothing:
    [addDatasets], and [addExternalResources] with [updateCount=False],
    return with the three caches as they were; with [updateCount=True] the
    caches are as they were when [addExternalResources] calls
    [self._openFiles()], which raises RuntimeError in the classes DataSet
    and BarcodeSet and is a method of the subclass in the others. *)
Theorem cache_invalidation (d other : DataSet) (newFilters : Filters)
    (newExtResources : list ExternalResource)
    (underConstruction light : bool) :
  caches_cleared (addFilters newFilters underConstruction d) /\
  caches_cleared (filters_callback d) /\
  caches_cleared (reFilter light d) /\
  caches_kept d (addDatasets other d) /\
  caches_kept d (addExternalResources newExtResources false d).1 /\
  (addExternalResources newExtResources false d).2 = Some (Returned tt) /\
  (className d = DataSet_ \/ className d = BarcodeSet ->
   caches_kept d (addExternalResources newExtResources true d).1 /\
   (addExternalResources newExtResources true d).2
   = Some (Raised RuntimeError)) /\
  (className d <> DataSet_ -> className d <> BarcodeSet ->
   addExternalResources newExtResources true d
   = (set_externalResources
        (ExternalResources_merge (externalResources d) newExtResources) d,
      None)).
Proof.
  unfold caches_cleared, caches_kept, addFilters, filters_callback, reFilter,
    addExternalResources, addDatasets.
  split; [by destruct underConstruction|].
  split; [done|]. split; [by destruct light|].
  split; [by destruct (subdatasets other)|].
  simpl. split; [done|]. split; [done|].
  split; [by intros [-> | ->]|].
  by destruct (className d).
Qed.

Lemma newUuid_resources (d : DataSet) :
  externalResources (newUuid true d).1 = externalResources d.
Proof. reflexivity. Qed.

Lemma assign_chunks_resources (results : list DataSet)
    (chunks : list (list ExternalResource)) :
  length results = length chunks ->
  externalResources <$>
    ((fun r => (newUuid true r).1) <$> assign_chunks results chunks)
  = chunks.
Proof.
  revert chunks. induction results as [|r results IH];
    intros [|c chunks] Hlen; simplify_eq/=; [done|].
  f_equal. by apply IH.
Qed.

Lemma assign_chunks_length (results : list DataSet)
    (chunks : list (list ExternalResource)) :
  length (assign_chunks results chunks) = length results.
Proof.
  revert chunks. induction results as [|r results IH];
    intros [|c chunks]; simpl; auto.
Qed.

(** C6: splitting by resource (the default mode) into C chunks, with
    1 <= C <= n for n >= 1 external resources, returns exactly C datasets;
    each holds at least one resource and every resource of [d] is in
    exactly one of them; for C = 1 the result is the single copy of [d],
    with the resources of [d]. *)
Theorem split_by_resource (d : DataSet) (chunks : Z) :
  1 <= chunks <= Z.of_nat (length (externalResources d)) ->
  exists results,
    split chunks true false false false d = Returned results /\
    Z.of_nat (length results) = chunks /\
    Forall (fun r => externalResources r <> []) results /\
    concat (externalResources <$> results) ≡ₚ externalResources d /\
    (chunks = 1 ->
     results = [copy d] /\ externalResources (copy d) = externalResources d).
Proof.
  intros Hc. unfold split. simpl.
  rewrite andb_false_r.
  assert ((chunks =? 0) || (Z.of_nat (length (externalResources d)) <? chunks)
          = false) as ->.
  { apply orb_false_iff. split; [apply Z.eqb_neq|apply Z.ltb_ge]; lia. }
  destruct (Z.eqb_spec chunks 1) as [->|Hne].
  - exists [copy d]. split; [done|]. split; [done|]. simpl. split.
    + constructor; [|constructor]. intros Hnil.
      change (externalResources d = []) in Hnil. rewrite Hnil in Hc.
      simpl in Hc. lia.
    + by rewrite app_nil_r.
  - destruct (chunkList_chunks resource_len (externalResources d) chunks Hc)
      as (cl & Hcl & Hlen & Hne' & Hperm).
    { intros a _. unfold resource_len. lia. }
    rewrite Hcl. eexists. split; [done|].
    assert (length (replicate (Z.to_nat chunks) (copy d)) = length cl) as Hrl.
    { rewrite length_replicate. lia. }
    rewrite length_fmap, assign_chunks_length, length_replicate.
    split; [lia|]. split; [|split; [|done]].
    + apply Forall_forall. intros r Hr. rewrite Forall_forall in Hne'.
      apply Hne'.
      pose proof (list_elem_of_fmap_2 externalResources _ _ Hr) as Hin.
      pose proof (assign_chunks_resources _ _ Hrl) as Hres.
      unfold newUuid in Hres. simpl in Hres. by rewrite Hres in Hin.
    + pose proof (assign_chunks_resources _ _ Hrl) as Hres.
      unfold newUuid in Hres. simpl in Hres. by rewrite Hres.
Qed.
End LifecycleFacts.

(** Copying a dataset under the sample serialization, which renders the
    UniqueId into the core XML as [newUuid] documents: the copy has another
    UniqueId and is not equal to the original, as in the doctest of [copy]. *)
Lemma copy_not_equal_sample :
  @__eq__ sample_collaborators (@copy sample_collaborators ds_three) ds_three
  = false /\
  @uuid (@copy sample_collaborators ds_three) <> @uuid ds_three.
Proof. split; [vm_compute; reflexivity|]. vm_compute. discriminate. Qed.

Lemma copy_members_and_equality_witness :
  @__eq__ sample_collaborators (@copy sample_collaborators ds_three) ds_three
  = false.
Proof.
  apply (@copy_members_and_equality sample_collaborators ds_three).
  - vm_compute. discriminate.
  - vm_compute. discriminate.
  - vm_compute. discriminate.
Defined.

(** Adding a subdataset or an external resource to a dataset whose caches
    are filled leaves the caches filled. *)
Lemma caches_survive_sample :
  ~ caches_cleared (addDatasets ds_three ds_cached) /\
  ~ caches_cleared
      (@addExternalResources sample_collaborators [bam1] false ds_cached).1.
Proof. split; intros (Hc & _); discriminate Hc. Qed.

Lemma split_by_resource_witness :
  exists results,
    @split sample_collaborators 2 true false false false ds_three
    = Returned results /\
    Z.of_nat (length results) = 2 /\
    Forall (fun r => externalResources r <> []) results /\
    concat (externalResources <$> results) ≡ₚ externalResources ds_three /\
    (2 = 1 ->
     results = [@copy sample_collaborators ds_three] /\
     externalResources (@copy sample_collaborators ds_three)
     = externalResources ds_three).
Proof. apply (@split_by_resource sample_collaborators ds_three 2). simpl. lia. Defined.

(** The two chunks of the three sample resources.  The resource with one
    child comes first; the two without children count 1 each, so that the
    loads are 1 and 1 after two turns and the third resource goes to the
    chunk of least index. *)
Example split_sample_chunks :
  chunk_resource_ids
    (@split sample_collaborators 2 true false false false ds_three)
  = Some [["bam2.bam"; "bam3.bam"]; ["bam1.bam"]].
Proof. vm_compute. reflexivity. Qed.

End DataSetFacts.

Module MergeFacts.
Import Py DataSetModel Merge Samples DataSetFacts.

Lemma get_Some (σ : Store) l d : σ !! l = Some d -> get l σ = (σ, Returned d).
Proof. intros Hl. unfold get. by rewrite Hl. Qed.

Lemma modify_Some (σ : Store) l d f :
  σ !! l = Some d -> modify l f σ = (<[l := f d]> σ, Returned tt).
Proof. intros Hl. unfold modify. by rewrite Hl. Qed.

Lemma bind_Returned {A B} (m : M A) (k : A -> M B) σ σ' a :
  m σ = (σ', Returned a) -> bind m k σ = k a σ'.
Proof. intros Hm. unfold bind. by rewrite Hm. Qed.

Lemma bind_Raised {A B} (m : M A) (k : A -> M B) σ σ' e :
  m σ = (σ', Raised e) -> bind m k σ = (σ', Raised e).
Proof. intros Hm. unfold bind. by rewrite Hm. Qed.

Lemma fresh_unused (σ : Store) : σ !! fresh (dom σ) = None.
Proof. apply not_elem_of_dom, is_fresh. Qed.

Section MergeMethodFacts.
Context `{Collaborators}.

Lemma result_frame_refl result r σ :
  σ !! result = Some r -> result_frame result r σ σ.
Proof. intros Hr. split; [done|]. exists r. by repeat split. Qed.

Lemma result_frame_lookup result r σ σ' l d :
  result_frame result r σ σ' -> σ !! result = Some r -> σ !! l = Some d ->
  exists d', σ' !! l = Some d' /\ externalResources d' = externalResources d.
Proof.
  intros [Hother (r' & Hr' & _ & _ & _ & Hres & _)] Hr Hl.
  destruct (decide (l = result)) as [->|Hne].
  - exists r'. split; [done|]. rewrite Hr in Hl. by simplify_eq.
  - exists d. split; [|done]. rewrite Hother; [done|done|by eexists].
Qed.

Lemma addDatasets_copy_frame result r σ σ0 source src :
  result_frame result r σ0 σ -> σ0 !! result = Some r ->
  σ !! source = Some src ->
  exists σ', addDatasets_copy result source σ = (σ', Returned tt) /\
    result_frame result r σ0 σ' /\
    forall l, is_Some (σ !! l) -> is_Some (σ' !! l).
Proof.
  intros [Hother (r' & Hr' & Hfr)] Hr Hsrc.
  unfold addDatasets_copy, copy_object.
  pose proof (fresh_unused σ) as Hfresh.
  set (c := fresh (dom σ)) in *.
  assert (c <> result) as Hcr by (intros ->; congruence).
  eexists. split.
  { erewrite bind_Returned; cycle 1.
    { erewrite bind_Returned; [|by apply get_Some]. unfold alloc. done. }
    fold c. erewrite bind_Returned; cycle 1.
    { apply get_Some. apply lookup_insert_eq. }
    apply modify_Some. rewrite lookup_insert_ne by done. done. }
  split; [split|].
  - intros l Hl Hsome. rewrite lookup_insert_ne by done.
    rewrite lookup_insert_ne; [by apply Hother|].
    intros <-. rewrite <- (Hother _ Hl Hsome) in Hsome.
    rewrite Hfresh in Hsome. by destruct Hsome.
  - eexists. split; [apply lookup_insert_eq|].
    destruct Hfr as (? & ? & ? & ? & ? & ? & ?).
    unfold addDatasets, caches_kept.
    destruct (subdatasets (copy src)); simpl; repeat split; done.
  - intros l Hsome. destruct (decide (l = result)) as [->|];
      [rewrite lookup_insert_eq; by eexists|].
    rewrite lookup_insert_ne by done.
    destruct (decide (l = c)) as [->|];
      [rewrite lookup_insert_eq; by eexists|].
    by rewrite lookup_insert_ne.
Qed.

Lemma modify_result_frame result r σ σ0 (f : DataSet -> DataSet) :
  result_frame result r σ0 σ ->
  (forall d, className (f d) = className d /\
             objMetadata (f d) = objMetadata d /\
             filters (f d) = filters d /\
             externalResources (f d) = externalResources d /\
             caches_kept d (f d)) ->
  exists σ', modify result f σ = (σ', Returned tt) /\
    result_frame result r σ0 σ' /\
    forall l, is_Some (σ !! l) -> is_Some (σ' !! l).
Proof.
  intros [Hother (r' & Hr' & Hfr)] Hf.
  eexists. split; [by apply modify_Some|]. split; [split|].
  - intros l Hl Hsome. rewrite lookup_insert_ne by done. by apply Hother.
  - eexists. split; [apply lookup_insert_eq|].
    destruct Hfr as (? & ? & ? & ? & Hc1 & Hc2 & Hc3).
    destruct (Hf r') as (? & ? & ? & ? & Hd1 & Hd2 & Hd3).
    repeat split; congruence.
  - intros l Hsome. destruct (decide (l = result)) as [->|];
      [rewrite lookup_insert_eq; by eexists|].
    by rewrite lookup_insert_ne.
Qed.

Lemma optional_addDatasets_copy_frame (b : bool) result r σ σ0 source src :
  result_frame result r σ0 σ -> σ0 !! result = Some r ->
  σ !! source = Some src ->
  exists σ',
    (if b then addDatasets_copy result source else ret tt) σ
    = (σ', Returned tt) /\
    result_frame result r σ0 σ' /\
    forall l, is_Some (σ !! l) -> is_Some (σ' !! l).
Proof.
  intros Hfr Hr Hsrc. destruct b.
  - by eapply addDatasets_copy_frame.
  - exists σ. split; [reflexivity|]. split; [exact Hfr|auto].
Qed.

(** The second half of [merge] never raises; it changes no object but
    [result], and in [result] it leaves the class, the object metadata, the
    filters and the caches as they are and merges the external resources
    of [other] in. *)
Lemma merge_into_spec (firstIn : bool) self other result σ s o r :
  σ !! self = Some s -> σ !! other = Some o -> σ !! result = Some r ->
  exists σ' r',
    merge_into firstIn self other result σ = (σ', Returned (Some result)) /\
    (forall l, l <> result -> is_Some (σ !! l) -> σ' !! l = σ !! l) /\
    σ' !! result = Some r' /\
    className r' = className r /\ objMetadata r' = objMetadata r /\
    filters r' = filters r /\ caches_kept r r' /\
    externalResources r'
    = ExternalResources_merge (externalResources r) (externalResources o).
Proof.
  intros Hs Ho Hr. unfold merge_into.
  pose proof (result_frame_refl result r σ Hr) as Hfr0.
  destruct (optional_addDatasets_copy_frame
              ((Nat.eqb (length (subdatasets s)) 0) && negb firstIn)
              result r σ σ self s Hfr0 Hr Hs) as (σ1 & Hrun1 & Hfr1 & Hdom1).
  destruct (result_frame_lookup _ _ _ _ _ _ Hfr1 Hr Ho) as (o1 & Ho1 & Hres1).
  destruct (optional_addDatasets_copy_frame
              (negb (Nat.eqb (length (subdatasets o1)) 0) || negb firstIn)
              result r σ1 σ other o1 Hfr1 Hr Ho1)
    as (σ2 & Hrun2 & Hfr2 & Hdom2).
  destruct (result_frame_lookup _ _ _ _ _ _ Hfr2 Hr Ho) as (o2 & Ho2 & Hres2).
  destruct (modify_result_frame result r σ2 σ
              (if firstIn then set_metadata (metadata o2)
               else addMetadata (metadata o2)) Hfr2)
    as (σ3 & Hrun3 & Hfr3 & Hdom3).
  { intros d. unfold addMetadata, caches_kept.
    destruct firstIn; [by repeat split|].
    destruct (DataSetMetadata_bool (metadata o2)); [|by repeat split].
    destruct (DataSetMetadata_bool (metadata d)); by repeat split. }
  destruct (result_frame_lookup _ _ _ _ _ _ Hfr3 Hr Ho) as (o3 & Ho3 & Hres3).
  destruct Hfr3 as [Hother3 (r3 & Hr3 & Hc3 & Hm3 & Hf3 & He3 & Hk3)].
  exists (<[result := (addExternalResources (externalResources o3) false r3).1]> σ3),
    (addExternalResources (externalResources o3) false r3).1.
  split.
  { erewrite bind_Returned; [|by apply get_Some].
    erewrite bind_Returned; [|exact Hrun1].
    erewrite bind_Returned; [|by apply get_Some].
    erewrite bind_Returned; [|exact Hrun2].
    erewrite bind_Returned; [|by apply get_Some].
    erewrite bind_Returned; cycle 1.
    { destruct firstIn; exact Hrun3. }
    erewrite bind_Returned; [|by apply get_Some].
    erewrite bind_Returned; [|by apply modify_Some].
    done. }
  split.
  { intros l Hl Hsome. rewrite lookup_insert_ne by done. by apply Hother3. }
  split; [apply lookup_insert_eq|].
  unfold addExternalResources, caches_kept in *. simpl.
  repeat split; try tauto. by rewrite He3, Hres3.
Qed.

Lemma merge_not_mergeable self other c σ s o :
  σ !! self = Some s -> σ !! other = Some o ->
  mergeable (className s) (className o) = false ->
  merge self other c σ = (σ, Raised TypeError).
Proof.
  intros Hs Ho Hm. unfold merge.
  erewrite bind_Returned; [|by apply get_Some].
  erewrite bind_Returned; [|by apply get_Some].
  by rewrite Hm.
Qed.

Lemma merge_blocked self other c σ s o :
  σ !! self = Some s -> σ !! other = Some o ->
  mergeable (className s) (className o) = true ->
  filters_pass s o = false ->
  merge self other c σ = (σ, Returned None).
Proof.
  intros Hs Ho Hm Hf. unfold merge.
  erewrite bind_Returned; [|by apply get_Some].
  erewrite bind_Returned; [|by apply get_Some].
  rewrite Hm. unfold filters_pass in Hf.
  apply orb_false_iff in Hf as [-> ->]. done.
Qed.

(** Past the two checks, [merge] has merged the filters into the receiver
    and reset its cache; the version check then raises, or the object
    metadata are updated and the second half runs. *)
Lemma merge_unfold self other c σ s o :
  σ !! self = Some s -> σ !! other = Some o ->
  mergeable (className s) (className o) = true ->
  filters_pass s o = true ->
  merge self other c σ =
  match _checkObjMetadata (objMetadata o) (filtered_receiver s o) with
  | Raised e => (<[self := filtered_receiver s o]> σ, Raised e)
  | Returned _ =>
      bind (if c then copy_object self else ret self)
        (merge_into (Nat.eqb (length (externalResources s)) 0) self other)
        (<[self := merged_receiver s o]> σ)
  end.
Proof.
  intros Hs Ho Hm Hf. unfold merge.
  erewrite bind_Returned; [|by apply get_Some].
  erewrite bind_Returned; [|by apply get_Some].
  rewrite Hm. cbv zeta.
  assert (negb (Nat.eqb (length (externalResources s)) 0)
          && negb (Filters_testCompatibility (filters s) (filters o)) = false)
    as ->.
  { unfold filters_pass in Hf. apply orb_true_iff in Hf as [->| ->];
      [done|apply andb_false_r]. }
  erewrite bind_Returned; [|by apply modify_Some].
  erewrite bind_Returned; [|apply modify_Some, lookup_insert_eq].
  rewrite insert_insert_eq. fold (filtered_receiver s o).
  erewrite bind_Returned; [|apply get_Some, lookup_insert_eq].
  assert (exists o1, <[self := filtered_receiver s o]> σ !! other = Some o1 /\
                     objMetadata o1 = objMetadata o) as (o1 & Ho1 & Hom).
  { destruct (decide (self = other)) as [->|Hne].
    - eexists. split; [apply lookup_insert_eq|]. by simplify_eq.
    - exists o. by rewrite lookup_insert_ne. }
  erewrite bind_Returned; [|by apply get_Some]. rewrite Hom.
  destruct (_checkObjMetadata (objMetadata o) (filtered_receiver s o)) eqn:Hchk.
  - erewrite bind_Returned; [|reflexivity].
    erewrite bind_Returned; [|apply modify_Some, lookup_insert_eq].
    rewrite insert_insert_eq. done.
  - erewrite bind_Raised; [|reflexivity]. done.
Qed.

(** When [merge] copies and the checks pass, it returns a new object; the
    receiver is left with the merged filters and object metadata, and the
    resources of [other] are merged into the new object. *)
Lemma merge_copy_success self other σ s o :
  σ !! self = Some s -> σ !! other = Some o ->
  mergeable (className s) (className o) = true ->
  filters_pass s o = true ->
  _checkObjMetadata (objMetadata o) (filtered_receiver s o) = Returned tt ->
  exists σ' r res,
    merge self other true σ = (σ', Returned (Some r)) /\
    σ !! r = None /\
    σ' !! self = Some (merged_receiver s o) /\
    (self <> other -> σ' !! other = Some o) /\
    σ' !! r = Some res /\
    filters res = Filters_merge (filters s) (filters o) /\
    externalResources res
    = ExternalResources_merge (externalResources s) (externalResources o).
Proof.
  intros Hs Ho Hm Hf Hchk.
  rewrite (merge_unfold _ _ _ _ _ _ Hs Ho Hm Hf), Hchk.
  set (σ1 := <[self := merged_receiver s o]> σ).
  pose proof (fresh_unused σ1) as Hfresh. set (r := fresh (dom σ1)) in *.
  assert (σ1 !! self = Some (merged_receiver s o)) as Hs1
    by apply lookup_insert_eq.
  assert (r <> self) as Hrs by (intros ->; congruence).
  assert (exists o1, σ1 !! other = Some o1 /\
            externalResources o1 = externalResources o /\
            (self <> other -> o1 = o)) as (o1 & Ho1 & Hres1 & Hsame).
  { destruct (decide (self = other)) as [->|Hne].
    - eexists. split; [exact Hs1|]. by simplify_eq.
    - exists o. unfold σ1. by rewrite lookup_insert_ne. }
  assert (r <> other) as Hro by (intros ->; congruence).
  set (σ2 := <[r := copy (merged_receiver s o)]> σ1).
  destruct (merge_into_spec (Nat.eqb (length (externalResources s)) 0)
              self other r σ2 (merged_receiver s o) o1
              (copy (merged_receiver s o)))
    as (σ' & res & Hrun & Hother & Hres & _ & _ & Hfil & _ & Hext).
  { unfold σ2. by rewrite lookup_insert_ne. }
  { unfold σ2. by rewrite lookup_insert_ne. }
  { apply lookup_insert_eq. }
  exists σ', r, res. split.
  { erewrite bind_Returned; [exact Hrun|].
    unfold copy_object. erewrite bind_Returned; [|by apply get_Some].
    reflexivity. }
  split.
  { unfold σ1 in Hfresh. by rewrite lookup_insert_ne in Hfresh. }
  split.
  { rewrite Hother; [|done|]; unfold σ2; rewrite lookup_insert_ne by done;
      [done|by eexists]. }
  split.
  { intros Hne. rewrite Hother; [|done|]; unfold σ2;
      rewrite lookup_insert_ne by done; [|by eexists].
    rewrite Ho1. f_equal. by apply Hsame. }
  split; [done|]. split; [by rewrite Hfil|]. by rewrite Hext, Hres1.
Qed.

(** When [merge] does not copy and the checks pass, it returns the
    receiver. *)
Lemma merge_inplace_success self other σ s o :
  σ !! self = Some s -> σ !! other = Some o ->
  mergeable (className s) (className o) = true ->
  filters_pass s o = true ->
  _checkObjMetadata (objMetadata o) (filtered_receiver s o) = Returned tt ->
  exists σ', merge self other false σ = (σ', Returned (Some self)).
Proof.
  intros Hs Ho Hm Hf Hchk.
  rewrite (merge_unfold _ _ _ _ _ _ Hs Ho Hm Hf), Hchk.
  set (σ1 := <[self := merged_receiver s o]> σ).
  assert (σ1 !! self = Some (merged_receiver s o)) as Hs1
    by apply lookup_insert_eq.
  assert (exists o1, σ1 !! other = Some o1) as (o1 & Ho1).
  { destruct (decide (self = other)) as [->|Hne]; [by eexists|].
    exists o. unfold σ1. by rewrite lookup_insert_ne. }
  destruct (merge_into_spec (Nat.eqb (length (externalResources s)) 0)
              self other self σ1 _ o1 _ Hs1 Ho1 Hs1)
    as (σ' & res & Hrun & _).
  exists σ'. erewrite bind_Returned; [exact Hrun|reflexivity].
Qed.

Lemma merge_success self other c σ s o :
  σ !! self = Some s -> σ !! other = Some o ->
  mergeable (className s) (className o) = true ->
  filters_pass s o = true ->
  _checkObjMetadata (objMetadata o) (filtered_receiver s o) = Returned tt ->
  exists σ' r, merge self other c σ = (σ', Returned (Some r)).
Proof.
  intros Hs Ho Hm Hf Hchk. destruct c.
  - destruct (merge_copy_success _ _ _ _ _ Hs Ho Hm Hf Hchk)
      as (σ' & r & _ & Hrun & _). by exists σ', r.
  - destruct (merge_inplace_success _ _ _ _ _ Hs Ho Hm Hf Hchk) as (σ' & Hrun).
    by exists σ', self.
Qed.

Lemma checkObjMetadata_unit (m : gmap string string) (d : DataSet) (u : unit) :
  _checkObjMetadata m d = Returned u -> _checkObjMetadata m d = Returned tt.
Proof. by destruct u. Qed.

(** C2, as the code has it: past the type and filter checks, the version
    check raises ValueError (after the filters of the receiver have been
    merged) exactly when the receiver declares a non-empty Version and the
    incoming Version is greater; an incoming Version that is lower or
    equal, or missing, or a receiver without Version, does not block the
    merge, which returns a dataset. *)
Theorem merge_version_check self other c σ s o :
  σ !! self = Some s -> σ !! other = Some o ->
  mergeable (className s) (className o) = true ->
  filters_pass s o = true ->
  (forall vs vo,
     objMetadata s !! "Version" = Some vs -> vs <> "" ->
     objMetadata o !! "Version" = Some vo -> String.ltb vs vo = true ->
     merge self other c σ
     = (<[self := filtered_receiver s o]> σ, Raised ValueError)) /\
  (forall vs vo,
     objMetadata s !! "Version" = Some vs ->
     objMetadata o !! "Version" = Some vo -> String.ltb vs vo = false ->
     exists σ' r, merge self other c σ = (σ', Returned (Some r))) /\
  (objMetadata s !! "Version" = None \/ objMetadata s !! "Version" = Some ""
   \/ objMetadata o !! "Version" = None ->
   exists σ' r, merge self other c σ = (σ', Returned (Some r))).
Proof.
  intros Hs Ho Hm Hf.
  assert (_checkObjMetadata (objMetadata o) (filtered_receiver s o)
          = (if py_truthy (objMetadata s !! "Version") then
               if py_gt (objMetadata o !! "Version")
                    (objMetadata s !! "Version")
               then Raised ValueError else Returned tt
             else Returned tt)) as Hchk by reflexivity.
  split; [|split].
  - intros vs vo Hvs Hne Hvo Hlt.
    rewrite (merge_unfold _ _ _ _ _ _ Hs Ho Hm Hf), Hchk, Hvs, Hvo. simpl.
    rewrite Hlt. destruct (String.eqb_spec vs ""); [done|]. done.
  - intros vs vo Hvs Hvo Hlt.
    apply (merge_success _ _ _ _ _ _ Hs Ho Hm Hf).
    rewrite Hchk, Hvs, Hvo. simpl. rewrite Hlt. by destruct (negb _).
  - intros Hcase. apply (merge_success _ _ _ _ _ _ Hs Ho Hm Hf).
    rewrite Hchk. destruct Hcase as [-> | [-> | ->]]; simpl; try done.
    destruct (objMetadata s !! "Version") as [vs|]; simpl; [|done].
    by destruct (negb _).
Qed.

(** C3, as the code has it: for mergeable classes, when the receiver has
    external resources and its filters are incompatible with the incoming
    ones, [merge] (and [+]) returns None, raises nothing and changes
    nothing; when the receiver has no external resources, the filter check
    does not block the merge, whatever the incoming dataset holds. *)
Theorem merge_filter_block self other c σ s o :
  σ !! self = Some s -> σ !! other = Some o ->
  mergeable (className s) (className o) = true ->
  (externalResources s <> [] ->
   Filters_testCompatibility (filters s) (filters o) = false ->
   merge self other c σ = (σ, Returned None) /\
   __add__ self other σ = (σ, Returned None)) /\
  (externalResources s = [] ->
   (merge self other c σ).2 <> Returned None).
Proof.
  intros Hs Ho Hm. split.
  - intros Hres Hcompat.
    assert (filters_pass s o = false) as Hf.
    { unfold filters_pass. rewrite Hcompat.
      destruct (externalResources s); [done|reflexivity]. }
    split; [|unfold __add__]; by apply (merge_blocked _ _ _ _ s o).
  - intros Hres.
    assert (filters_pass s o = true) as Hf.
    { unfold filters_pass. by rewrite Hres. }
    destruct (_checkObjMetadata (objMetadata o) (filtered_receiver s o))
      as [u|e] eqn:Hchk.
    + apply checkObjMetadata_unit in Hchk.
      destruct (merge_success _ _ c _ _ _ Hs Ho Hm Hf Hchk) as (σ' & r & ->).
      done.
    + rewrite (merge_unfold _ _ _ _ _ _ Hs Ho Hm Hf), Hchk. done.
Qed.

(** C10: a merge that copies (hence [+]) returns a new object and yet
    changes the receiver: its filters are merged with the incoming ones,
    its object metadata are overwritten by the incoming entries and its
    caches are cleared, while its external resources, subdatasets and
    content metadata stay as they were; the incoming resources are merged
    into the new object only, and the incoming dataset is not changed. *)
Theorem merge_copy_mutates_receiver self other σ σ' r s o :
  σ !! self = Some s -> σ !! other = Some o ->
  merge self other true σ = (σ', Returned (Some r)) ->
  __add__ self other σ = (σ', Returned (Some r)) /\
  σ !! r = None /\
  exists s' res,
    σ' !! self = Some s' /\ σ' !! r = Some res /\
    filters s' = Filters_merge (filters s) (filters o) /\
    objMetadata s' = objMetadata o ∪ objMetadata s /\
    caches_cleared s' /\
    externalResources s' = externalResources s /\
    subdatasets s' = subdatasets s /\
    metadata s' = metadata s /\
    externalResources res
    = ExternalResources_merge (externalResources s) (externalResources o) /\
    (self <> other -> σ' !! other = Some o).
Proof.
  intros Hs Ho Hrun. split; [exact Hrun|].
  destruct (mergeable (className s) (className o)) eqn:Hm; cycle 1.
  { rewrite (merge_not_mergeable _ _ _ _ _ _ Hs Ho Hm) in Hrun. done. }
  destruct (filters_pass s o) eqn:Hf; cycle 1.
  { rewrite (merge_blocked _ _ _ _ _ _ Hs Ho Hm Hf) in Hrun. done. }
  destruct (_checkObjMetadata (objMetadata o) (filtered_receiver s o))
    as [u|e] eqn:Hchk; cycle 1.
  { rewrite (merge_unfold _ _ _ _ _ _ Hs Ho Hm Hf), Hchk in Hrun. done. }
  apply checkObjMetadata_unit in Hchk.
  destruct (merge_copy_success _ _ _ _ _ Hs Ho Hm Hf Hchk)
    as (σ2 & r2 & res & Hrun2 & Hnew & Hself & Hother & Hres & Hfil & Hext).
  rewrite Hrun in Hrun2. simplify_eq.
  split; [done|]. exists (merged_receiver s o), res.
  by repeat split.
Qed.
End MergeMethodFacts.

(** A lower incoming Version is merged, and a higher one raises ValueError:
    neither returns None. *)
Lemma version_check_sample :
  (@merge sample_collaborators 0 1 true store_lower_incoming).2
  = Returned (Some 2%nat) /\
  (@merge sample_collaborators 0 1 true store_higher_incoming).2
  = Raised ValueError.
Proof. split; vm_compute; reflexivity. Qed.

(** The incoming dataset has no external resource, and the filter check
    blocks the merge all the same. *)
Lemma filter_block_empty_incoming_sample :
  externalResources (fresh_dataset AlignmentSet ∅ [] rname_filter) = [] /\
  @merge sample_collaborators 0 1 true store_empty_incoming
  = (store_empty_incoming, Returned None).
Proof. split; [reflexivity|]. vm_compute. reflexivity. Qed.

Lemma merge_version_check_witness :
  (forall vs vo,
     objMetadata (with_version "3.0.0" [] []) !! "Version" = Some vs ->
     vs <> "" ->
     objMetadata (with_version "3.0.1" [] []) !! "Version" = Some vo ->
     String.ltb vs vo = true ->
     @merge sample_collaborators 0 1 true store_higher_incoming
     = (<[0%nat := @filtered_receiver sample_collaborators
                     (with_version "3.0.0" [] []) (with_version "3.0.1" [] [])]>
          store_higher_incoming, Raised ValueError)) /\
  (forall vs vo,
     objMetadata (with_version "3.0.0" [] []) !! "Version" = Some vs ->
     objMetadata (with_version "3.0.1" [] []) !! "Version" = Some vo ->
     String.ltb vs vo = false ->
     exists σ' r, @merge sample_collaborators 0 1 true store_higher_incoming
                  = (σ', Returned (Some r))) /\
  (objMetadata (with_version "3.0.0" [] []) !! "Version" = None
   \/ objMetadata (with_version "3.0.0" [] []) !! "Version" = Some ""
   \/ objMetadata (with_version "3.0.1" [] []) !! "Version" = None ->
   exists σ' r, @merge sample_collaborators 0 1 true store_higher_incoming
                = (σ', Returned (Some r))).
Proof.
  apply (@merge_version_check sample_collaborators 0%nat 1%nat true
           store_higher_incoming); reflexivity.
Defined.

Lemma merge_filter_block_witness :
  (externalResources (fresh_dataset AlignmentSet ∅ [bam1] []) <> [] ->
   @Filters_testCompatibility sample_collaborators
     (filters (fresh_dataset AlignmentSet ∅ [bam1] []))
     (filters (fresh_dataset AlignmentSet ∅ [bam2] rname_filter)) = false ->
   @merge sample_collaborators 0 1 true store_both_resources
   = (store_both_resources, Returned None) /\
   @__add__ sample_collaborators 0 1 store_both_resources
   = (store_both_resources, Returned None)) /\
  (externalResources (fresh_dataset AlignmentSet ∅ [bam1] []) = [] ->
   (@merge sample_collaborators 0 1 true store_both_resources).2
   <> Returned None).
Proof.
  apply (@merge_filter_block sample_collaborators 0%nat 1%nat true
           store_both_resources); reflexivity.
Defined.

Lemma merge_copy_mutates_receiver_witness :
  exists σ',
    @merge sample_collaborators 0 1 true store_compatible
    = (σ', Returned (Some 2%nat)) /\
    store_compatible !! 2%nat = None /\
    exists s' res,
      σ' !! 0%nat = Some s' /\ σ' !! 2%nat = Some res /\
      objMetadata s' !! "Name" = Some "right" /\
      externalResources s' = [bam1] /\
      externalResources res = [bam1; bam2].
Proof.
  eexists. split; [vm_compute; reflexivity|].
  destruct (@merge_copy_mutates_receiver sample_collaborators 0%nat 1%nat
              store_compatible _ 2%nat _ _ eq_refl eq_refl eq_refl)
    as (_ & Hnew & s' & res & Hs' & Hres & _ & Hom & _ & Hext & _ & _ & Hrext & _).
  split; [exact Hnew|]. exists s', res.
  split; [exact Hs'|]. split; [exact Hres|].
  split; [rewrite Hom; reflexivity|]. split; [exact Hext|exact Hrext].
Defined.

End MergeFacts.


Module IterationFacts.
Import Py DataSetModel Iteration Samples.

Lemma lookup_fmap_seq {A} (f : nat -> A) (n k : nat) :
  (k < n)%nat -> (f <$> seq 0 n) !! k = Some (f k).
Proof. intros Hk. rewrite list_lookup_fmap, lookup_seq_lt by done. done. Qed.

Lemma insert_fmap_seq {A} (f g : nat -> A) (n k : nat) :
  (forall j, j <> k -> g j = f j) ->
  <[k := g k]> (f <$> seq 0 n) = g <$> seq 0 n.
Proof.
  intros Hfg. apply list_eq. intros j.
  destruct (decide (j < n)%nat) as [Hj|Hj].
  - rewrite (lookup_fmap_seq g) by done.
    destruct (decide (k = j)) as [->|Hne].
    + rewrite list_lookup_insert_eq; [done|]. by rewrite length_fmap, length_seq.
    + rewrite list_lookup_insert_ne by done.
      rewrite lookup_fmap_seq by done. f_equal. symmetry. by apply Hfg.
  - rewrite !lookup_ge_None_2; [done| |];
      rewrite ?length_insert, length_fmap, length_seq; lia.
Qed.

Lemma gen_then_nil {A} (l : list A) (k : gen A) :
  gen_then (l, None) k = (l ++ k.1, k.2).
Proof. reflexivity. Qed.

Lemma served_reader readers p :
  served readers p ->
  exists rr, readers !! p.1.1 = Some rr /\ atRowNumber rr p.1.2 = Some p.2.
Proof.
  unfold served, fetch. destruct (readers !! p.1.1) as [rr|]; [|done].
  simpl. intros Hrow. by exists rr.
Qed.

Lemma getRecords_single_served readers (P : list ((nat * nat) * BamAlignment)) :
  Forall (served readers) P ->
  getRecords_single readers P.*1 = (P.*2, None).
Proof.
  induction 1 as [|p P Hp _ IH]; [done|].
  rewrite !fmap_cons. cbn [getRecords_single].
  unfold served in Hp. by rewrite Hp, IH.
Qed.

Lemma filter_reader_fmap (P : list ((nat * nat) * BamAlignment)) (k : nat) :
  filter (fun t => t.1 = k) P.*1 = (filter (fun p => p.1.1 = k) P).*1.
Proof.
  induction P as [|p P IH]; [done|].
  rewrite fmap_cons, !filter_cons, IH. by destruct (decide (p.1.1 = k)).
Qed.

Lemma rows_of_reader_served readers (P : list ((nat * nat) * BamAlignment))
    (k : nat) (rr : Reader) :
  readers !! k = Some rr -> Forall (served readers) P ->
  mapM (atRowNumber rr) (filter (fun t => t.1 = k) P.*1).*2
  = Some (filter (fun p => p.1.1 = k) P).*2.
Proof.
  intros Hrr HP. rewrite filter_reader_fmap. apply mapM_Some.
  induction HP as [|p P Hp _ IH]; [constructor|].
  rewrite filter_cons. destruct (decide (p.1.1 = k)) as [Hk|Hk]; [|done].
  rewrite !fmap_cons. constructor; [|done].
  destruct (served_reader _ _ Hp) as (rr' & Hrr' & Hrow).
  rewrite Hk, Hrr in Hrr'. by simplify_eq.
Qed.

Lemma fill_recCache_from readers (P : list ((nat * nat) * BamAlignment))
    (rs : list Reader) (off : nat) :
  (forall i rr, rs !! i = Some rr -> readers !! (off + i)%nat = Some rr) ->
  Forall (served readers) P ->
  fill_recCache rs
    ((fun k => (filter (fun t => t.1 = k) P.*1).*2) <$> seq off (length rs))
  = Some ((fun k => (filter (fun p => p.1.1 = k) P).*2)
            <$> seq off (length rs)).
Proof.
  intros Hrs HP. revert off Hrs.
  induction rs as [|rr rs IH]; intros off Hrs; [done|].
  cbn [length seq]. rewrite !fmap_cons.
  cbn [fill_recCache head tail default from_option]. unfold id.
  rewrite (rows_of_reader_served readers P off rr); [|by rewrite <- (Hrs 0%nat rr), Nat.add_0_r|done].
  simpl. rewrite (IH (S off)); [done|].
  intros i rr' Hi. rewrite <- (Hrs (S i) rr' Hi). f_equal. lia.
Qed.

Lemma fill_recCache_served readers (P : list ((nat * nat) * BamAlignment)) :
  Forall (served readers) P ->
  fill_recCache readers
    ((fun k => (filter (fun t => t.1 = k) P.*1).*2) <$> seq 0 (length readers))
  = Some ((fun k => (filter (fun p => p.1.1 = k) P).*2)
            <$> seq 0 (length readers)).
Proof. intros HP. by apply (fill_recCache_from readers P readers 0). Qed.

(** The records leave the cache in the order of the requests: after the
    requests [P1], the counter of a reader is the number of its requests in
    [P1]. *)
Lemma empty_recCache_served readers (P1 P2 : list ((nat * nat) * BamAlignment)) :
  Forall (served readers) (P1 ++ P2) ->
  empty_recCache
    ((fun k => (filter (fun p => p.1.1 = k) (P1 ++ P2)).*2)
       <$> seq 0 (length readers))
    ((fun k => length (filter (fun p => p.1.1 = k) P1))
       <$> seq 0 (length readers))
    (Some <$> P2.*1.*1)
  = (P2.*2, None).
Proof.
  revert P1. induction P2 as [|p P2 IH]; intros P1 HP; [done|].
  rewrite !fmap_cons. cbn [empty_recCache].
  assert (served readers p) as Hp.
  { rewrite Forall_app, Forall_cons in HP. tauto. }
  destruct (served_reader _ _ Hp) as (rr & Hrr & _).
  apply lookup_lt_Some in Hrr as Hk.
  rewrite !lookup_fmap_seq by done. cbn [mbind option_bind].
  assert ((filter (fun p0 : nat * nat * BamAlignment => p0.1.1 = p.1.1)
             (P1 ++ p :: P2)).*2
          !! length (filter (fun p0 : nat * nat * BamAlignment => p0.1.1 = p.1.1) P1)
          = Some p.2) as ->.
  { rewrite filter_app, filter_cons_True by done.
    rewrite fmap_app, fmap_cons.
    rewrite <- (length_fmap snd). by apply list_lookup_middle. }
  assert (<[p.1.1 := S (length (filter
                          (fun p0 : nat * nat * BamAlignment => p0.1.1 = p.1.1) P1))]>
            ((fun k => length (filter
                          (fun p0 : nat * nat * BamAlignment => p0.1.1 = k) P1))
               <$> seq 0 (length readers))
          = (fun k => length (filter
                          (fun p0 : nat * nat * BamAlignment => p0.1.1 = k)
                          (P1 ++ [p])))
              <$> seq 0 (length readers)) as ->.
  { rewrite <- (insert_fmap_seq
                  (fun k => length (filter
                     (fun p0 : nat * nat * BamAlignment => p0.1.1 = k) P1))
                  (fun k => length (filter
                     (fun p0 : nat * nat * BamAlignment => p0.1.1 = k)
                     (P1 ++ [p]))) _ p.1.1).
    - f_equal. rewrite filter_app, filter_cons_True, filter_nil by done.
      rewrite length_app. simpl. lia.
    - intros j Hj. rewrite filter_app, filter_cons_False, filter_nil by done.
      by rewrite app_nil_r. }
  rewrite gen_then_nil.
  replace (P1 ++ p :: P2) with ((P1 ++ [p]) ++ P2) in *
    by (by rewrite <- app_assoc).
  by rewrite (IH (P1 ++ [p]) HP).
Qed.

Lemma fmap_const_seq {A} (c : A) (off n : nat) :
  (fun _ => c) <$> seq off n = replicate n c.
Proof. revert off. induction n as [|n IH]; intros off; simpl; by f_equal. Qed.

Lemma cleanBuffs_buffers_of readers buffsize :
  cleanBuffs readers buffsize = buffers_of readers buffsize [].
Proof.
  unfold cleanBuffs, buffers_of. simpl. rewrite Nat.sub_0_r. f_equal.
  symmetry. apply (fmap_const_seq (@nil nat)).
Qed.

Lemma debuf_served readers buffsize (P : list ((nat * nat) * BamAlignment)) :
  Forall (served readers) P ->
  debuf readers (buffers_of readers buffsize P.*1) = (P.*2, None).
Proof.
  intros HP. unfold debuf, buffers_of. cbn [reqCache fromCache cacheFill].
  rewrite (fill_recCache_served readers P HP).
  rewrite take_app_length' by (by rewrite !length_fmap).
  rewrite <- (fmap_const_seq 0%nat 0).
  by apply (empty_recCache_served readers [] P).
Qed.

(** The buffers after one more request. *)
Lemma buffers_of_snoc readers buffsize (pending : list (nat * nat))
    (t : nat * nat) :
  (t.1 < length readers)%nat -> (length pending < Z.to_nat buffsize)%nat ->
  mkBuffers
    (<[t.1 := (filter (fun u => u.1 = t.1) pending).*2 ++ [t.2]]>
       (reqCache (buffers_of readers buffsize pending)))
    (<[length pending := Some t.1]>
       (fromCache (buffers_of readers buffsize pending)))
    (S (length pending))
  = buffers_of readers buffsize (pending ++ [t]).
Proof.
  intros Ht Hlen. unfold buffers_of. cbn [reqCache fromCache]. f_equal.
  - rewrite <- (insert_fmap_seq
                  (fun k => (filter (fun u : nat * nat => u.1 = k) pending).*2)
                  (fun k => (filter (fun u : nat * nat => u.1 = k)
                               (pending ++ [t])).*2) _ t.1).
    + f_equal. rewrite filter_app, filter_cons_True, filter_nil by done.
      by rewrite fmap_app.
    + intros j Hj. rewrite filter_app, filter_cons_False, filter_nil by done.
      by rewrite app_nil_r.
  - rewrite insert_app_r_alt by (rewrite !length_fmap; lia).
    rewrite !length_fmap, Nat.sub_diag, length_app. simpl.
    destruct (Z.to_nat buffsize - length pending)%nat as [|m] eqn:Hm; [lia|].
    replace (Z.to_nat buffsize - (length pending + 1))%nat with m by lia.
    simpl. rewrite !fmap_app. simpl. by rewrite <- app_assoc.
  - rewrite length_app. simpl. lia.
Qed.

Lemma buffers_of_reqCache readers buffsize (pending : list (nat * nat)) k :
  (k < length readers)%nat ->
  reqCache (buffers_of readers buffsize pending) !! k
  = Some (filter (fun u => u.1 = k) pending).*2.
Proof.
  intros Hk. unfold buffers_of. cbn [reqCache].
  by apply (lookup_fmap_seq
              (fun k => (filter (fun u : nat * nat => u.1 = k) pending).*2)).
Qed.

Lemma buffers_of_fromCache_length readers buffsize (pending : list (nat * nat)) :
  (length pending <= Z.to_nat buffsize)%nat ->
  length (fromCache (buffers_of readers buffsize pending)) = Z.to_nat buffsize.
Proof.
  intros Hlen. unfold buffers_of. cbn [fromCache].
  rewrite length_app, !length_fmap, length_replicate. lia.
Qed.

Lemma getRecords_buffered_cons readers buffsize t rest b :
  getRecords_buffered readers buffsize (t :: rest) b
  = match reqCache b !! t.1 with
    | None => ([], Some IndexError)
    | Some q =>
        if (cacheFill b <? length (fromCache b))%nat then
          if buffsize <=? Z.of_nat (S (cacheFill b)) then
            gen_then
              (debuf readers
                 (mkBuffers (<[t.1 := q ++ [t.2]]> (reqCache b))
                    (<[cacheFill b := Some t.1]> (fromCache b))
                    (S (cacheFill b))))
              (getRecords_buffered readers buffsize rest
                 (cleanBuffs readers buffsize))
          else
            getRecords_buffered readers buffsize rest
              (mkBuffers (<[t.1 := q ++ [t.2]]> (reqCache b))
                 (<[cacheFill b := Some t.1]> (fromCache b))
                 (S (cacheFill b)))
        else ([], Some IndexError)
    end.
Proof. reflexivity. Qed.

Lemma getRecords_buffered_served readers buffsize
    (P Q : list ((nat * nat) * BamAlignment)) :
  1 <= buffsize -> Forall (served readers) (P ++ Q) ->
  (length P < Z.to_nat buffsize)%nat ->
  getRecords_buffered readers buffsize Q.*1
    (buffers_of readers buffsize P.*1)
  = ((P ++ Q).*2, None).
Proof.
  intros Hb. revert P. induction Q as [|q Q IH]; intros P HPQ Hlen.
  - rewrite app_nil_r in *.
    change (getRecords_buffered readers buffsize []
              (buffers_of readers buffsize P.*1))
      with (if (0 <? length P.*1)%nat
            then debuf readers (buffers_of readers buffsize P.*1)
            else ([], None)).
    destruct P as [|p P]; [done|].
    replace (0 <? length (p :: P).*1)%nat with true by done.
    by apply debuf_served.
  - rewrite fmap_cons, getRecords_buffered_cons.
    assert (served readers q) as Hq.
    { rewrite Forall_app, Forall_cons in HPQ. tauto. }
    destruct (served_reader _ _ Hq) as (rr & Hrr & _).
    apply lookup_lt_Some in Hrr as Hk.
    rewrite (buffers_of_reqCache _ _ _ _ Hk).
    rewrite buffers_of_fromCache_length by (rewrite length_fmap; lia).
    change (cacheFill (buffers_of readers buffsize P.*1)) with (length P.*1).
    assert ((length P.*1 <? Z.to_nat buffsize)%nat = true) as ->.
    { apply Nat.ltb_lt. by rewrite length_fmap. }
    rewrite (buffers_of_snoc readers buffsize P.*1 q.1 Hk)
      by (by rewrite length_fmap).
    replace (P.*1 ++ [q.1]) with ((P ++ [q]).*1) by (by rewrite fmap_app).
    replace (P ++ q :: Q) with ((P ++ [q]) ++ Q) in *
      by (by rewrite <- app_assoc).
    destruct (Z.leb_spec buffsize (Z.of_nat (S (length P.*1)))) as [Hfull|Hroom].
    + rewrite debuf_served; cycle 1.
      { rewrite Forall_app in HPQ. tauto. }
      rewrite cleanBuffs_buffers_of.
      change (@nil (nat * nat)) with ((@nil ((nat * nat) * BamAlignment)).*1).
      rewrite (IH []); [|rewrite Forall_app in HPQ; tauto|simpl; lia].
      rewrite gen_then_nil. cbn [fst snd app].
      by rewrite (fmap_app snd (P ++ [q]) Q).
    + apply IH; [done|]. rewrite length_app, length_fmap in *. simpl. lia.
Qed.

(** C9: when every requested (resource, row) position exists and
    [buffsize >= 1], [_getRecords] yields the records at those positions in
    the order requested and ends without raising; the buffered path yields
    the same sequence as the path that reads one record at a time. *)
Theorem getRecords_buffered_same (readers : list Reader)
    (indexList : list (nat * nat)) (buffsize : Z) :
  1 <= buffsize ->
  Forall (fun t => is_Some (fetch readers t)) indexList ->
  exists recs,
    mapM (fetch readers) indexList = Some recs /\
    _getRecords readers indexList buffsize = (recs, None) /\
    _getRecords readers indexList 1 = (recs, None).
Proof.
  intros Hb Hvalid.
  assert (exists P : list ((nat * nat) * BamAlignment),
            P.*1 = indexList /\ Forall (served readers) P) as (P & <- & HP).
  { induction Hvalid as [|t l [r Hr] _ (P & <- & HP)]; [by exists []|].
    exists ((t, r) :: P). split; [done|]. by constructor. }
  exists P.*2. split.
  { apply mapM_Some. clear Hb Hvalid.
    induction HP as [|p P Hp _ IH]; [constructor|].
    rewrite !fmap_cons. by constructor. }
  assert (_getRecords readers P.*1 1 = (P.*2, None)) as Hone.
  { unfold _getRecords. simpl. by apply getRecords_single_served. }
  split; [|done]. unfold _getRecords.
  destruct (Z.eqb_spec buffsize 1) as [->|Hne]; [exact Hone|].
  rewrite cleanBuffs_buffers_of.
  change (@nil (nat * nat)) with ((@nil ((nat * nat) * BamAlignment)).*1).
  rewrite (getRecords_buffered_served readers buffsize [] P); [done|done|done|].
  simpl. lia.
Qed.

(** *** The order of the indexed range query *)

Lemma insert_asc_perm {A} (key : A -> Z) x l : insert_asc key x l ≡ₚ x :: l.
Proof.
  induction l as [|y l IH]; simpl; [done|].
  destruct (key y <? key x); [|done].
  rewrite IH. apply perm_swap.
Qed.

Lemma sorted_stable_perm {A} (key : A -> Z) l : sorted_stable key l ≡ₚ l.
Proof.
  induction l as [|x l IH]; simpl; [done|].
  by rewrite insert_asc_perm, IH.
Qed.

Lemma insert_asc_key_then_position (x : nat * Z) (l : list (nat * Z)) :
  Sorted key_then_position l -> Forall (fun y => (x.1 < y.1)%nat) l ->
  Sorted key_then_position (insert_asc snd x l).
Proof.
  induction 1 as [|y l Hl IH Hy]; intros Hx; simpl; [by repeat constructor|].
  apply Forall_cons in Hx as [Hxy Hx].
  destruct (Z.ltb_spec y.2 x.2) as [Hlt|Hge].
  - constructor; [by apply IH|].
    destruct Hy as [|z l Hz]; simpl.
    + constructor. by left.
    + destruct (Z.ltb_spec z.2 x.2); constructor; [done|by left].
  - constructor; [by constructor|]. constructor.
    unfold key_then_position. lia.
Qed.

Lemma sorted_stable_key_then_position (l : list (nat * Z)) :
  StronglySorted (fun a b => (a.1 < b.1)%nat) l ->
  Sorted key_then_position (sorted_stable snd l).
Proof.
  induction 1 as [|x l Hl IH Hx]; simpl; [constructor|].
  apply insert_asc_key_then_position; [done|].
  by rewrite sorted_stable_perm.
Qed.

Lemma zip_seq_strongly_sorted (keys : list Z) (off : nat) :
  StronglySorted (fun a b : nat * Z => (a.1 < b.1)%nat)
    (zip (seq off (length keys)) keys).
Proof.
  revert off. induction keys as [|k keys IH]; intros off; simpl; [constructor|].
  constructor; [apply IH|].
  apply Forall_forall. intros [i k'] Hin. simpl.
  apply (list_elem_of_fmap_2 fst) in Hin. simpl in Hin.
  rewrite fst_zip in Hin by (rewrite length_seq; lia).
  apply elem_of_seq in Hin. lia.
Qed.

Lemma zip_seq_lookup (keys : list Z) (off i : nat) (k : Z) :
  (i, k) ∈ zip (seq off (length keys)) keys ->
  (off <= i)%nat /\ keys !! (i - off)%nat = Some k.
Proof.
  revert off. induction keys as [|k0 keys IH]; intros off; simpl.
  - intros Hin. by apply elem_of_nil in Hin.
  - intros Hin. apply elem_of_cons in Hin as [[= -> ->]|Hin].
    + split; [lia|]. by rewrite Nat.sub_diag.
    + destruct (IH _ Hin) as [Hle Hk]. split; [lia|].
      replace (i - off)%nat with (S (i - S off)) by lia. done.
Qed.

Lemma keys_along_pairs (keys : list Z) (l : list (nat * Z)) :
  Forall (fun p => keys !! p.1 = Some p.2) l ->
  omap (fun i => keys !! i) l.*1 = l.*2.
Proof.
  induction 1 as [|p l Hp _ IH]; [done|].
  rewrite !fmap_cons. cbn [omap list_omap]. rewrite Hp. simpl. by f_equal.
Qed.

Lemma pairs_along_pairs (keys : list Z) (l : list (nat * Z)) :
  Forall (fun p => keys !! p.1 = Some p.2) l ->
  omap (fun i => pair i <$> keys !! i) l.*1 = l.
Proof.
  induction 1 as [|[i k] l Hp _ IH]; [done|].
  rewrite !fmap_cons. cbn [omap list_omap]. simpl in *. rewrite Hp. simpl.
  by f_equal.
Qed.

Lemma sorted_key_then_position_keys (l : list (nat * Z)) :
  Sorted key_then_position l -> Sorted Z.le l.*2.
Proof.
  induction 1 as [|x l Hl IH Hx]; [constructor|].
  rewrite fmap_cons. constructor; [done|].
  destruct Hx as [|y l Hxy]; [constructor|].
  rewrite fmap_cons. constructor. unfold key_then_position in Hxy. lia.
Qed.

Lemma argsort_mergesort_pairs (keys : list Z) :
  Forall (fun p => keys !! p.1 = Some p.2)
    (sorted_stable snd (zip (seq 0 (length keys)) keys)).
Proof.
  rewrite sorted_stable_perm. apply Forall_forall. intros [i k] Hin.
  apply zip_seq_lookup in Hin as [_ Hk]. by rewrite Nat.sub_0_r in Hk.
Qed.

(** The stable sort orders the positions by key, and by position among
    equal keys. *)
Lemma argsort_mergesort_stable (keys : list Z) :
  Sorted key_then_position
    (omap (fun i => pair i <$> keys !! i) (argsort_mergesort keys)).
Proof.
  unfold argsort_mergesort.
  rewrite (pairs_along_pairs keys) by apply argsort_mergesort_pairs.
  apply sorted_stable_key_then_position, zip_seq_strongly_sorted.
Qed.

Lemma argsort_mergesort_is_argsort (keys : list Z) :
  is_argsort keys (argsort_mergesort keys).
Proof.
  unfold is_argsort, argsort_mergesort. split.
  - rewrite sorted_stable_perm, fst_zip; [done|]. by rewrite length_seq.
  - rewrite (keys_along_pairs keys) by apply argsort_mergesort_pairs.
    apply sorted_key_then_position_keys.
    apply sorted_stable_key_then_position, zip_seq_strongly_sorted.
Qed.

Lemma omap_lookup_fmap {A B} (f : A -> B) (l : list A) (order : list nat) :
  omap (fun i => f <$> l !! i) order = f <$> omap (fun i => l !! i) order.
Proof.
  induction order as [|i order IH]; [done|].
  cbn [omap list_omap]. rewrite IH. by destruct (l !! i).
Qed.

Lemma Sorted_fmap_transfer {A} (R R' : Z -> Z -> Prop) (f g : A -> Z)
    (l : list A) :
  (forall a b, R (f a) (f b) -> R' (g a) (g b)) ->
  Sorted R (f <$> l) -> Sorted R' (g <$> l).
Proof.
  intros HR. induction l as [|a l IH]; [constructor|].
  rewrite !fmap_cons. intros Hs. apply Sorted_inv in Hs as [Hs Hhd].
  constructor; [by apply IH|].
  destruct l as [|b l]; [constructor|].
  rewrite fmap_cons in *. apply HdRel_inv in Hhd. constructor. by apply HR.
Qed.

Lemma mask_select_length {A B} (mask : list bool) (a : list A) (b : list B) :
  length a = length b ->
  length (mask_select mask a) = length (mask_select mask b).
Proof.
  revert a b. induction mask as [|[|] mask IH]; intros [|x a] [|y b] Hlen;
    simplify_eq/=; auto.
Qed.

(** The fewer positions of the window a read leaves uncovered, the longer
    it is in the window. *)
Lemma reversed_key_le start end_ a b :
  reversed_key start end_ a <= reversed_key start end_ b <->
  lengthInWindow start end_ b <= lengthInWindow start end_ a.
Proof. unfold reversed_key. lia. Qed.

Lemma longest_sort_kind_quick (lens : list Z) (sampleSize : Z) :
  longest_sort_kind lens sampleSize = Quicksort <->
  sampleSize <> 0 /\ sampleSize < count_min lens.
Proof.
  unfold longest_sort_kind.
  destruct (Z.eqb_spec sampleSize 0) as [->|Hne]; simpl.
  - split; [done|]. by intros [? _].
  - destruct (Z.ltb_spec sampleSize (count_min lens)); split; try done.
    + intros [_ ?]. lia.
Qed.

Lemma getRecords_single_mapM (readers : list Reader)
    (indexList : list (nat * nat)) (recs : list BamAlignment) :
  mapM (fetch readers) indexList = Some recs ->
  getRecords_single readers indexList = (recs, None).
Proof.
  rewrite mapM_Some. induction 1 as [|t r l recs Ht _ IH]; [done|].
  simpl. by rewrite Ht, IH.
Qed.

Section IndexedFacts.
Variable argsort_default : list Z -> list nat.
Hypothesis argsort_default_sorts :
  forall keys, is_argsort keys (argsort_default keys).

Lemma argsort_is_argsort (kind : SortKind) (keys : list Z) :
  is_argsort keys (argsort argsort_default kind keys).
Proof.
  destruct kind; [apply argsort_default_sorts|apply argsort_mergesort_is_argsort].
Qed.

(** C8, as the code has it: with [longest=True] the reads of the window are
    requested in nonincreasing order of their length clipped to the window,
    each exactly once, and, the rows requested being rows of the readers,
    they are yielded in that order; the sort is the unstable one exactly
    when [sampleSize] is not 0 and more than [sampleSize] reads have the
    least sort key (the greatest clipped length); otherwise it is the stable
    one, which leaves reads of equal clipped length in the order of the
    index. *)
Theorem pbi_longest_order (index : list IndexRow) (indexMap : list (nat * nat))
    (desiredTid start end_ sampleSize : Z) (nFiles : nat) :
  length indexMap = length index ->
  let passes := in_window desiredTid start end_ <$> index in
  let hits := mask_select passes index in
  let lens := reversed_key start end_ <$> hits in
  let kind := longest_sort_kind lens sampleSize in
  let order := argsort argsort_default kind lens in
  order ≡ₚ seq 0 (length hits) /\
  Sorted Z.ge (omap (fun i => lengthInWindow start end_ <$> hits !! i) order) /\
  (exists requests,
     pbi_requests argsort_default index indexMap desiredTid start end_ true
       sampleSize nFiles = Some requests /\
     Forall2 (fun i t => mask_select passes indexMap !! i = Some t)
       order requests /\
     forall readers refNames refIds refName recs,
       refName ∈ refNames -> refIds !! refName = Some desiredTid ->
       mapM (fetch readers) requests = Some recs ->
       _pbiReadsInRange argsort_default readers refNames refIds index
         indexMap nFiles refName start end_ true sampleSize
       = (recs, None)) /\
  (kind = Quicksort <-> sampleSize <> 0 /\ sampleSize < count_min lens) /\
  (kind = Mergesort ->
   Sorted key_then_position (omap (fun i => pair i <$> lens !! i) order)).
Proof.
  intros Hlen passes hits lens kind order.
  destruct (argsort_is_argsort kind lens) as [Hperm Hsorted].
  fold order in Hperm, Hsorted.
  assert (length lens = length hits) as Hll by apply length_fmap.
  rewrite Hll in Hperm.
  split; [done|]. split; [|split; [|split]].
  - unfold lens in Hsorted.
    assert (omap (fun i => (reversed_key start end_ <$> hits) !! i) order
            = omap (fun i => reversed_key start end_ <$> hits !! i) order)
      as Heq.
    { clear. induction order as [|i order IH]; [done|].
      cbn [omap list_omap]. by rewrite IH, list_lookup_fmap. }
    rewrite Heq, omap_lookup_fmap in Hsorted. rewrite omap_lookup_fmap.
    revert Hsorted. apply Sorted_fmap_transfer.
    intros a b Hab. apply reversed_key_le in Hab. lia.
  - assert (exists requests,
              pbi_requests argsort_default index indexMap desiredTid start
                end_ true sampleSize nFiles = Some requests /\
              Forall2 (fun i t => mask_select passes indexMap !! i = Some t)
                order requests) as (requests & Hreq & Hall).
    { unfold pbi_requests, pbi_sort_order. fold passes hits lens kind order.
      unfold take_positions.
      assert (Forall (fun i => is_Some (mask_select passes indexMap !! i)) order)
        as Hvalid.
      { apply Forall_forall. intros i Hi. rewrite Hperm in Hi.
        apply elem_of_seq in Hi. apply lookup_lt_is_Some.
        rewrite (mask_select_length passes indexMap index Hlen). fold hits. lia. }
      destruct (mapM (fun i => mask_select passes indexMap !! i) order)
        as [reqs|] eqn:Hm.
      + exists reqs. split; [done|]. by apply mapM_Some.
      + exfalso. apply mapM_None in Hm. rewrite Exists_exists in Hm.
        destruct Hm as (i & Hi & Hnone). rewrite Forall_forall in Hvalid.
        destruct (Hvalid i Hi) as [t Ht]. congruence. }
    exists requests. split; [done|]. split; [done|].
    intros readers refNames refIds refName recs Hname Hid Hrecs.
    unfold _pbiReadsInRange. rewrite bool_decide_true by done.
    rewrite Hid, Hreq. unfold _getRecords. simpl.
    by apply getRecords_single_mapM.
  - apply longest_sort_kind_quick.
  - intros Hk. unfold order. rewrite Hk. apply argsort_mergesort_stable.
Qed.
End IndexedFacts.


(** *** The merge of the range query without index *)

Lemma foldl_min_le (l : list Z) (x : Z) :
  foldl Z.min x l <= x /\ Forall (fun y => foldl Z.min x l <= y) l.
Proof.
  revert x. induction l as [|y l IH]; intros x; simpl; [split; [lia|constructor]|].
  destruct (IH (Z.min x y)) as [Hle Hall]. split; [lia|].
  constructor; [lia|done].
Qed.

Lemma foldl_min_elem (l : list Z) (x : Z) : foldl Z.min x l ∈ x :: l.
Proof.
  revert x. induction l as [|y l IH]; intros x; simpl; [apply list_elem_of_here|].
  specialize (IH (Z.min x y)). apply elem_of_cons in IH as [Heq|Hin].
  - rewrite Heq. destruct (Z.min_spec x y) as [[_ ->]|[_ ->]];
      [apply list_elem_of_here|apply list_elem_of_further, list_elem_of_here].
  - by do 2 apply list_elem_of_further.
Qed.

Lemma py_min_spec (l : list Z) (m : Z) :
  py_min l = Some m -> m ∈ l /\ Forall (fun y => m <= y) l.
Proof.
  destruct l as [|x l]; [done|]. intros [= <-]. split; [apply foldl_min_elem|].
  destruct (foldl_min_le l x). by constructor.
Qed.

Lemma py_min_is_Some (l : list Z) : l <> [] -> is_Some (py_min l).
Proof. destruct l; [done|]. by eexists. Qed.

Lemma py_index_spec (l : list Z) (x : Z) :
  x ∈ l -> exists i, py_index x l = Some i /\ l !! i = Some x.
Proof.
  induction l as [|y l IH]; intros Hin; [by apply elem_of_nil in Hin|].
  simpl. destruct (Z.eqb_spec y x) as [->|Hne]; [by exists 0%nat|].
  apply elem_of_cons in Hin as [->|Hin]; [done|].
  destruct (IH Hin) as (i & -> & Hi). by exists (S i).
Qed.

Lemma head_starts_lookup (streams : list (list BamAlignment)) :
  Forall (fun s => s <> []) streams ->
  forall i t, head_starts streams !! i = Some t <->
    exists r s, streams !! i = Some (r :: s) /\ t = tStart r.
Proof.
  induction 1 as [|[|r s] streams' Hs _ IH]; intros i t; [|done|].
  - split; [done|]. by intros (? & ? & ? & _).
  - unfold head_starts. cbn [omap list_omap head fmap option_fmap option_map].
    destruct i as [|i]; simpl.
    + split; [intros [= <-]; by exists r, s|by intros (? & ? & [= <- <-] & ->)].
    + apply IH.
Qed.

Lemma head_starts_nil (streams : list (list BamAlignment)) :
  Forall (fun s => s <> []) streams -> head_starts streams = [] -> streams = [].
Proof. intros [|[|r s] streams' Hs _]; done. Qed.

Lemma concat_delete (streams : list (list BamAlignment)) i r :
  streams !! i = Some [r] -> concat streams ≡ₚ r :: concat (delete i streams).
Proof.
  revert i. induction streams as [|s streams IH]; intros [|i] Hi; simplify_eq/=.
  - done.
  - rewrite (IH _ Hi). symmetry. apply Permutation_middle.
Qed.

Lemma concat_insert_tail (streams : list (list BamAlignment)) i r s :
  streams !! i = Some (r :: s) ->
  concat streams ≡ₚ r :: concat (<[i := s]> streams).
Proof.
  revert i. induction streams as [|s0 streams IH]; intros [|i] Hi;
    simplify_eq/=.
  - done.
  - rewrite (IH _ Hi). symmetry. apply Permutation_middle.
Qed.

(** One turn of the merge in the words of the claim: the read yielded is at
    the head of a stream, no head starts before it, and the streams keep
    every other read. *)
Lemma kway_step_spec (streams : list (list BamAlignment)) :
  Forall (fun s => s <> []) streams -> streams <> [] ->
  exists r streams',
    kway_step streams = Some (r, streams') /\
    Forall (fun s => s <> []) streams' /\
    concat streams ≡ₚ r :: concat streams' /\
    Forall (fun t => tStart r <= t) (head_starts streams) /\
    (Forall (Sorted by_start) streams -> Forall (Sorted by_start) streams').
Proof.
  intros Hne Hs. unfold kway_step.
  assert (head_starts streams <> []) as Hh.
  { intros Hnil. by apply Hs, head_starts_nil. }
  destruct (py_min_is_Some _ Hh) as [m Hm]. rewrite Hm. simpl.
  destruct (py_min_spec _ _ Hm) as [Hin Hleast].
  destruct (py_index_spec _ _ Hin) as (i & -> & Hi). simpl.
  apply (head_starts_lookup _ Hne) in Hi as (r & s & Hsi & ->).
  rewrite Hsi. simpl. destruct s as [|r' s].
  - exists r, (delete i streams). split; [done|]. repeat split; [| |done|].
    + by apply Forall_delete.
    + by apply concat_delete.
    + intros Hsorted. by apply Forall_delete.
  - exists r, (<[i := r' :: s]> streams). split; [done|]. repeat split; [| |done|].
    + apply Forall_insert; [done|done].
    + by apply concat_insert_tail.
    + intros Hsorted. apply Forall_insert; [done|].
      rewrite Forall_forall in Hsorted.
      assert (Sorted by_start (r :: r' :: s)) as Hrs
        by (apply Hsorted; by eapply list_elem_of_lookup_2).
      by apply Sorted_inv in Hrs as [? _].
Qed.

Lemma by_start_trans : Transitive by_start.
Proof. intros a b c. unfold by_start. lia. Qed.

Lemma sorted_head_least (s : list BamAlignment) (r : BamAlignment) :
  Sorted by_start (r :: s) -> Forall (fun x => tStart r <= tStart x) (r :: s).
Proof.
  intros Hs. apply (Sorted_StronglySorted by_start_trans) in Hs.
  apply StronglySorted_inv in Hs as [_ Hall].
  constructor; [lia|]. exact Hall.
Qed.

Lemma head_starts_bound (streams : list (list BamAlignment)) (m : Z) :
  Forall (Sorted by_start) streams ->
  Forall (fun t => m <= t) (head_starts streams) ->
  Forall (fun x => m <= tStart x) (concat streams).
Proof.
  induction 1 as [|s streams Hs _ IH]; intros Hm; [constructor|].
  simpl. destruct s as [|r s].
  - simpl. apply IH. exact Hm.
  - unfold head_starts in Hm. cbn [omap list_omap head fmap option_fmap option_map] in Hm.
    apply Forall_cons in Hm as [Hr Hm]. apply Forall_app. split; [|by apply IH].
    apply sorted_head_least in Hs. eapply Forall_impl; [exact Hs|].
    intros x Hx. simpl in Hx. lia.
Qed.

(** The merge in the words of the claim yields every read of the streams
    once, and in nondecreasing order of start when each stream is. *)
Lemma kway_merge_spec (fuel : nat) (streams : list (list BamAlignment)) :
  Forall (fun s => s <> []) streams ->
  (length (concat streams) <= fuel)%nat ->
  kway_merge fuel streams ≡ₚ concat streams /\
  (Forall (Sorted by_start) streams -> Sorted by_start (kway_merge fuel streams)).
Proof.
  revert streams. induction fuel as [|fuel IH]; intros streams Hne Hfuel.
  - destruct streams as [|[|r s] streams]; simpl in *; [|by inversion Hne|lia].
    split; [done|constructor].
  - destruct streams as [|s0 streams0] eqn:Hstreams.
    { split; [done|]. intros _. constructor. }
    rewrite <- Hstreams in *.
    destruct (kway_step_spec streams Hne) as
      (r & streams' & Hstep & Hne' & Hperm & Hleast & Hsorted');
      [by rewrite Hstreams|].
    cbn [kway_merge]. rewrite Hstep.
    assert (length (concat streams') <= fuel)%nat as Hfuel'.
    { apply Permutation_length in Hperm. simpl in Hperm. lia. }
    destruct (IH streams' Hne' Hfuel') as [Hp Hs]. split.
    + by rewrite Hp, Hperm.
    + intros Hsorted. constructor; [by apply Hs, Hsorted'|].
      assert (Forall (fun x => tStart r <= tStart x) (kway_merge fuel streams'))
        as Hall.
      { rewrite Hp.
        assert (Forall (fun x => tStart r <= tStart x) (concat streams)) as Hc
          by (by apply head_starts_bound).
        rewrite Hperm in Hc. by apply Forall_cons in Hc as [_ ?]. }
      destruct (kway_merge fuel streams') as [|y rest]; [constructor|].
      apply Forall_cons in Hall as [Hy _]. by constructor.
Qed.

(** **** The merge that buffers one read per reader *)

Lemma unbuffered_rel_head_starts its curs ts streams :
  unbuffered_rel its curs ts streams -> head_starts streams = ts.
Proof.
  induction 1 as [|it cur its curs ts streams _ IH]; [done|].
  unfold head_starts in *. cbn [omap list_omap head fmap option_fmap option_map].
  by rewrite IH.
Qed.

Lemma unbuffered_rel_nonempty its curs ts streams :
  unbuffered_rel its curs ts streams -> Forall (fun s => s <> []) streams.
Proof. induction 1; by constructor. Qed.

Lemma unbuffered_rel_lookup its curs ts streams i s :
  unbuffered_rel its curs ts streams -> streams !! i = Some s ->
  exists cur it, s = cur :: it /\ curs !! i = Some cur /\ its !! i = Some it.
Proof.
  intros Hrel. revert i.
  induction Hrel as [|it cur its curs ts streams _ IH]; intros [|i] Hi;
    simplify_eq/=; eauto.
Qed.

Lemma unbuffered_rel_delete its curs ts streams i :
  unbuffered_rel its curs ts streams ->
  unbuffered_rel (delete i its) (delete i curs) (delete i ts)
    (delete i streams).
Proof.
  intros Hrel. revert i.
  induction Hrel as [|it cur its curs ts streams Hrel IH]; intros [|i];
    simpl; try constructor; auto.
Qed.

Lemma unbuffered_rel_insert its curs ts streams i cur it :
  unbuffered_rel its curs ts streams ->
  unbuffered_rel (<[i := it]> its) (<[i := cur]> curs)
    (<[i := tStart cur]> ts) (<[i := cur :: it]> streams).
Proof.
  intros Hrel. revert i.
  induction Hrel as [|it0 cur0 its curs ts streams Hrel IH]; intros [|i];
    simpl; try constructor; auto.
Qed.

Lemma unbuffered_step_kway (st : Unbuffered) streams r streams' :
  unbuffered_rel (u_read_its st) (currents st) (u_tStarts st) streams ->
  kway_step streams = Some (r, streams') ->
  exists st', unbuffered_step st = Some (r, st') /\
    unbuffered_rel (u_read_its st') (currents st') (u_tStarts st') streams'.
Proof.
  intros Hrel. unfold kway_step, unbuffered_step.
  rewrite (unbuffered_rel_head_starts _ _ _ _ Hrel).
  destruct (py_min (u_tStarts st)) as [m|]; [|done]. simpl.
  destruct (py_index m (u_tStarts st)) as [i|]; [|done]. simpl.
  destruct (streams !! i) as [s|] eqn:Hs; [|done]. simpl.
  destruct (unbuffered_rel_lookup _ _ _ _ _ _ Hrel Hs)
    as (cur & it & -> & Hcur & Hit).
  rewrite Hcur, Hit. simpl. destruct it as [|c it'].
  - intros [= <- <-]. eexists. split; [done|]. simpl.
    by apply unbuffered_rel_delete.
  - intros [= <- <-]. eexists. split; [done|]. simpl.
    by apply unbuffered_rel_insert.
Qed.

Lemma unbuffered_rel_nil_iff its curs ts streams :
  unbuffered_rel its curs ts streams -> its = [] <-> streams = [].
Proof. by intros []. Qed.

Lemma kway_merge_nil (fuel : nat) : kway_merge fuel [] = [].
Proof. by destruct fuel. Qed.

Lemma unbuffered_loop_kway (fuel : nat) (st : Unbuffered) streams :
  unbuffered_rel (u_read_its st) (currents st) (u_tStarts st) streams ->
  (length (concat streams) <= fuel)%nat ->
  unbuffered_loop fuel st = Some (kway_merge fuel streams, None).
Proof.
  revert st streams. induction fuel as [|fuel IH]; intros st streams Hrel Hfuel.
  - pose proof (unbuffered_rel_nonempty _ _ _ _ Hrel) as Hne.
    assert (streams = []) as ->.
    { destruct Hne as [|[|r s] streams' Hs _]; simpl in *; [done|done|lia]. }
    simpl. by rewrite (proj2 (unbuffered_rel_nil_iff _ _ _ _ Hrel) eq_refl).
  - pose proof (unbuffered_rel_nonempty _ _ _ _ Hrel) as Hne.
    pose proof (unbuffered_rel_nil_iff _ _ _ _ Hrel) as Hnil.
    destruct (decide (streams = [])) as [->|Hs].
    { cbn [unbuffered_loop]. by rewrite (proj2 Hnil eq_refl). }
    destruct (kway_step_spec streams Hne Hs) as
      (r & streams' & Hstep & Hne' & Hperm & _).
    destruct (unbuffered_step_kway st streams r streams' Hrel Hstep)
      as (st' & Hst & Hrel').
    assert (length (concat streams') <= fuel)%nat as Hfuel'.
    { apply Permutation_length in Hperm. simpl in Hperm. lia. }
    cbn [unbuffered_loop kway_merge]. rewrite Hstep, Hst.
    rewrite (IH st' streams' Hrel' Hfuel').
    destruct (u_read_its st) eqn:Hits; [|done].
    by destruct Hs; apply Hnil.
Qed.

Lemma unbuffered_init_rel (its : list (list BamAlignment)) :
  unbuffered_rel (u_read_its (unbuffered_init its))
    (currents (unbuffered_init its)) (u_tStarts (unbuffered_init its))
    (nonempty_streams its).
Proof.
  unfold unbuffered_init, nonempty_streams. simpl.
  induction its as [|[|r it] its IH]; simpl; [constructor|done|].
  by constructor.
Qed.

(** **** The merge with look-ahead buffers *)

Lemma buffered_rel_head_starts bs its bufs idxs ts streams :
  buffered_rel bs its bufs idxs ts streams -> head_starts streams = ts.
Proof.
  induction 1 as [|it buf idx t stream its bufs idxs ts streams Hb _ IH];
    [done|].
  destruct Hb as (xs & k & r & _ & _ & _ & Hr & -> & ->).
  unfold head_starts in *. cbn [omap list_omap]. rewrite IH.
  by rewrite (drop_S _ _ _ Hr).
Qed.

Lemma buffer_rel_nonempty bs it buf idx t stream :
  buffer_rel bs it buf idx t stream -> stream <> [].
Proof.
  intros (xs & k & r & _ & _ & _ & Hr & _ & ->).
  by rewrite (drop_S _ _ _ Hr).
Qed.

Lemma buffered_rel_nonempty bs its bufs idxs ts streams :
  buffered_rel bs its bufs idxs ts streams ->
  Forall (fun s => s <> []) streams.
Proof.
  induction 1; constructor; [|done]. by eapply buffer_rel_nonempty.
Qed.

Lemma buffered_rel_nil_iff bs its bufs idxs ts streams :
  buffered_rel bs its bufs idxs ts streams -> its = [] <-> streams = [].
Proof. by intros []. Qed.

Lemma buffered_rel_lookup bs its bufs idxs ts streams i s :
  buffered_rel bs its bufs idxs ts streams -> streams !! i = Some s ->
  exists it buf idx t,
    its !! i = Some it /\ bufs !! i = Some buf /\ idxs !! i = Some idx /\
    buffer_rel bs it buf idx t s.
Proof.
  intros Hrel. revert i.
  induction Hrel as [|it buf idx t stream its bufs idxs ts streams Hb _ IH];
    intros [|i] Hi; simplify_eq/=; eauto 10.
Qed.

Lemma buffered_rel_delete bs its bufs idxs ts streams i :
  buffered_rel bs its bufs idxs ts streams ->
  buffered_rel bs (delete i its) (delete i bufs) (delete i idxs)
    (delete i ts) (delete i streams).
Proof.
  intros Hrel. revert i.
  induction Hrel as [|it buf idx t stream its bufs idxs ts streams Hb Hrel IH];
    intros [|i]; simpl; try constructor; auto.
Qed.

Lemma buffered_rel_insert bs its bufs idxs ts streams i it buf idx t s :
  buffer_rel bs it buf idx t s ->
  buffered_rel bs its bufs idxs ts streams ->
  buffered_rel bs (<[i := it]> its) (<[i := buf]> bufs) (<[i := idx]> idxs)
    (<[i := t]> ts) (<[i := s]> streams).
Proof.
  intros Hnew Hrel. revert i.
  induction Hrel as [|it0 buf0 idx0 t0 s0 its bufs idxs ts streams Hb Hrel IH];
    intros [|i]; simpl; try constructor; auto.
Qed.

(** A full buffer taken from an iterator that is not exhausted stands for
    what the iterator held. *)
Lemma take_buffer_rel (bs : nat) (c : BamAlignment) (it : list BamAlignment) :
  (0 < bs)%nat ->
  (take_buffer bs (c :: it)).1 !! 0%nat = Some (Some c) /\
  buffer_rel bs (take_buffer bs (c :: it)).2 (take_buffer bs (c :: it)).1
    0%nat (tStart c) (c :: it).
Proof.
  intros Hbs. destruct bs as [|bs]; [lia|]. unfold take_buffer.
  cbn [fst snd]. split; [done|].
  exists (take (S bs) (c :: it)), (S bs - length (c :: it))%nat, c.
  split; [done|]. split.
  { rewrite length_app, length_fmap, length_take, length_replicate. lia. }
  split; [intros Hk; apply drop_ge; lia|].
  split; [done|]. split; [done|].
  by rewrite drop_0, take_drop.
Qed.

Lemma take_buffer_exhausted (bs : nat) :
  (0 < bs)%nat -> (take_buffer bs []).1 !! 0%nat = Some None.
Proof. intros Hbs. destruct bs as [|bs]; [lia|]. done. Qed.

(** What the loop does to the buffer of the stream it served. *)
Lemma buffer_rel_advance bs it buf idx t r s' :
  buffer_rel bs it buf idx t (r :: s') ->
  buf !! idx = Some (Some r) /\
  match
    (if Nat.eqb (S idx) bs then (take_buffer bs it).1 else buf)
      !! (if Nat.eqb (S idx) bs then 0%nat else S idx) ≫= id
  with
  | None => s' = []
  | Some cur =>
      s' <> [] /\
      buffer_rel bs (if Nat.eqb (S idx) bs then (take_buffer bs it).2 else it)
        (if Nat.eqb (S idx) bs then (take_buffer bs it).1 else buf)
        (if Nat.eqb (S idx) bs then 0%nat else S idx) (tStart cur) s'
  end.
Proof.
  intros (xs & k & r0 & Hbuf & Hlen & Hk & Hr & Ht & Hs).
  rewrite (drop_S _ _ _ Hr) in Hs. simpl in Hs. injection Hs as -> ->.
  pose proof (lookup_lt_Some _ _ _ Hr) as Hidx.
  assert (length xs + k = bs)%nat as Hbs.
  { rewrite Hbuf in Hlen.
    by rewrite length_app, length_fmap, length_replicate in Hlen. }
  split.
  { rewrite Hbuf, lookup_app_l by (rewrite length_fmap; lia).
    by rewrite list_lookup_fmap, Hr. }
  destruct (Nat.eqb_spec (S idx) bs) as [Heq|Hne].
  - rewrite (drop_ge xs (S idx)) by lia. cbn [app].
    destruct it as [|c it0].
    + rewrite take_buffer_exhausted by lia. done.
    + destruct (take_buffer_rel bs c it0) as [H0 Hb]; [lia|].
      rewrite H0. cbn [mbind option_bind id]. by split.
  - destruct (xs !! S idx) as [c|] eqn:Hc.
    + rewrite Hbuf, lookup_app_l by
        (rewrite length_fmap; by eapply lookup_lt_Some).
      rewrite list_lookup_fmap, Hc. cbn [fmap option_fmap option_map mbind option_bind id].
      split; [by rewrite (drop_S _ _ _ Hc)|].
      exists xs, k, c. by rewrite <- Hbuf.
    + apply lookup_ge_None in Hc.
      rewrite Hbuf, lookup_app_r by (rewrite length_fmap; lia).
      rewrite lookup_replicate_2 by (rewrite length_fmap; lia).
      cbn [mbind option_bind id]. rewrite drop_ge by lia.
      rewrite Hk by lia. done.
Qed.

Lemma buffered_step_kway bs (st : Buffered) streams r streams' :
  buffered_rel bs (read_its st) (deep_buf st) (buf_indices st) (tStarts st)
    streams ->
  kway_step streams = Some (r, streams') ->
  exists st', buffered_step bs st = Some (r, st') /\
    buffered_rel bs (read_its st') (deep_buf st') (buf_indices st')
      (tStarts st') streams'.
Proof.
  intros Hrel. unfold kway_step, buffered_step.
  rewrite (buffered_rel_head_starts _ _ _ _ _ _ Hrel).
  destruct (py_min (tStarts st)) as [m|]; [|done]. cbn [mbind option_bind].
  destruct (py_index m (tStarts st)) as [i|]; [|done]. cbn [mbind option_bind].
  destruct (streams !! i) as [s|] eqn:Hs; [|done]. cbn [mbind option_bind].
  destruct (buffered_rel_lookup _ _ _ _ _ _ _ _ Hrel Hs)
    as (it & buf & idx & t & Hit & Hbuf & Hidx & Hb).
  rewrite Hidx, Hbuf. cbn [mbind option_bind].
  destruct s as [|r0 s']; [done|].
  destruct (buffer_rel_advance _ _ _ _ _ _ _ Hb) as [Hfirst Hnext].
  rewrite Hfirst, Hit. cbn [mbind option_bind id]. cbv zeta.
  destruct ((if Nat.eqb (S idx) bs then (take_buffer bs it).1 else buf)
      !! (if Nat.eqb (S idx) bs then 0%nat else S idx) ≫= id) as [cur|].
  - destruct Hnext as [Hne Hb']. destruct s' as [|r1 s']; [done|].
    intros [= <- <-]. eexists. split; [done|]. cbn.
    by apply buffered_rel_insert.
  - subst s'. intros [= <- <-]. eexists. split; [done|]. cbn.
    by apply buffered_rel_delete.
Qed.

Lemma buffered_loop_kway (fuel : nat) bs (st : Buffered) streams :
  buffered_rel bs (read_its st) (deep_buf st) (buf_indices st) (tStarts st)
    streams ->
  (length (concat streams) <= fuel)%nat ->
  buffered_loop fuel bs st = Some (kway_merge fuel streams, None).
Proof.
  revert st streams. induction fuel as [|fuel IH]; intros st streams Hrel Hfuel.
  - pose proof (buffered_rel_nonempty _ _ _ _ _ _ Hrel) as Hne.
    assert (streams = []) as ->.
    { destruct Hne as [|[|r s] streams' Hs _]; simpl in *; [done|done|lia]. }
    simpl. by rewrite (proj2 (buffered_rel_nil_iff _ _ _ _ _ _ Hrel) eq_refl).
  - pose proof (buffered_rel_nonempty _ _ _ _ _ _ Hrel) as Hne.
    pose proof (buffered_rel_nil_iff _ _ _ _ _ _ Hrel) as Hnil.
    destruct (decide (streams = [])) as [->|Hs].
    { cbn [buffered_loop]. by rewrite (proj2 Hnil eq_refl). }
    destruct (kway_step_spec streams Hne Hs) as
      (r & streams' & Hstep & Hne' & Hperm & _).
    destruct (buffered_step_kway bs st streams r streams' Hrel Hstep)
      as (st' & Hst & Hrel').
    assert (length (concat streams') <= fuel)%nat as Hfuel'.
    { apply Permutation_length in Hperm. simpl in Hperm. lia. }
    cbn [buffered_loop kway_merge]. rewrite Hstep, Hst.
    rewrite (IH st' streams' Hrel' Hfuel').
    destruct (read_its st) eqn:Hits; [|done].
    by destruct Hs; apply Hnil.
Qed.

Lemma buffered_init_rel bs (its : list (list BamAlignment)) :
  (0 < bs)%nat ->
  buffered_rel bs (read_its (buffered_init bs its))
    (deep_buf (buffered_init bs its)) (buf_indices (buffered_init bs its))
    (tStarts (buffered_init bs its)) (nonempty_streams its).
Proof.
  intros Hbs. unfold buffered_init, nonempty_streams.
  cbn [read_its deep_buf buf_indices tStarts].
  induction its as [|[|c it] its IH]; [constructor| |].
  - cbn [fmap list_fmap List.filter].
    rewrite take_buffer_exhausted by done. exact IH.
  - destruct (take_buffer_rel bs c it Hbs) as [H0 Hb].
    cbn [fmap list_fmap List.filter]. rewrite H0.
    cbn [entry_bool length replicate omap list_omap fmap list_fmap].
    rewrite H0. cbn [mbind option_bind id fmap option_fmap option_map].
    by constructor.
Qed.

(** **** The range query *)

Lemma concat_nonempty_streams (its : list (list BamAlignment)) :
  concat (nonempty_streams its) = concat its.
Proof.
  unfold nonempty_streams.
  induction its as [|[|r it] its IH]; simpl; [done|done|by rewrite IH].
Qed.

Lemma nonempty_streams_nonempty (its : list (list BamAlignment)) :
  Forall (fun s => s <> []) (nonempty_streams its).
Proof.
  unfold nonempty_streams.
  induction its as [|[|r it] its IH]; simpl; [constructor|done|].
  by constructor.
Qed.

Lemma nonempty_streams_sorted (its : list (list BamAlignment)) :
  Forall (Sorted by_start) its -> Forall (Sorted by_start) (nonempty_streams its).
Proof.
  unfold nonempty_streams.
  induction 1 as [|[|r it] its Hs _ IH]; simpl; [constructor|done|].
  by constructor.
Qed.

Lemma filter_sorted (P : BamAlignment -> bool) (l : list BamAlignment) :
  Sorted by_start l -> Sorted by_start (List.filter P l).
Proof.
  intros Hs. apply (Sorted_StronglySorted by_start_trans) in Hs.
  apply StronglySorted_Sorted.
  induction Hs as [|x l Hs IH Hall]; simpl; [constructor|].
  destruct (P x); [|done]. constructor; [done|].
  apply Forall_forall. intros y Hy. apply list_elem_of_In in Hy.
  apply filter_In in Hy as [Hy _].
  rewrite Forall_forall in Hall. apply Hall. by apply list_elem_of_In.
Qed.

Lemma filtered_sorted `{Collaborators} (d : DataSet) (g : gen BamAlignment) :
  Sorted by_start g.1 -> Sorted by_start (filtered d g).1.
Proof.
  unfold filtered. destruct (noFiltering d); [done|]. apply filter_sorted.
Qed.

(** Without buffers or with them, the loops of the range query compute the
    merge of the claim over the streams that are not empty. *)
Lemma readsInRange_unindexed_kway (readers : list Reader) (n : nat)
    (refName : string) (start end_ buffsize : Z) :
  (1 < n)%nat ->
  readsInRange_unindexed readers n refName start end_ buffsize =
  Some (kway_merge
          (length (concat
             ((fun rr => reader_readsInRange rr refName start end_) <$> readers)))
          (nonempty_streams
             ((fun rr => reader_readsInRange rr refName start end_) <$> readers)),
        None).
Proof.
  intros Hn. unfold readsInRange_unindexed.
  set (its := (fun rr => reader_readsInRange rr refName start end_) <$> readers).
  assert ((1 <? n)%nat = true) as -> by (apply Nat.ltb_lt; lia).
  destruct (Z.ltb_spec 1 buffsize) as [Hb|Hb].
  - apply buffered_loop_kway; [apply buffered_init_rel; lia|].
    by rewrite concat_nonempty_streams.
  - apply unbuffered_loop_kway; [apply unbuffered_init_rel|].
    by rewrite concat_nonempty_streams.
Qed.

(** C7, as the code has it: [readsInRange] of a dataset with more than one
    external resource, on the path that does not use the index, with or
    without look-ahead buffers:
    the generator ends without raising; what it yields is the k-way merge of
    the streams of the readers (the least start at the head of the streams
    next, an exhausted stream dropped) with the reads that fail every filter
    of the dataset left out; the merge is a permutation of the reads of the
    readers; when every stream is in nondecreasing start order, so are the
    merge and what is yielded; and with filtering off what is yielded is the
    merge itself. *)
Theorem readsInRange_kway_merge `{Collaborators} (d : DataSet)
    (readers : list Reader) (refName : string) (start end_ buffsize : Z) :
  (1 < length (externalResources d))%nat ->
  exists merged,
    merged =
      kway_merge
        (length (concat
           ((fun rr => reader_readsInRange rr refName start end_) <$> readers)))
        (nonempty_streams
           ((fun rr => reader_readsInRange rr refName start end_) <$> readers)) /\
    readsInRange d readers refName start end_ buffsize
      = Some (filtered d (merged, None)) /\
    (filtered d (merged, None)).2 = None /\
    merged ≡ₚ
      concat ((fun rr => reader_readsInRange rr refName start end_) <$> readers) /\
    (Forall (Sorted by_start)
       ((fun rr => reader_readsInRange rr refName start end_) <$> readers) ->
     Sorted by_start merged /\
     Sorted by_start (filtered d (merged, None)).1) /\
    (noFiltering d = true ->
     readsInRange d readers refName start end_ buffsize = Some (merged, None)).
Proof.
  intros Hn. eexists. split; [reflexivity|].
  set (its := (fun rr => reader_readsInRange rr refName start end_) <$> readers).
  unfold readsInRange.
  rewrite (readsInRange_unindexed_kway readers _ refName start end_ buffsize Hn).
  fold its. cbn [fmap option_fmap option_map].
  destruct (kway_merge_spec (length (concat its)) (nonempty_streams its))
    as [Hperm Hsorted].
  { apply nonempty_streams_nonempty. }
  { by rewrite concat_nonempty_streams. }
  split; [done|]. split.
  { unfold filtered. by destruct (noFiltering d). }
  split; [by rewrite Hperm, concat_nonempty_streams|]. split.
  - intros Hs. apply nonempty_streams_sorted in Hs.
    split; [by apply Hsorted|]. apply filtered_sorted. by apply Hsorted.
  - intros Hnf. unfold filtered. by rewrite Hnf.
Qed.

Lemma getRecords_buffered_same_witness :
  exists recs,
    mapM (fetch [reader_A; reader_B]) sample_indexMap = Some recs /\
    _getRecords [reader_A; reader_B] sample_indexMap 2 = (recs, None) /\
    _getRecords [reader_A; reader_B] sample_indexMap 1 = (recs, None).
Proof.
  apply (getRecords_buffered_same [reader_A; reader_B] sample_indexMap 2).
  - lia.
  - repeat constructor; by eexists.
Defined.

(** Four requests over two readers through a buffer of three. *)
Example getRecords_sample :
  _getRecords [reader_A; reader_B] [(1, 1); (0, 0); (0, 2); (1, 0)]%nat 3
  = ([read_b2; read_a1; read_a3; read_b1], None).
Proof. reflexivity. Qed.

(** A row that does not exist ends the one-at-a-time path after the records
    before it, and the buffered path before any record of its batch. *)
Example getRecords_missing_row :
  _getRecords [reader_A; reader_B] [(0, 0); (1, 7)]%nat 1
  = ([read_a1], Some IndexError) /\
  _getRecords [reader_A; reader_B] [(0, 0); (1, 7)]%nat 2
  = ([], Some IndexError).
Proof. split; reflexivity. Qed.

(** In the window [0, 100) one read of two has the greatest clipped length:
    its group is below a sampleSize of 3 and the sort is the stable one;
    with three such reads and a sampleSize of 2 the group is above the
    threshold and the sort is the unstable one. *)
Lemma longest_sort_kind_sample :
  count_min (reversed_key 0 100 <$> [row_of read_a1; row_of read_a2]) = 1 /\
  longest_sort_kind
    (reversed_key 0 100 <$> [row_of read_a1; row_of read_a2]) 3 = Mergesort /\
  count_min
    (reversed_key 0 100 <$> [row_of read_a1; row_of read_b1; row_of read_a1])
  = 3 /\
  longest_sort_kind
    (reversed_key 0 100 <$> [row_of read_a1; row_of read_b1; row_of read_a1]) 2
  = Quicksort.
Proof. repeat split; reflexivity. Qed.

Lemma pbi_longest_order_witness :
  let passes := in_window 0 0 100 <$> sample_index in
  let hits := mask_select passes sample_index in
  let lens := reversed_key 0 100 <$> hits in
  let kind := longest_sort_kind lens 2 in
  let order := argsort argsort_mergesort kind lens in
  order ≡ₚ seq 0 (length hits) /\
  Sorted Z.ge (omap (fun i => lengthInWindow 0 100 <$> hits !! i) order) /\
  (exists requests,
     pbi_requests argsort_mergesort sample_index sample_indexMap 0 0 100 true
       2 2 = Some requests /\
     Forall2 (fun i t => mask_select passes sample_indexMap !! i = Some t)
       order requests /\
     forall readers refNames refIds refName recs,
       refName ∈ refNames -> refIds !! refName = Some 0 ->
       mapM (fetch readers) requests = Some recs ->
       _pbiReadsInRange argsort_mergesort readers refNames refIds sample_index
         sample_indexMap 2 refName 0 100 true 2
       = (recs, None)) /\
  (kind = Quicksort <-> 2 <> 0 /\ 2 < count_min lens) /\
  (kind = Mergesort ->
   Sorted key_then_position (omap (fun i => pair i <$> lens !! i) order)).
Proof.
  apply (pbi_longest_order argsort_mergesort argsort_mergesort_is_argsort
           sample_index sample_indexMap 0 0 100 2 2).
  reflexivity.
Defined.

(** The longest reads of the window [0, 100) first: the two that span it, in
    the order of the index, then the others by clipped length. *)
Example pbiReadsInRange_longest_sample :
  _pbiReadsInRange argsort_mergesort [reader_A; reader_B] ["ref0"]
    {[ "ref0" := 0 ]} sample_index sample_indexMap 2 "ref0" 0 100 true 0
  = ([read_a1; read_b1; read_a3; read_a2; read_b2], None).
Proof. vm_compute. reflexivity. Qed.

End IterationFacts.

Module RecordsFacts.
Import Py DataSetModel Iteration Samples RangeSamples IterationFacts.

(** [_getRecords] one record at a time: the first request that names no
    reader, or no row of its reader, ends the generator with IndexError,
    after the records of the requests before it and before any request
    after it. *)
Theorem getRecords_single_missing (readers : list Reader)
    (P : list ((nat * nat) * BamAlignment)) (t : nat * nat)
    (rest : list (nat * nat)) :
  Forall (served readers) P ->
  fetch readers t = None ->
  _getRecords readers (P.*1 ++ t :: rest) 1 = (P.*2, Some IndexError).
Proof.
  intros HP Ht. unfold _getRecords. cbn [Z.eqb Pos.eqb].
  induction HP as [|p P Hp _ IH].
  - simpl. by rewrite Ht.
  - rewrite !fmap_cons. cbn [app getRecords_single].
    unfold served in Hp. rewrite Hp, IH. done.
Qed.

(** [_getRecords] with a buffer size below one: the first request finds no
    room in a buffer without entry, and the generator ends with IndexError
    before any record. *)
Theorem getRecords_no_buffer (readers : list Reader) (t : nat * nat)
    (rest : list (nat * nat)) (buffsize : Z) :
  buffsize <= 0 ->
  _getRecords readers (t :: rest) buffsize = ([], Some IndexError).
Proof.
  intros Hb. unfold _getRecords.
  assert ((buffsize =? 1) = false) as -> by (apply Z.eqb_neq; lia).
  rewrite getRecords_buffered_cons. unfold cleanBuffs.
  cbn [reqCache fromCache cacheFill].
  destruct (replicate (length readers) [] !! t.1); [|done].
  replace (Z.to_nat buffsize) with 0%nat by lia. done.
Qed.

Lemma getRecords_single_missing_witness :
  _getRecords [reader_A; reader_B]
    ([((0, 0)%nat, read_a1); ((1, 1)%nat, read_b2)].*1 ++ (1, 7)%nat :: [(0, 1)%nat])
    1
  = ([((0, 0)%nat, read_a1); ((1, 1)%nat, read_b2)].*2, Some IndexError).
Proof.
  apply (getRecords_single_missing [reader_A; reader_B]
           [((0, 0)%nat, read_a1); ((1, 1)%nat, read_b2)] (1, 7)%nat
           [(0, 1)%nat]); [by repeat constructor|done].
Defined.

Lemma getRecords_no_buffer_witness :
  _getRecords [reader_A; reader_B] [(0, 0)%nat; (1, 0)%nat] 0
  = ([], Some IndexError).
Proof.
  apply (getRecords_no_buffer [reader_A; reader_B] (0, 0)%nat [(1, 0)%nat] 0).
  lia.
Defined.

Lemma readsInRange_kway_merge_witness :
  exists merged,
    merged =
      kway_merge
        (length (concat
           ((fun rr => reader_readsInRange rr "ref" 0 200)
              <$> [reader_A_plain; reader_B_plain])))
        (nonempty_streams
           ((fun rr => reader_readsInRange rr "ref" 0 200)
              <$> [reader_A_plain; reader_B_plain])) /\
    @readsInRange sample_collaborators ds_two_filtered
      [reader_A_plain; reader_B_plain] "ref" 0 200 50
    = Some (@filtered sample_collaborators ds_two_filtered (merged, None)) /\
    (@filtered sample_collaborators ds_two_filtered (merged, None)).2 = None /\
    merged ≡ₚ
      concat ((fun rr => reader_readsInRange rr "ref" 0 200)
                <$> [reader_A_plain; reader_B_plain]) /\
    (Forall (Sorted by_start)
       ((fun rr => reader_readsInRange rr "ref" 0 200)
          <$> [reader_A_plain; reader_B_plain]) ->
     Sorted by_start merged /\
     Sorted by_start
       (@filtered sample_collaborators ds_two_filtered (merged, None)).1) /\
    (noFiltering ds_two_filtered = true ->
     @readsInRange sample_collaborators ds_two_filtered
       [reader_A_plain; reader_B_plain] "ref" 0 200 50
     = Some (merged, None)).
Proof.
  apply (@readsInRange_kway_merge sample_collaborators ds_two_filtered
           [reader_A_plain; reader_B_plain] "ref" 0 200 50).
  simpl. lia.
Defined.

(** The two sample readers merged by start, through buffers of two reads
    and without buffers; with the filter on the read name, the read it
    refuses is left out. *)
Example readsInRange_sample :
  @readsInRange sample_collaborators ds_two [reader_A_plain; reader_B_plain]
    "ref" 0 200 2
  = Some ([read_a1; read_b1; read_a2; read_b2; read_a3], None) /\
  @readsInRange sample_collaborators ds_two [reader_A_plain; reader_B_plain]
    "ref" 0 200 1
  = Some ([read_a1; read_b1; read_a2; read_b2; read_a3], None) /\
  @readsInRange sample_collaborators ds_two_filtered
    [reader_A_plain; reader_B_plain] "ref" 0 200 2
  = Some ([read_a1; read_b1; read_b2; read_a3], None).
Proof. repeat split; reflexivity. Qed.

(** A read that a reader gives for the range and that the filter of the
    dataset refuses is not yielded: what is yielded is not the union of what
    the readers give. *)
Lemma readsInRange_filter_sample :
  exists yielded,
    @readsInRange sample_collaborators ds_two_filtered
      [reader_A_plain; reader_B_plain] "ref" 0 200 2
    = Some (yielded, None) /\
    read_a2 ∈ reader_readsInRange reader_A_plain "ref" 0 200 /\
    read_a2 ∉ yielded.
Proof.
  eexists. split; [reflexivity|]. split.
  - apply list_elem_of_In. vm_compute. tauto.
  - intros Hin. apply list_elem_of_In in Hin. vm_compute in Hin.
    intuition discriminate.
Qed.

End RecordsFacts.

Module BufferedMissFacts.
Import Py DataSetModel Iteration Samples Requests IterationFacts.

Lemma fill_recCache_missing (rs : list Reader) (f : nat -> list nat)
    (off i : nat) (rr : Reader) :
  rs !! i = Some rr ->
  Exists (fun row => atRowNumber rr row = None) (f (off + i)%nat) ->
  fill_recCache rs (f <$> seq off (length rs)) = None.
Proof.
  revert off i. induction rs as [|r rs IH]; intros off i Hi Hex; [done|].
  cbn [length seq]. rewrite fmap_cons.
  cbn [fill_recCache head tail default from_option]. unfold id.
  destruct i as [|i].
  - simpl in Hi. simplify_eq. rewrite Nat.add_0_r in Hex.
    apply mapM_None in Hex. by rewrite Hex.
  - simpl in Hi.
    rewrite (IH (S off) i); [|done|].
    + by destruct (mapM (atRowNumber r) (f off)).
    + by replace (S off + i)%nat with (off + S i)%nat by lia.
Qed.

Lemma debuf_missing readers buffsize (pending : list (nat * nat)) :
  Exists (missing_row readers) pending ->
  debuf readers (buffers_of readers buffsize pending)
  = ([], Some IndexError).
Proof.
  intros Hex. apply Exists_exists in Hex as (t & Ht & rr & Hrr & Hrow).
  unfold debuf, buffers_of. cbn [reqCache fromCache cacheFill].
  rewrite (fill_recCache_missing readers
             (fun k => (filter (fun u : nat * nat => u.1 = k) pending).*2)
             0 t.1 rr Hrr); [done|].
  apply Exists_exists. exists t.2. split; [|done]. simpl.
  apply (list_elem_of_fmap_2 snd). by apply list_elem_of_filter.
Qed.

Lemma gen_then_raised {A} (e : exn) (k : gen A) :
  gen_then ([], Some e) k = ([], Some e).
Proof. reflexivity. Qed.

Lemma reqCache_lookup_None readers buffsize (pending : list (nat * nat)) k :
  (length readers <= k)%nat ->
  reqCache (buffers_of readers buffsize pending) !! k = None.
Proof.
  intros Hk. apply lookup_ge_None. unfold buffers_of. cbn [reqCache].
  by rewrite length_fmap, length_seq.
Qed.

(** One more request on buffers that hold fewer requests than they have
    room for. *)
Lemma getRecords_buffered_push readers buffsize (pending : list (nat * nat))
    (q : nat * nat) (rest : list (nat * nat)) :
  (q.1 < length readers)%nat -> (length pending < Z.to_nat buffsize)%nat ->
  getRecords_buffered readers buffsize (q :: rest)
    (buffers_of readers buffsize pending)
  = if buffsize <=? Z.of_nat (S (length pending)) then
      gen_then (debuf readers (buffers_of readers buffsize (pending ++ [q])))
        (getRecords_buffered readers buffsize rest
           (buffers_of readers buffsize []))
    else
      getRecords_buffered readers buffsize rest
        (buffers_of readers buffsize (pending ++ [q])).
Proof.
  intros Hq Hlen. rewrite getRecords_buffered_cons.
  rewrite buffers_of_reqCache by done.
  rewrite buffers_of_fromCache_length by lia.
  change (cacheFill (buffers_of readers buffsize pending))
    with (length pending).
  assert ((length pending <? Z.to_nat buffsize)%nat = true) as ->
    by (apply Nat.ltb_lt; lia).
  rewrite (buffers_of_snoc readers buffsize pending q Hq Hlen).
  by rewrite cleanBuffs_buffers_of.
Qed.

Lemma getRecords_buffered_poisoned readers buffsize
    (rest pending : list (nat * nat)) :
  Exists (missing_row readers) pending ->
  (length pending < Z.to_nat buffsize)%nat ->
  getRecords_buffered readers buffsize rest
    (buffers_of readers buffsize pending)
  = ([], Some IndexError).
Proof.
  revert pending. induction rest as [|q rest IH]; intros pending Hex Hlen.
  - change (getRecords_buffered readers buffsize []
              (buffers_of readers buffsize pending))
      with (if (0 <? length pending)%nat
            then debuf readers (buffers_of readers buffsize pending)
            else ([], None)).
    destruct pending as [|p pending]; [by apply Exists_nil in Hex|].
    replace (0 <? length (p :: pending))%nat with true by done.
    by apply debuf_missing.
  - destruct (decide (q.1 < length readers)%nat) as [Hq|Hq].
    + rewrite getRecords_buffered_push by done.
      assert (Exists (missing_row readers) (pending ++ [q])) as Hex'
        by (apply Exists_app; by left).
      destruct (buffsize <=? Z.of_nat (S (length pending))) eqn:Hfull.
      * by rewrite (debuf_missing _ _ _ Hex').
      * apply IH; [done|]. apply Z.leb_gt in Hfull.
        rewrite length_app. simpl. lia.
    + rewrite getRecords_buffered_cons.
      by rewrite reqCache_lookup_None by lia.
Qed.

Lemma gen_then_gen_then {A} (l1 l2 : list A) (k : gen A) :
  gen_then (l1, None) (gen_then (l2, None) k) = gen_then (l1 ++ l2, None) k.
Proof. unfold gen_then. simpl. by rewrite app_assoc. Qed.

(** The requests served so far leave the buffers in whole batches: what is
    left in them is what does not fill a batch. *)
Lemma getRecords_buffered_batches readers buffsize
    (Q P : list ((nat * nat) * BamAlignment)) (rest : list (nat * nat)) :
  1 <= buffsize -> Forall (served readers) (P ++ Q) ->
  (length P < Z.to_nat buffsize)%nat ->
  let m := (Z.to_nat buffsize
            * ((length P + length Q) / Z.to_nat buffsize))%nat in
  getRecords_buffered readers buffsize (Q.*1 ++ rest)
    (buffers_of readers buffsize P.*1)
  = gen_then (take m (P ++ Q).*2, None)
      (getRecords_buffered readers buffsize rest
         (buffers_of readers buffsize (drop m (P ++ Q)).*1)).
Proof.
  intros Hb. cbv zeta. revert P. induction Q as [|q Q IH]; intros P HPQ Hlen.
  - rewrite app_nil_r, Nat.add_0_r. rewrite Nat.div_small by done.
    rewrite Nat.mul_0_r, take_0, drop_0. simpl.
    by destruct (getRecords_buffered _ _ _ _).
  - assert (served readers q) as Hq.
    { rewrite Forall_app, Forall_cons in HPQ. tauto. }
    destruct (served_reader _ _ Hq) as (rr & Hrr & _).
    apply lookup_lt_Some in Hrr as Hk.
    rewrite fmap_cons. cbn [app].
    rewrite getRecords_buffered_push by (by rewrite ?length_fmap).
    rewrite length_fmap.
    replace (P.*1 ++ [q.1]) with (P ++ [q]).*1 by (by rewrite fmap_app).
    replace (P ++ q :: Q) with ((P ++ [q]) ++ Q) in *
      by (by rewrite <- app_assoc).
    destruct (Z.leb_spec buffsize (Z.of_nat (S (length P)))) as [Hfull|Hroom].
    + assert (S (length P) = Z.to_nat buffsize) as Hn by lia.
      assert (Forall (served readers) (P ++ [q])) as HPq
        by (rewrite Forall_app in HPQ; tauto).
      rewrite (debuf_served readers buffsize (P ++ [q]) HPq).
      change (@nil (nat * nat)) with ((@nil ((nat * nat) * BamAlignment)).*1).
      rewrite (IH []); [|rewrite Forall_app in HPQ; tauto|simpl; lia].
      rewrite gen_then_gen_then. cbn [length app Nat.add].
      replace (length P + S (length Q))%nat
        with (1 * Z.to_nat buffsize + length Q)%nat by lia.
      rewrite Nat.div_add_l by lia.
      rewrite Nat.mul_add_distr_l, Nat.mul_1_r.
      set (m := (Z.to_nat buffsize * (length Q / Z.to_nat buffsize))%nat).
      assert (length (P ++ [q]) = Z.to_nat buffsize) as Hlen'
        by (rewrite length_app; simpl; lia).
      rewrite (fmap_app snd (P ++ [q]) Q).
      rewrite take_app_add' by (by rewrite length_fmap).
      by rewrite drop_app_add' by done.
    + rewrite (IH (P ++ [q])); [|done|rewrite length_app; simpl; lia].
      rewrite length_app. simpl.
      by replace (length P + 1 + length Q)%nat
        with (length P + S (length Q))%nat by lia.
Qed.

(** [_getRecords] through buffers: a request that names no reader, or no
    row of its reader, ends the generator with IndexError; the records
    yielded before are those of the whole batches of [buffsize] requests
    before it, and the records of the batch it falls in are lost, also
    those requested before it. *)
Theorem getRecords_buffered_missing (readers : list Reader)
    (P : list ((nat * nat) * BamAlignment)) (t : nat * nat)
    (rest : list (nat * nat)) (buffsize : Z) :
  1 < buffsize ->
  Forall (served readers) P ->
  fetch readers t = None ->
  _getRecords readers (P.*1 ++ t :: rest) buffsize
  = (take (Z.to_nat buffsize * (length P / Z.to_nat buffsize)) P.*2,
     Some IndexError).
Proof.
  intros Hb HP Ht. unfold _getRecords.
  assert ((buffsize =? 1) = false) as -> by (apply Z.eqb_neq; lia).
  rewrite cleanBuffs_buffers_of.
  change (@nil (nat * nat)) with ((@nil ((nat * nat) * BamAlignment)).*1).
  rewrite (getRecords_buffered_batches readers buffsize P [] (t :: rest));
    [|lia|done|simpl; lia].
  cbn [length app Nat.add].
  set (m := (Z.to_nat buffsize * (length P / Z.to_nat buffsize))%nat).
  assert (length (drop m P).*1 < Z.to_nat buffsize)%nat as Hleft.
  { rewrite length_fmap, length_drop. unfold m.
    pose proof (Nat.mod_upper_bound (length P) (Z.to_nat buffsize)
                  ltac:(lia)) as Hmod.
    pose proof (Nat.div_mod_eq (length P) (Z.to_nat buffsize)). lia. }
  assert (getRecords_buffered readers buffsize (t :: rest)
            (buffers_of readers buffsize (drop m P).*1)
          = ([], Some IndexError)) as ->.
  { destruct (decide (t.1 < length readers)%nat) as [Hq|Hq].
    - assert (missing_row readers t) as Hbad.
      { unfold fetch in Ht.
        destruct (readers !! t.1) as [rr|] eqn:Hrr.
        - by exists rr.
        - apply lookup_ge_None in Hrr. lia. }
      rewrite getRecords_buffered_push by done.
      assert (Exists (missing_row readers) ((drop m P).*1 ++ [t])) as Hex.
      { apply Exists_app. right. by constructor. }
      destruct (buffsize <=? Z.of_nat (S (length (drop m P).*1))) eqn:Hfull.
      + by rewrite (debuf_missing _ _ _ Hex).
      + apply getRecords_buffered_poisoned; [done|].
        apply Z.leb_gt in Hfull. rewrite length_app. simpl. lia.
    - rewrite getRecords_buffered_cons.
      by rewrite reqCache_lookup_None by lia. }
  unfold gen_then. simpl. by rewrite app_nil_r.
Qed.

Lemma getRecords_buffered_missing_witness :
  _getRecords [reader_A; reader_B]
    ([((0, 0)%nat, read_a1); ((1, 1)%nat, read_b2); ((0, 2)%nat, read_a3)].*1
     ++ (1, 7)%nat :: [(0, 1)%nat]) 2
  = (take (Z.to_nat 2 * (3 / Z.to_nat 2))
       [((0, 0)%nat, read_a1); ((1, 1)%nat, read_b2); ((0, 2)%nat, read_a3)].*2,
     Some IndexError).
Proof.
  apply (getRecords_buffered_missing [reader_A; reader_B]
           [((0, 0)%nat, read_a1); ((1, 1)%nat, read_b2); ((0, 2)%nat, read_a3)]
           (1, 7)%nat [(0, 1)%nat] 2); [lia|by repeat constructor|done].
Defined.

(** Three records are requested before a row that does not exist: one at a
    time the three are yielded, through buffers of two only the first
    batch. *)
Example getRecords_lost_batch :
  _getRecords [reader_A; reader_B] [(0, 0); (1, 1); (0, 2); (1, 7)]%nat 1
  = ([read_a1; read_b2; read_a3], Some IndexError) /\
  _getRecords [reader_A; reader_B] [(0, 0); (1, 1); (0, 2); (1, 7)]%nat 2
  = ([read_a1; read_b2], Some IndexError).
Proof. split; reflexivity. Qed.

End BufferedMissFacts.

Module RecordsIterFacts.
Import Py DataSetModel Iteration Samples RangeSamples Records.

Section RecordsIterFacts.
Context `{Collaborators}.

Lemma filtered_twice (d : DataSet) (g : gen BamAlignment) :
  filtered d (filtered d g) = filtered d g.
Proof.
  unfold filtered. destruct (noFiltering d); [done|]. cbn [fst snd].
  f_equal. induction g.1 as [|x l IH]; simpl; [done|].
  destruct (existsb (fun filt => filt x) (processFilters d)) eqn:E; simpl;
    [by rewrite E, IH|done].
Qed.

(** Iterating a dataset is iterating its [records]: the second pass through
    the filters refuses nothing that the first let through.  The records
    are those of the readers, reader after reader, without those that fail
    every filter; and on a dataset with at most one external resource
    [readsInRange] (without index) yields the reads of the readers in the
    order of the readers, unsorted, under the same filters. *)
Theorem iter_is_records (d : DataSet) (readers : list Reader)
    (refName : string) (start end_ buffsize : Z) :
  __iter__ d readers = records d readers /\
  (records d readers).2 = None /\
  sublist (records d readers).1 (concat (reader_rows <$> readers)) /\
  (noFiltering d = true ->
   records d readers = (concat (reader_rows <$> readers), None)) /\
  ((length (externalResources d) <= 1)%nat ->
   readsInRange d readers refName start end_ buffsize
   = Some (filtered d
             (concat ((fun rr => reader_readsInRange rr refName start end_)
                        <$> readers), None))).
Proof.
  split; [apply filtered_twice|]. unfold records, filtered.
  destruct (noFiltering d) eqn:Hnf; cbn [fst snd].
  - split; [done|]. split; [done|]. split; [done|].
    intros Hn. unfold readsInRange, readsInRange_unindexed, filtered.
    rewrite Hnf.
    assert ((1 <? length (externalResources d))%nat = false) as ->
      by (apply Nat.ltb_ge; lia). done.
  - split; [done|]. split.
    { induction (concat (reader_rows <$> readers)) as [|x l IH]; simpl;
        [constructor|].
      destruct (existsb _ _); by constructor. }
    split; [done|].
    intros Hn. unfold readsInRange, readsInRange_unindexed, filtered.
    rewrite Hnf.
    assert ((1 <? length (externalResources d))%nat = false) as ->
      by (apply Nat.ltb_ge; lia). done.
Qed.
End RecordsIterFacts.

(** One resource and a reader whose range query is not sorted: the reads
    come as the reader gives them. *)
Example readsInRange_single_sample :
  @readsInRange sample_collaborators
    (fresh_dataset AlignmentSet ∅ [bam1] [])
    [mkReader false [read_a3; read_a1] []
       (fun _ _ _ => [read_a3; read_a1])] "ref" 0 200 50
  = Some ([read_a3; read_a1], None).
Proof. reflexivity. Qed.

End RecordsIterFacts.

Module ChunkBalanceFacts.
Import Py ChunkList ChunkBalance ChunkListFacts.

Section BalanceFacts.
Context {A : Type} (balanceKey : A -> Z).

Lemma chunk_step_balanced n M st st' item :
  chunk_inv balanceKey n st ->
  0 <= mass balanceKey item <= M ->
  balanced balanceKey M st.1 ->
  chunk_step balanceKey st item = Some st' ->
  balanced balanceKey M st'.1.
Proof.
  intros Hinv Hm Hbal Hstep.
  destruct (chunk_step_lightest balanceKey n st st' item Hinv Hstep)
    as (k & c & Hc & -> & Hleast).
  apply lookup_lt_Some in Hc as Hk.
  intros i j ci cj Hi Hj.
  destruct (decide (i = k)) as [->|Hik]; destruct (decide (j = k)) as [->|Hjk].
  - rewrite list_lookup_insert_eq in Hi, Hj by done. simplify_eq. lia.
  - rewrite list_lookup_insert_eq in Hi by done.
    rewrite list_lookup_insert_ne in Hj by done. simplify_eq.
    rewrite load_app. pose proof (Hleast _ _ Hj). lia.
  - rewrite list_lookup_insert_ne in Hi by done.
    rewrite list_lookup_insert_eq in Hj by done. simplify_eq.
    rewrite load_app. pose proof (Hbal _ _ _ _ Hi Hc). lia.
  - rewrite list_lookup_insert_ne in Hi, Hj by done. by eapply Hbal.
Qed.

Lemma chunk_loop_balanced n M items st :
  (0 < n)%nat -> chunk_inv balanceKey n st ->
  Forall (fun a => 0 <= mass balanceKey a <= M) items ->
  balanced balanceKey M st.1 ->
  exists st', chunk_loop balanceKey items st = Some st' /\
    chunk_inv balanceKey n st' /\
    concat st'.1 ≡ₚ concat st.1 ++ items /\
    balanced balanceKey M st'.1.
Proof.
  intros Hn. revert st. induction items as [|item items IH];
    intros st Hinv Hm Hbal.
  - exists st. by rewrite app_nil_r.
  - apply Forall_cons in Hm as [Hm Hms].
    destruct (chunk_step_inv balanceKey n st item Hn Hinv)
      as (st1 & Hst & Hinv1 & Hp1).
    pose proof (chunk_step_balanced n M st st1 item Hinv Hm Hbal Hst) as Hbal1.
    destruct (IH st1 Hinv1 Hms Hbal1) as (st' & Hl & Hinv' & Hp' & Hbal').
    exists st'. simpl. rewrite Hst. split; [done|]. split; [done|].
    split; [|done]. rewrite Hp', Hp1. simpl. apply Permutation_middle.
Qed.

(** [_chunkList] balances the chunks: for a key without negative value and
    at least one chunk, whatever the chunk count, the call returns
    [chunknum] chunks that hold the atoms of the list, and the loads of two
    chunks (the sum of the keys, a key of 0 counted as 1) differ by no more
    than the greatest load of an atom. *)
Theorem chunkList_balanced (inlist : list A) (chunknum M : Z) :
  1 <= chunknum -> 1 <= M ->
  (forall a, a ∈ inlist -> 0 <= balanceKey a <= M) ->
  exists chunks, _chunkList balanceKey inlist chunknum = Some chunks /\
    Z.of_nat (length chunks) = chunknum /\
    concat chunks ≡ₚ inlist /\
    forall c d, c ∈ chunks -> d ∈ chunks ->
      load balanceKey c - load balanceKey d <= M.
Proof.
  intros Hk HM Hkey. unfold _chunkList.
  assert (0 < Z.to_nat chunknum)%nat as Hn by lia.
  destruct (chunk_loop_balanced (Z.to_nat chunknum) M
              (sorted_reverse balanceKey inlist) (chunk_init chunknum) Hn
              (chunk_init_inv balanceKey chunknum))
    as (st' & Hloop & (Hlen & _) & Hperm & Hbal).
  { apply Forall_forall. intros a Ha. rewrite sorted_reverse_perm in Ha.
    specialize (Hkey a Ha). unfold mass. cbv zeta.
    destruct (Z.eqb_spec (balanceKey a) 0); lia. }
  { intros i j c d Hi Hj. simpl in Hi, Hj.
    apply lookup_replicate in Hi as [-> _].
    apply lookup_replicate in Hj as [-> _]. simpl. lia. }
  rewrite Hloop. exists st'.1. split; [done|]. split; [lia|]. split.
  - rewrite Hperm. simpl. rewrite concat_replicate_nil. simpl.
    apply sorted_reverse_perm.
  - intros c d Hc Hd.
    apply list_elem_of_lookup in Hc as [i Hi].
    apply list_elem_of_lookup in Hd as [j Hj]. by eapply Hbal.
Qed.

Lemma chunkList_no_chunk (inlist : list A) (chunknum : Z) :
  inlist <> [] -> chunknum <= 0 ->
  _chunkList balanceKey inlist chunknum = None.
Proof.
  intros Hne Hk. unfold _chunkList, chunk_init.
  replace (Z.to_nat chunknum) with 0%nat by lia.
  pose proof (sorted_reverse_perm balanceKey inlist) as Hperm.
  destruct (sorted_reverse balanceKey inlist) as [|x l]; [|done].
  apply Permutation_nil_l in Hperm. by destruct Hne.
Qed.

(** The edges of [_chunkList]: an empty list gives [chunknum] empty chunks
    (none for a count that is not positive); a list that is not empty and a
    count that is not positive end in the IndexError of [chunkSizes[0]]. *)
Theorem chunkList_edges (inlist : list A) (chunknum : Z) :
  _chunkList balanceKey [] chunknum = Some (replicate (Z.to_nat chunknum) []) /\
  (inlist <> [] -> chunknum <= 0 ->
   _chunkList balanceKey inlist chunknum = None).
Proof. split; [done|]. apply chunkList_no_chunk. Qed.
End BalanceFacts.

Lemma chunkList_balanced_witness :
  exists chunks, _chunkList (fun z : Z => z) [3; 0; 5; 2] 3 = Some chunks /\
    Z.of_nat (length chunks) = 3 /\
    concat chunks ≡ₚ [3; 0; 5; 2] /\
    forall c d, c ∈ chunks -> d ∈ chunks ->
      load (fun z : Z => z) c - load (fun z : Z => z) d <= 5.
Proof.
  apply (chunkList_balanced (fun z : Z => z) [3; 0; 5; 2] 3 5); [lia|lia|].
  intros a Ha. repeat (apply elem_of_cons in Ha as [->|Ha]; [lia|]).
  by apply elem_of_nil in Ha.
Defined.

Lemma chunkList_edges_witness :
  _chunkList (fun z : Z => z) [] 2 = Some (replicate (Z.to_nat 2) []) /\
  _chunkList (fun z : Z => z) [4; 1] 0 = None.
Proof.
  destruct (chunkList_edges (fun z : Z => z) [4; 1] 0) as [_ H2].
  split; [exact (proj1 (chunkList_edges (fun z : Z => z) [4; 1] 2))|].
  apply H2; [done|lia].
Defined.

End ChunkBalanceFacts.

Module FilterFacts.
Import Py DataSetModel Iteration Errors FilterControl Samples.

Section FilterFacts.
Context `{Collaborators}.


End FilterFacts.

Section CacheFacts.
Variable Filters_tests_for : string -> Filters -> list (BamAlignment -> bool).

(** [processFilters] and its cache: a filled cache is returned as it is,
    whatever the class; with an empty cache the classes DataSet and
    BarcodeSet raise NotImplementedError and change nothing; a class with a
    read type computes the tests of its filters (the test that is always
    true when there is none) and caches them, so that the cache is not
    empty, a second call returns the same tests and changes nothing, a
    change of the filters that does not go through [reFilter] is not seen,
    and after [reFilter] the tests are those of the new filters.
    [disableFilters] fills the cache, so that [processFilters] returns the
    test that is always true in every class; [enableFilters] empties it
    again. *)
Theorem processFilters_cache (d : DataSet) (f : Filters) (light : bool) :
  (_cachedFilters d <> [] ->
   processFilters_cached Filters_tests_for d = (d, Ok (_cachedFilters d))) /\
  (_cachedFilters d = [] ->
   className d = DataSet_ \/ className d = BarcodeSet ->
   processFilters_cached Filters_tests_for d = (d, Err NotImplementedError)) /\
  (forall readType,
     _cachedFilters d = [] -> _filterType (className d) = Ok readType ->
     let ts := fresh_tests Filters_tests_for readType d in
     let d' := set_cachedFilters ts d in
     let d'' := reFilter light (set_filters f d') in
     let ts'' := fresh_tests Filters_tests_for readType (set_filters f d) in
     ts <> [] /\
     processFilters_cached Filters_tests_for d = (d', Ok ts) /\
     processFilters_cached Filters_tests_for d' = (d', Ok ts) /\
     processFilters_cached Filters_tests_for (set_filters f d')
     = (set_filters f d', Ok ts) /\
     processFilters_cached Filters_tests_for d''
     = (set_cachedFilters ts'' d'', Ok ts'')) /\
  processFilters_cached Filters_tests_for (disableFilters d)
  = (disableFilters d, Ok [fun _ => true]) /\
  (className d = DataSet_ \/ className d = BarcodeSet ->
   processFilters_cached Filters_tests_for (enableFilters (disableFilters d))
   = (enableFilters (disableFilters d), Err NotImplementedError)).
Proof.
  split; [|split; [|split; [|split]]].
  - unfold processFilters_cached. by destruct (_cachedFilters d).
  - intros Hc Hcls. unfold processFilters_cached. rewrite Hc.
    by destruct Hcls as [-> | ->].
  - intros readType Hc Ht. cbv zeta.
    assert (fresh_tests Filters_tests_for readType d <> []) as Hne.
    { unfold fresh_tests. by destruct (Filters_tests_for readType (filters d)). }
    split; [done|]. split; [|split; [|split]].
    + unfold processFilters_cached, fresh_tests. rewrite Hc, Ht.
      by destruct (Filters_tests_for readType (filters d)).
    + unfold processFilters_cached. cbn [_cachedFilters set_cachedFilters].
      by destruct (fresh_tests Filters_tests_for readType d).
    + unfold processFilters_cached.
      cbn [_cachedFilters set_cachedFilters set_filters].
      by destruct (fresh_tests Filters_tests_for readType d).
    + set (d'' := reFilter light
                    (set_filters f
                       (set_cachedFilters
                          (fresh_tests Filters_tests_for readType d) d))).
      assert (_cachedFilters d'' = []) as H1 by (by destruct light).
      assert (className d'' = className d) as H2 by (by destruct light).
      assert (filters d'' = f) as H3 by (by destruct light).
      unfold processFilters_cached. rewrite H1, H2, Ht, H3.
      unfold fresh_tests. cbn [filters set_filters].
      by destruct (Filters_tests_for readType f).
  - done.
  - intros Hcls. unfold processFilters_cached. cbn.
    by destruct Hcls as [-> | ->].
Qed.
End CacheFacts.

(** For the classes that read BAM files, the tests returned are those that
    the decorator [filtered] takes from [processFilters]. *)
Lemma processFilters_of_ReadSet `{Collaborators} (d : DataSet) :
  _filterType (className d) = Ok "bam" ->
  (processFilters_cached (fun _ => Filters_tests) d).2 = Ok (processFilters d).
Proof.
  intros Ht. unfold processFilters_cached, processFilters.
  destruct (_cachedFilters d); [|done]. rewrite Ht.
  by destruct (Filters_tests (filters d)).
Qed.

(** A dataset of the base class: [processFilters] raises until the filters
    are disabled. *)
Example processFilters_base_sample :
  let d := fresh_dataset DataSet_ ∅ [] [] in
  processFilters_cached (fun _ => sample_tests) d
  = (d, Err NotImplementedError) /\
  (processFilters_cached (fun _ => sample_tests) (disableFilters d)).2
  = Ok [fun _ => true].
Proof. split; reflexivity. Qed.

End FilterFacts.

Module SplitFacts.
Import Py ChunkList DataSetModel Samples ChunkListFacts DataSetFacts
  ChunkBalanceFacts.

Lemma singletons_of_length {A} (chunks : list (list A)) :
  Forall (fun c => c <> []) chunks ->
  length (concat chunks) = length chunks ->
  Forall (fun c => exists x, c = [x]) chunks.
Proof.
  intros Hne. assert (length chunks <= length (concat chunks))%nat as Hle.
  { induction Hne as [|[|x c] chunks Hc _ IH]; simpl; [lia|done|].
    rewrite length_app. lia. }
  revert Hle. induction Hne as [|[|x c] chunks Hc Hne IH]; intros Hle Hlen;
    [constructor|done|].
  simpl in Hlen. rewrite length_app in Hlen.
  assert (length chunks <= length (concat chunks))%nat as Hle'.
  { clear -Hne. induction Hne as [|[|x c] chunks Hc _ IH]; simpl; [lia|done|].
    rewrite length_app. lia. }
  destruct c as [|y c]; [|simpl in Hlen; lia].
  constructor; [by exists x|]. apply IH; [done|simpl in Hlen; lia].
Qed.

Section SplitFacts.
Context `{Collaborators}.

(** [split] by resource with the chunk count left at 0, or above the number
    of resources: one dataset per external resource is returned, each with
    exactly one resource, and every resource of the dataset is in one of
    them; a dataset without resource gives no dataset at all. *)
Theorem split_one_per_resource (d : DataSet) (chunks : Z) :
  chunks = 0 \/ Z.of_nat (length (externalResources d)) < chunks ->
  exists results,
    split chunks true false false false d = Returned results /\
    length results = length (externalResources d) /\
    Forall (fun r => exists x, externalResources r = [x]) results /\
    concat (externalResources <$> results) ≡ₚ externalResources d.
Proof.
  intros Hc. unfold split. simpl. rewrite andb_false_r.
  set (n := Z.of_nat (length (externalResources d))).
  assert ((chunks =? 0) || (n <? chunks) = true) as ->.
  { apply orb_true_iff. destruct Hc as [->|Hc]; [by left|right].
    by apply Z.ltb_lt. }
  destruct (decide (n = 1)) as [Hn1|Hn1].
  - rewrite Hn1. exists [copy d]. simpl. split; [done|].
    destruct (externalResources d) as [|x [|y res]] eqn:Hres;
      try (subst n; simpl in *; lia).
    split; [done|]. split.
    + constructor; [|constructor]. exists x. exact Hres.
    + done.
  - assert ((n =? 1) = false) as -> by (by apply Z.eqb_neq).
    destruct (decide (n = 0)) as [Hn0|Hn0].
    + assert (externalResources d = []) as Hnil.
      { destruct (externalResources d); [done|subst n; simpl in *; lia]. }
      rewrite Hn0, Hnil. exists []. by repeat split.
    + destruct (chunkList_chunks resource_len (externalResources d) n)
        as (cl & Hcl & Hlen & Hne & Hperm).
      { subst n. lia. }
      { intros a _. unfold resource_len. lia. }
      rewrite Hcl. eexists. split; [done|].
      assert (length (replicate (Z.to_nat n) (copy d)) = length cl) as Hrl.
      { rewrite length_replicate. lia. }
      rewrite length_fmap, assign_chunks_length, length_replicate.
      split; [subst n; lia|].
      pose proof (assign_chunks_resources _ _ Hrl) as Hr.
      unfold newUuid in Hr. simpl in Hr.
      assert (Forall (fun c => exists x, c = [x]) cl) as Hone.
      { apply singletons_of_length; [done|].
        rewrite (Permutation_length Hperm). subst n. lia. }
      split; [|by rewrite Hr].
      apply Forall_forall. intros r Hin.
      rewrite Forall_forall in Hone. apply Hone. rewrite <- Hr.
      by apply (list_elem_of_fmap_2 externalResources).
Qed.

(** [split] with a negative chunk count: a dataset with an external
    resource ends in the IndexError of the chunker (which has no chunk to
    fill), before any dataset is returned. *)
Theorem split_negative_chunks (d : DataSet) (chunks : Z) :
  chunks < 0 -> externalResources d <> [] ->
  split chunks true false false false d = Raised IndexError.
Proof.
  intros Hc Hres. unfold split. simpl. rewrite andb_false_r.
  assert ((chunks =? 0) || (Z.of_nat (length (externalResources d)) <? chunks)
          = false) as ->.
  { apply orb_false_iff. split; [apply Z.eqb_neq|apply Z.ltb_ge]; lia. }
  assert ((chunks =? 1) = false) as -> by (apply Z.eqb_neq; lia).
  rewrite (chunkList_no_chunk resource_len (externalResources d) chunks);
    [done|done|lia].
Qed.

(** [addDatasets] keeps the subdatasets flat: a dataset that has
    subdatasets contributes them and not itself, a dataset without
    contributes itself; so the subdatasets grow by the subdatasets of the
    other dataset, or by one, and if no subdataset of the two datasets has
    subdatasets of its own, none of the result has, unless the dataset
    added is itself one without. *)
Theorem addDatasets_flat (d other : DataSet) :
  let d' := addDatasets other d in
  subdatasets d' =
    subdatasets d
    ++ (if decide (subdatasets other = []) then [other] else subdatasets other) /\
  length (subdatasets d') =
    (length (subdatasets d) + Nat.max 1 (length (subdatasets other)))%nat /\
  (Forall (fun s => subdatasets s = []) (subdatasets d) ->
   Forall (fun s => subdatasets s = []) (subdatasets other) ->
   Forall (fun s => subdatasets s = []) (subdatasets d')) /\
  externalResources d' = externalResources d /\
  filters d' = filters d /\ metadata d' = metadata d /\
  objMetadata d' = objMetadata d.
Proof.
  cbv zeta. unfold addDatasets.
  destruct (subdatasets other) as [|s ss] eqn:Hs; simpl.
  - repeat split; [rewrite length_app; simpl; lia|].
    intros Hd _. apply Forall_app. split; [done|]. by repeat constructor.
  - repeat split; [rewrite length_app; simpl; lia|].
    intros Hd Ho. apply Forall_app. by split.
Qed.
End SplitFacts.

Lemma split_one_per_resource_witness :
  exists results,
    @split sample_collaborators 0 true false false false ds_three
    = Returned results /\
    length results = length (externalResources ds_three) /\
    Forall (fun r => exists x, externalResources r = [x]) results /\
    concat (externalResources <$> results) ≡ₚ externalResources ds_three.
Proof.
  apply (@split_one_per_resource sample_collaborators ds_three 0). by left.
Defined.

Lemma split_negative_chunks_witness :
  @split sample_collaborators (-1) true false false false ds_three
  = Raised IndexError.
Proof.
  apply (@split_negative_chunks sample_collaborators ds_three (-1)); [lia|done].
Defined.

End SplitFacts.

Module MergeOutcomeFacts.
Import Py DataSetModel Merge Samples DataSetFacts MergeFacts.

Section MergeOutcomeFacts.
Context `{Collaborators}.

(** The type check of [merge]: for two datasets of different classes,
    neither of them of the base class, [merge] and [+] raise TypeError, and
    they do so before anything is changed. *)
Theorem merge_type_check self other c σ s o :
  σ !! self = Some s -> σ !! other = Some o ->
  className s <> className o ->
  className s <> DataSet_ -> className o <> DataSet_ ->
  mergeable (className s) (className o) = false /\
  merge self other c σ = (σ, Raised TypeError) /\
  __add__ self other σ = (σ, Raised TypeError).
Proof.
  intros Hs Ho Hne Hsb Hob.
  assert (mergeable (className s) (className o) = false) as Hm.
  { unfold mergeable. rewrite !orb_false_iff, !bool_decide_eq_false.
    repeat split; congruence. }
  split; [done|].
  split; by apply (merge_not_mergeable _ _ _ _ s o).
Qed.
(** A merge in place ([copyOnMerge=False]) of two distinct objects that
    pass the checks returns the receiver itself: the receiver then holds
    the merged filters, the object metadata of the incoming dataset over
    its own and the external resources of both; the incoming dataset is
    not changed. *)
Theorem merge_in_place self other σ s o :
  σ !! self = Some s -> σ !! other = Some o -> self <> other ->
  mergeable (className s) (className o) = true ->
  filters_pass s o = true ->
  _checkObjMetadata (objMetadata o) (filtered_receiver s o) = Returned tt ->
  exists σ' r,
    merge self other false σ = (σ', Returned (Some self)) /\
    σ' !! self = Some r /\
    className r = className s /\
    filters r = Filters_merge (filters s) (filters o) /\
    objMetadata r = objMetadata o ∪ objMetadata s /\
    externalResources r
    = ExternalResources_merge (externalResources s) (externalResources o) /\
    σ' !! other = Some o.
Proof.
  intros Hs Ho Hne Hm Hf Hchk.
  rewrite (merge_unfold _ _ _ _ _ _ Hs Ho Hm Hf), Hchk.
  set (σ1 := <[self := merged_receiver s o]> σ).
  assert (σ1 !! self = Some (merged_receiver s o)) as Hs1
    by apply lookup_insert_eq.
  assert (σ1 !! other = Some o) as Ho1.
  { unfold σ1. by rewrite lookup_insert_ne. }
  destruct (merge_into_spec (Nat.eqb (length (externalResources s)) 0)
              self other self σ1 _ o _ Hs1 Ho1 Hs1)
    as (σ' & r & Hrun & Hframe & Hr & Hcls & Hom & Hfil & _ & Hext).
  exists σ', r. split.
  { erewrite bind_Returned; [exact Hrun|reflexivity]. }
  split; [done|]. split; [by rewrite Hcls|]. split; [by rewrite Hfil|].
  split; [by rewrite Hom|]. split; [by rewrite Hext|].
  rewrite Hframe; [done|done|by eexists].
Qed.
End MergeOutcomeFacts.

Lemma merge_type_check_witness :
  mergeable AlignmentSet SubreadSet = false /\
  @merge sample_collaborators 0 1 true store_two_classes
  = (store_two_classes, Raised TypeError) /\
  @__add__ sample_collaborators 0 1 store_two_classes
  = (store_two_classes, Raised TypeError).
Proof.
  exact (@merge_type_check sample_collaborators 0%nat 1%nat true
           store_two_classes _ _ eq_refl eq_refl ltac:(done) ltac:(done)
           ltac:(done)).
Defined.
Lemma merge_in_place_witness :
  exists σ' r,
    @merge sample_collaborators 0 1 false store_compatible
    = (σ', Returned (Some 0%nat)) /\
    σ' !! 0%nat = Some r /\
    className r = AlignmentSet /\
    filters r = [] /\
    objMetadata r = {[ "Name" := "right" ]} ∪ {[ "Name" := "left" ]} /\
    externalResources r = [bam1; bam2] /\
    σ' !! 1%nat = Some (fresh_dataset AlignmentSet {[ "Name" := "right" ]} [bam2] []).
Proof.
  exact (@merge_in_place sample_collaborators 0%nat 1%nat store_compatible
           _ _ eq_refl eq_refl ltac:(done) eq_refl eq_refl eq_refl).
Defined.

End MergeOutcomeFacts.

Module MetaTypesFacts.
Import Py DataSetModel Errors MetaTypes.

Lemma isValid_cases (dsId : string) :
  isValid dsId = true ->
  dsId ∈ ALL.
Proof. unfold isValid. by rewrite bool_decide_eq_true. Qed.

(** The MetaType ids: [_dsIdToName] returns exactly on the eight valid ids
    and raises InvalidDataSetIOError on every other string; on a valid id
    it undoes [_toDsId], the name it returns is that of the class
    [_dsIdToType] gives, and the suffix of the id is that name in lower
    case followed by [.xml]. *)
Theorem dsId_round_trip (dsId : string) :
  (isValid dsId = false ->
   _dsIdToName dsId = Err InvalidDataSetIOError /\
   _dsIdToType dsId = Err InvalidDataSetIOError /\
   _dsIdToSuffix dsId = Err InvalidDataSetIOError) /\
  (isValid dsId = true ->
   exists name c,
     _dsIdToName dsId = Ok name /\ _toDsId name = dsId /\
     _dsIdToType dsId = Ok c /\ class_name c = name /\
     _dsIdToSuffix dsId = Ok (py_lower name +:+ ".xml")).
Proof.
  split.
  - intros Hv. unfold _dsIdToName, _dsIdToType, _dsIdToSuffix. rewrite Hv.
    by vm_compute.
  - intros Hv. unfold _dsIdToName, _dsIdToType, _dsIdToSuffix, _dsIdToName.
    rewrite Hv. apply isValid_cases in Hv. unfold ALL in Hv.
    repeat (apply elem_of_cons in Hv as [->|Hv];
            [eexists _, _; vm_compute; repeat split; reflexivity|]).
    by apply elem_of_nil in Hv.
Qed.

Lemma py_split_nonempty sep s : py_split sep s <> [].
Proof. destruct s as [|c s]; simpl; [done|]. by repeat case_match. Qed.

Lemma py_split_no_sep sep (s : string) :
  (forall c, In c (String.list_ascii_of_string s) -> c <> sep) ->
  py_split sep s = [s].
Proof.
  induction s as [|c s IH]; intros Hs; [done|]. simpl.
  destruct (Ascii.eqb_spec c sep) as [->|Hne].
  { exfalso. apply (Hs sep); [by left|done]. }
  rewrite IH; [done|]. intros c' Hc'. apply Hs. by right.
Qed.

Lemma last_cons_nonempty (w : string) (ws : list string) :
  ws <> [] -> List.last (w :: ws) "" = List.last ws "".
Proof. by destruct ws. Qed.

Lemma py_last_split_app sep (p s : string) :
  py_last (py_split sep (p +:+ String sep s)) = py_last (py_split sep s).
Proof.
  unfold py_last. induction p as [|c p IH].
  - simpl. rewrite Ascii.eqb_refl.
    apply last_cons_nonempty, py_split_nonempty.
  - simpl.
    pose proof (py_split_nonempty sep (p +:+ String sep s)) as Hne.
    destruct (Ascii.eqb c sep).
    + by rewrite last_cons_nonempty.
    + destruct (py_split sep (p +:+ String sep s)) as [|w ws] eqn:E; [done|].
      rewrite <- IH. destruct ws as [|w' ws]; [|done].
      exfalso. clear -E.
      assert (2 <= length (py_split sep (p +:+ String sep s)))%nat as Hlen.
      { clear. induction p as [|c p IH]; simpl.
        - rewrite Ascii.eqb_refl. simpl.
          pose proof (py_split_nonempty sep s).
          destruct (py_split sep s); [done|simpl; lia].
        - destruct (Ascii.eqb c sep); [simpl; lia|].
          destruct (py_split sep (p +:+ String sep s)); simpl in *; lia. }
      rewrite E in Hlen. simpl in Hlen. lia.
Qed.

(** The scheme of the ids: for every class name without a dot, the last
    piece of [_toDsId(name)] between dots is the name; and the id of the
    base class, which is not in [ALL], is refused by the three
    translations, so that [isDataSet] is False for a file whose root tag is
    [DataSet], although [_dsIdToSuffix] prepares an entry for it. *)
Theorem toDsId_last_piece (name : string) :
  (forall c, In c (String.list_ascii_of_string name) -> c <> dot) ->
  py_last (py_split dot (_toDsId name)) = name /\
  isValid (_toDsId "DataSet") = false /\
  _typeDataSet "DataSet" = Err InvalidDataSetIOError /\
  isDataSet (Ok "DataSet") = false /\
  _dsIdToSuffix (_toDsId "DataSet") = Err InvalidDataSetIOError.
Proof.
  intros Hname. split; [|by vm_compute].
  unfold _toDsId.
  change ("PacBio.DataSet." +:+ name)
    with ("PacBio" +:+ String dot ("DataSet" +:+ String dot name)).
  rewrite py_last_split_app.
  rewrite py_last_split_app.
  by rewrite py_split_no_sep.
Qed.

Lemma dsId_round_trip_witness :
  (isValid "PacBio.DataSet.AlignmentSet" = true ->
   exists name c,
     _dsIdToName "PacBio.DataSet.AlignmentSet" = Ok name /\
     _toDsId name = "PacBio.DataSet.AlignmentSet" /\
     _dsIdToType "PacBio.DataSet.AlignmentSet" = Ok c /\
     class_name c = name /\
     _dsIdToSuffix "PacBio.DataSet.AlignmentSet"
     = Ok (py_lower name +:+ ".xml")) /\
  isValid "PacBio.DataSet.AlignmentSet" = true /\
  (isValid "AlignmentSet" = false ->
   _dsIdToName "AlignmentSet" = Err InvalidDataSetIOError /\
   _dsIdToType "AlignmentSet" = Err InvalidDataSetIOError /\
   _dsIdToSuffix "AlignmentSet" = Err InvalidDataSetIOError).
Proof.
  split; [exact (proj2 (dsId_round_trip "PacBio.DataSet.AlignmentSet"))|].
  split; [by vm_compute|exact (proj1 (dsId_round_trip "AlignmentSet"))].
Defined.

Lemma toDsId_last_piece_witness :
  py_last (py_split dot (_toDsId "TranscriptSet")) = "TranscriptSet" /\
  isValid (_toDsId "DataSet") = false /\
  _typeDataSet "DataSet" = Err InvalidDataSetIOError /\
  isDataSet (Ok "DataSet") = false /\
  _dsIdToSuffix (_toDsId "DataSet") = Err InvalidDataSetIOError.
Proof.
  apply (toDsId_last_piece "TranscriptSet"). intros c Hc.
  simpl in Hc. repeat (destruct Hc as [<-|Hc]; [done|]). done.
Defined.

End MetaTypesFacts.

Module ResponsesFacts.
Import Py DataSetModel Iteration Errors Responses Samples.

Section UnifyFacts.
Context {A K : Type} (keyFunc : A -> K) (eqFunc : K -> K -> bool).

Lemma check_rest_spec (first : A) (rest : list A) :
  (check_rest keyFunc eqFunc first rest = Ok tt <->
   Forall (fun x => eqFunc (keyFunc first) (keyFunc x) = true) rest) /\
  (check_rest keyFunc eqFunc first rest = Err ResourceMismatchError <->
   Exists (fun x => eqFunc (keyFunc first) (keyFunc x) = false) rest).
Proof.
  induction rest as [|x rest [IH1 IH2]]; simpl.
  - split; [split; [constructor|done]|]. split; [done|by inversion 1].
  - destruct (eqFunc (keyFunc first) (keyFunc x)) eqn:E; simpl.
    + rewrite IH1, IH2, Forall_cons, Exists_cons. split; [tauto|].
      split; [tauto|]. intros [?|?]; [congruence|done].
    + rewrite Forall_cons, Exists_cons. split; [|tauto].
      split; [done|]. intros [? _]; congruence.
Qed.

(** [_unifyResponses] answers with the first response exactly when it
    agrees with every later one; it raises ResourceMismatchError exactly
    when a later response differs from the first, and IndexError exactly
    when there is no response; it does nothing else. *)
Theorem unifyResponses_spec (responses : list A) :
  (forall r, _unifyResponses keyFunc eqFunc responses = Ok r <->
     exists rest, responses = r :: rest /\
       Forall (fun x => eqFunc (keyFunc r) (keyFunc x) = true) rest) /\
  (_unifyResponses keyFunc eqFunc responses = Err ResourceMismatchError <->
     exists r rest, responses = r :: rest /\
       Exists (fun x => eqFunc (keyFunc r) (keyFunc x) = false) rest) /\
  (_unifyResponses keyFunc eqFunc responses = Err (Builtin IndexError) <->
     responses = []) /\
  (forall e, _unifyResponses keyFunc eqFunc responses = Err e ->
     e = ResourceMismatchError \/ e = Builtin IndexError).
Proof.
  destruct responses as [|first rest].
  { simpl. split; [|split; [|split]].
    - intros r. split; [done|]. by intros (? & ? & _).
    - split; [done|]. by intros (? & ? & ? & _).
    - done.
    - intros e [= <-]. by right. }
  unfold _unifyResponses.
  assert ((if (1 <? length (first :: rest))%nat
           then check_rest keyFunc eqFunc first rest else Ok tt)
          = check_rest keyFunc eqFunc first rest) as ->.
  { destruct rest; [done|]. done. }
  destruct (check_rest_spec first rest) as [H1 H2].
  destruct (check_rest keyFunc eqFunc first rest) as [[]|e] eqn:E.
  - split; [|split; [|split]]; try done.
    + intros r. split.
      * intros [= <-]. exists rest. split; [done|]. by apply H1.
      * by intros (rest' & [= <- <-] & _).
    + split; [done|]. intros (r & rest' & [= <- <-] & Hex).
      apply H2 in Hex. done.
  - assert (e = ResourceMismatchError) as ->.
    { clear -E. induction rest as [|x rest IH]; simpl in E; [done|].
      destruct (negb _); [by simplify_eq|by apply IH]. }
    split; [|split; [|split]]; try done.
    + intros r. split; [done|]. intros (rest' & [= <- <-] & Hall).
      apply H1 in Hall. done.
    + split; [|done]. intros _. exists first, rest. split; [done|].
      by apply H2.
    + intros e [= <-]. by left.
Qed.
End UnifyFacts.

(** [hasPbi] of a ReadSet: True exactly when there is a reader and every
    reader is an IndexedBamReader; when the readers disagree with the first
    one, False if the dataset is not strict and ResourceMismatchError if it
    is; IndexError when there is no reader.  With a reader and without
    strictness the answer is whether every reader is indexed. *)
Theorem hasPbi_spec (strict : bool) (readers : list Reader) :
  (hasPbi strict readers = Ok true <->
   readers <> [] /\ Forall (fun rr => reader_indexed rr = true) readers) /\
  (hasPbi strict readers = Err (Builtin IndexError) <-> readers = []) /\
  (hasPbi strict readers = Err ResourceMismatchError <->
   strict = true /\
   exists rr rest, readers = rr :: rest /\
     Exists (fun x => reader_indexed x <> reader_indexed rr) rest) /\
  (readers <> [] -> strict = false ->
   hasPbi strict readers = Ok (Iteration.hasPbi readers)).
Proof.
  unfold hasPbi, _pollResources.
  destruct readers as [|rr rest].
  { simpl. split; [|split; [|split]]; try done.
    - split; [done|]. by intros [? _].
    - split; [done|]. by intros (_ & ? & ? & ? & _). }
  rewrite fmap_cons. unfold _unifyResponses.
  assert ((if (1 <? length (reader_indexed rr :: (reader_indexed <$> rest)))%nat
           then check_rest (fun x => x) Bool.eqb (reader_indexed rr)
                  (reader_indexed <$> rest)
           else Ok tt)
          = check_rest (fun x => x) Bool.eqb (reader_indexed rr)
              (reader_indexed <$> rest)) as ->.
  { destruct rest; done. }
  destruct (check_rest_spec (fun x : bool => x) Bool.eqb (reader_indexed rr)
              (reader_indexed <$> rest)) as [H1 H2].
  assert (Forall (fun x => Bool.eqb (reader_indexed rr) x = true)
            (reader_indexed <$> rest) <->
          Forall (fun x => reader_indexed x = reader_indexed rr) rest) as HF.
  { rewrite Forall_fmap. apply Forall_proper; [|done]. intros x. simpl.
    rewrite Bool.eqb_true_iff. split; congruence. }
  assert (Exists (fun x => Bool.eqb (reader_indexed rr) x = false)
            (reader_indexed <$> rest) <->
          Exists (fun x => reader_indexed x <> reader_indexed rr) rest) as HE.
  { rewrite Exists_fmap. apply Exists_proper; [|done]. intros x. simpl.
    rewrite Bool.eqb_false_iff. split; congruence. }
  destruct (check_rest (fun x => x) Bool.eqb (reader_indexed rr)
              (reader_indexed <$> rest)) as [[]|e] eqn:E.
  - assert (Forall (fun x => reader_indexed x = reader_indexed rr) rest) as Hall
      by (by apply HF, H1).
    split; [|split; [|split]].
    + split.
      * intros [= Hrr]. split; [done|]. constructor; [done|].
        eapply Forall_impl; [exact Hall|]. simpl. congruence.
      * intros [_ Hi]. apply Forall_cons in Hi as [-> _]. done.
    + done.
    + split; [done|]. intros (_ & rr' & rest' & [= <- <-] & Hex).
      apply HE, H2 in Hex. done.
    + intros _ _. f_equal. unfold Iteration.hasPbi. simpl.
      destruct (reader_indexed rr) eqn:Hrr; simpl.
      * symmetry. apply forallb_forall. intros x Hx.
        rewrite Forall_forall in Hall. apply Hall. by apply list_elem_of_In.
      * done.
  - assert (e = ResourceMismatchError) as ->.
    { clear -E. induction rest as [|x rest IH]; simpl in E; [done|].
      destruct (negb _); [by simplify_eq|by apply IH]. }
    assert (Exists (fun x => reader_indexed x <> reader_indexed rr) rest) as Hex
      by (by apply HE, H2).
    assert (~ Forall (fun rr0 => reader_indexed rr0 = true) (rr :: rest))
      as Hnot.
    { intros Hall. apply Forall_cons in Hall as [Hrr Hall].
      apply Exists_exists in Hex as (x & Hx & Hne).
      rewrite Forall_forall in Hall. apply Hne. rewrite Hrr. by apply Hall. }
    destruct strict; simpl.
    + split; [|split; [|split]]; try done.
      * split; [done|]. by intros [_ ?].
      * split; [|done]. intros _. split; [done|]. by exists rr, rest.
    + split; [|split; [|split]]; try done.
      * split; [done|]. by intros [_ ?].
      * split; [done|]. by intros [? _].
      * intros _ _. f_equal. unfold Iteration.hasPbi. simpl.
        symmetry. apply andb_false_iff.
        destruct (reader_indexed rr) eqn:Hrr; [right|by left].
        apply not_true_is_false. intros Hall. apply Hnot.
        constructor; [done|]. apply Forall_forall. intros x Hx.
        rewrite forallb_forall in Hall. apply Hall. by apply list_elem_of_In.
Qed.

End ResponsesFacts.

Module IndexRecordsFacts.
Import Py DataSetModel Iteration Errors IndexRecords Samples IterationFacts.

Lemma nonzero_from_spec (k : nat) (mask : list bool) :
  forall i, i ∈ nonzero_from k mask <->
    (k <= i)%nat /\ mask !! (i - k)%nat = Some true.
Proof.
  revert k. induction mask as [|b mask IH]; intros k i.
  - simpl. split; [by intros ?%elem_of_nil|by intros [_ ?]].
  - assert (i ∈ nonzero_from (S k) mask <->
            (S k <= i)%nat /\ (b :: mask) !! (i - k)%nat = Some true) as Hrest.
    { rewrite IH. split; intros [Hle Hl]; (split; [done|]).
      - replace (i - k)%nat with (S (i - S k)) by lia. done.
      - replace (i - k)%nat with (S (i - S k)) in Hl by lia. done. }
    destruct b; simpl.
    + rewrite elem_of_cons, Hrest. split.
      * intros [->|[Hle Hl]]; [by rewrite Nat.sub_diag|split; [lia|done]].
      * intros [Hle Hl]. destruct (decide (i = k)) as [->|Hne]; [by left|].
        right. split; [lia|done].
    + rewrite Hrest. split; intros [Hle Hl]; (split; [lia|done]) || idtac.
      split; [|done]. destruct (decide (i = k)) as [->|Hne]; [|lia].
      rewrite Nat.sub_diag in Hl. done.
Qed.

Lemma mask_select_nonzero {A} (k : nat) (mask : list bool) (a : list A) :
  length mask = length a ->
  length (mask_select mask a) = length (nonzero_from k mask) /\
  forall j i, nonzero_from k mask !! j = Some i ->
    (k <= i)%nat /\ mask_select mask a !! j = a !! (i - k)%nat.
Proof.
  revert k a. induction mask as [|b mask IH]; intros k [|x a] Hlen;
    simplify_eq/=; [done|].
  destruct (IH (S k) a Hlen) as [IHlen IHl].
  destruct b; simpl.
  - split; [by rewrite IHlen|]. intros [|j] i Hj; simplify_eq/=.
    + by rewrite Nat.sub_diag.
    + destruct (IHl j i Hj) as [Hle ->]. split; [lia|].
      by replace (i - k)%nat with (S (i - S k)) by lia.
  - split; [done|]. intros j i Hj.
    destruct (IHl j i Hj) as [Hle ->]. split; [lia|].
    by replace (i - k)%nat with (S (i - S k)) by lia.
Qed.

Lemma nonzero_from_increasing (k : nat) (mask : list bool) :
  Sorted lt (nonzero_from k mask) /\
  Forall (fun i => (k <= i)%nat) (nonzero_from k mask).
Proof.
  revert k. induction mask as [|b mask IH]; intros k; simpl;
    [by split; constructor|].
  destruct (IH (S k)) as [Hs Hf].
  assert (Forall (fun i => (k <= i)%nat) (nonzero_from (S k) mask)) as Hf'.
  { eapply Forall_impl; [exact Hf|]. simpl. lia. }
  destruct b; [|done]. split; [|by constructor].
  constructor; [done|].
  destruct (nonzero_from (S k) mask); constructor.
  apply Forall_cons in Hf as [Hn _]. lia.
Qed.

Lemma Sorted_lt_seq (s n : nat) : Sorted lt (seq s n).
Proof.
  revert s. induction n as [|n IH]; intros s; simpl; [constructor|].
  constructor; [apply IH|]. destruct n; constructor. lia.
Qed.

Lemma sorted_positions (rrNum : nat) (l : list nat) :
  Sorted lt l -> Sorted position_lt ((fun i => (rrNum, i)) <$> l).
Proof.
  induction 1 as [|i l Hs IH Hhd]; simpl; [constructor|].
  constructor; [done|]. destruct Hhd; constructor. right. simpl. lia.
Qed.

Section IndexRecordsFacts.
Variable Filters_bool : Filters -> bool.
Variable filterIndexRecords : Filters -> Reader -> list bool.

Local Abbreviation index_of_reader := (index_of_reader Filters_bool filterIndexRecords).
Local Abbreviation index_loop := (index_loop Filters_bool filterIndexRecords).
Local Abbreviation _indexRecords := (_indexRecords Filters_bool filterIndexRecords).
Local Abbreviation index := (index Filters_bool filterIndexRecords).
Local Abbreviation getitem_int := (getitem_int Filters_bool filterIndexRecords).
Local Abbreviation masks_fit := (masks_fit filterIndexRecords).

Lemma index_of_reader_aligned (d : DataSet) (rrNum : nat) (rr : Reader) :
  length (filterIndexRecords (filters d) rr) = length (reader_index rr) ->
  let here := index_of_reader d rrNum rr in
  length here.1 = length here.2 /\
  (forall k t, here.2 !! k = Some t ->
     t.1 = rrNum /\ here.1 !! k = reader_index rr !! t.2 /\
     is_Some (reader_index rr !! t.2)) /\
  Sorted position_lt here.2.
Proof.
  intros Hfit. cbv zeta. unfold index_of_reader.
  destruct (negb (Filters_bool (filters d)) || noFiltering d); cbn [fst snd].
  - split; [by rewrite length_fmap, length_seq|]. split.
    + intros k t Hk. rewrite list_lookup_fmap in Hk.
      destruct (seq 0 (length (reader_index rr)) !! k) as [i|] eqn:Hi;
        [|done].
      apply lookup_seq in Hi as [-> Hlt]. simplify_eq/=.
      split; [done|]. split; [done|]. by apply lookup_lt_is_Some.
    + apply sorted_positions, Sorted_lt_seq.
  - destruct (mask_select_nonzero 0 _ (reader_index rr) Hfit) as [Hlen Hl].
    split; [by rewrite length_fmap|]. split.
    + intros k t Hk. rewrite list_lookup_fmap in Hk.
      destruct (nonzero_from 0 (filterIndexRecords (filters d) rr) !! k)
        as [i|] eqn:Hi; [|done].
      simplify_eq/=. destruct (Hl k i Hi) as [_ Hrow].
      rewrite Nat.sub_0_r in Hrow. split; [done|]. split; [done|].
      apply lookup_lt_is_Some. rewrite <- Hfit.
      assert (i ∈ nonzero_from 0 (filterIndexRecords (filters d) rr)) as Hin
        by (by eapply list_elem_of_lookup_2).
      apply nonzero_from_spec in Hin as [_ Hin]. rewrite Nat.sub_0_r in Hin.
      by eapply lookup_lt_Some.
    + apply sorted_positions, nonzero_from_increasing.
Qed.

Lemma index_loop_aligned (d : DataSet) (rrNum : nat) (readers : list Reader) :
  masks_fit d readers ->
  let r := index_loop d rrNum readers in
  length r.1 = length readers /\
  length (concat r.1) = length r.2 /\
  (forall k t, r.2 !! k = Some t ->
     (rrNum <= t.1)%nat /\
     exists rr row, readers !! (t.1 - rrNum)%nat = Some rr /\
       reader_index rr !! t.2 = Some row /\ concat r.1 !! k = Some row) /\
  Sorted position_lt r.2.
Proof.
  intros Hfit. revert rrNum. induction Hfit as [|rr readers Hrr Hfit IH];
    intros rrNum; cbv zeta.
  { simpl. repeat split; try done; constructor. }
  cbn [index_loop fst snd concat].
  destruct (index_of_reader_aligned d rrNum rr Hrr) as (Hlen1 & Hl1 & Hs1).
  destruct (IH (S rrNum)) as (Hn2 & Hlen2 & Hl2 & Hs2).
  split; [simpl; by rewrite Hn2|].
  split; [by rewrite !length_app, Hlen1, Hlen2|]. split.
  - intros k t Hk. apply lookup_app_Some in Hk as [Hk|[Hge Hk]].
    + destruct (Hl1 k t Hk) as (-> & Hrow & [row Hr]).
      split; [done|]. exists rr, row. rewrite Nat.sub_diag.
      split; [done|]. split; [done|].
      rewrite lookup_app_l by (rewrite Hlen1; by eapply lookup_lt_Some).
      by rewrite Hrow.
    + destruct (Hl2 _ t Hk) as (Hle & rr' & row & Hrr' & Hrow & Hc).
      split; [lia|]. exists rr', row.
      replace (t.1 - rrNum)%nat with (S (t.1 - S rrNum)) by lia.
      split; [done|]. split; [done|].
      rewrite lookup_app_r by (rewrite Hlen1; lia).
      by rewrite Hlen1.
  - assert (Forall (fun t => t.1 = rrNum)
              (index_of_reader d rrNum rr).2) as Hhere.
    { apply Forall_forall. intros t Ht.
      apply list_elem_of_lookup in Ht as [k Hk]. by destruct (Hl1 k t Hk). }
    assert (Forall (fun t => (S rrNum <= t.1)%nat)
              (index_loop d (S rrNum) readers).2) as Hthere.
    { apply Forall_forall. intros t Ht.
      apply list_elem_of_lookup in Ht as [k Hk]. by destruct (Hl2 k t Hk). }
    revert Hs1 Hhere.
    generalize (index_of_reader d rrNum rr).2.
    induction 1 as [|a l Hs IHs Hhd]; intros Hall; simpl; [done|].
    apply Forall_cons in Hall as [Ha Hall].
    constructor; [by apply IHs|].
    destruct Hhd as [|b l Hab]; simpl; [|by constructor].
    destruct Hthere as [|c l' Hc _]; constructor. left. lia.
Qed.

Lemma indexRecords_positions (d : DataSet) (readers : list Reader) :
  masks_fit d readers -> readers <> [] ->
  exists idx m,
    _indexRecords d readers = (set_indexMap (Some m) d, Ok idx) /\
    length idx = length m /\
    (forall k t, m !! k = Some t ->
       exists rr row, readers !! t.1 = Some rr /\
         reader_index rr !! t.2 = Some row /\ idx !! k = Some row) /\
    Sorted position_lt m.
Proof.
  intros Hfit Hne.
  destruct (index_loop_aligned d 0 readers Hfit) as (Hn & Hlen & Hl & Hs).
  unfold IndexRecords._indexRecords, _stackRecArrays.
  destruct (index_loop d 0 readers).1 as [|a recs] eqn:Hrecs.
  { destruct readers; [done|]. simpl in Hn. done. }
  eexists _, _. split; [done|]. split; [done|].
  split; [|done]. intros k t Hk.
  destruct (Hl k t Hk) as (_ & rr & row & Hrr & Hrow & Hc).
  rewrite Nat.sub_0_r in Hrr. by exists rr, row.
Qed.

(** [_indexRecords] of a ReadSet: without reader it raises the ValueError
    of an empty concatenation; with readers (and masks as long as the
    tables) it returns the pooled index and leaves a map of the same
    length, whose entry [k] names the reader and the row of that reader
    that entry [k] of the index is; the map runs through the readers in
    order and through the rows of each in order, so that no position is
    there twice; the other members of the dataset stay as they were. *)
Theorem indexRecords_aligned (d : DataSet) (readers : list Reader) :
  masks_fit d readers ->
  (readers = [] -> (_indexRecords d readers).2 = Err (Builtin ValueError)) /\
  (readers <> [] ->
   exists idx m,
     _indexRecords d readers = (set_indexMap (Some m) d, Ok idx) /\
     length idx = length m /\
     (forall k t, m !! k = Some t ->
        exists rr row, readers !! t.1 = Some rr /\
          reader_index rr !! t.2 = Some row /\ idx !! k = Some row) /\
     Sorted position_lt m).
Proof.
  intros Hfit. split; [by intros ->|]. by apply indexRecords_positions.
Qed.

(** With the filters off, or without filter, the pooled index is the
    tables of the readers one after the other, and the map lists every row
    of every reader. *)
Theorem indexRecords_unfiltered (d : DataSet) (readers : list Reader) :
  negb (Filters_bool (filters d)) || noFiltering d = true ->
  readers <> [] ->
  exists m,
    _indexRecords d readers
    = (set_indexMap (Some m) d, Ok (concat (reader_index <$> readers))) /\
    forall rrNo rr recNo, readers !! rrNo = Some rr ->
      (recNo < length (reader_index rr))%nat -> (rrNo, recNo) ∈ m.
Proof.
  intros Hoff Hne.
  assert (forall rrNum,
            (index_loop d rrNum readers).1 = reader_index <$> readers /\
            forall rrNo rr recNo, readers !! rrNo = Some rr ->
              (recNo < length (reader_index rr))%nat ->
              ((rrNum + rrNo)%nat, recNo) ∈ (index_loop d rrNum readers).2)
    as Hloop.
  { clear Hne. induction readers as [|rr readers IH]; intros rrNum;
      [by split|].
    destruct (IH (S rrNum)) as [IH1 IH2].
    cbn [index_loop fst snd]. unfold IndexRecords.index_of_reader.
    rewrite Hoff. cbn [fst snd]. split; [by rewrite fmap_cons, IH1|].
    intros [|rrNo] rr' recNo Hrr Hrec; simplify_eq/=; apply elem_of_app.
    - left. rewrite Nat.add_0_r.
      apply (list_elem_of_fmap_2 (fun i => (rrNum, i))).
      apply elem_of_seq. lia.
    - right. replace (rrNum + S rrNo)%nat with (S rrNum + rrNo)%nat by lia.
      by eapply IH2. }
  destruct (Hloop 0%nat) as [H1 H2].
  unfold _indexRecords, _stackRecArrays. rewrite H1.
  destruct readers as [|rr readers]; [done|].
  eexists. split; [done|]. intros rrNo rr' recNo Hrr Hrec.
  by apply (H2 rrNo rr' recNo).
Qed.

Lemma getRecords_served readers (P : list ((nat * nat) * BamAlignment))
    (buffsize : Z) :
  1 <= buffsize -> Forall (served readers) P ->
  _getRecords readers P.*1 buffsize = (P.*2, None).
Proof.
  intros Hb HP. unfold _getRecords.
  destruct (Z.eqb_spec buffsize 1) as [->|Hne];
    [by apply getRecords_single_served|].
  rewrite cleanBuffs_buffers_of.
  change (@nil (nat * nat)) with ((@nil ((nat * nat) * BamAlignment)).*1).
  rewrite (getRecords_buffered_served readers buffsize [] P); [done|done|done|].
  simpl. lia.
Qed.

(** Reading by the pooled index: when every reader holds as many records as
    its table has rows, the positions that [_indexRecords] leaves in the map
    all exist, so that [_getRecords] over the map, one record at a time or
    through buffers, yields one record per row of the index, the record of
    that row, and ends without raising. *)
Theorem indexRecords_records (d : DataSet) (readers : list Reader)
    (buffsize : Z) :
  masks_fit d readers ->
  Forall (fun rr => length (reader_rows rr) = length (reader_index rr))
    readers ->
  readers <> [] -> 1 <= buffsize ->
  exists idx m recs,
    _indexRecords d readers = (set_indexMap (Some m) d, Ok idx) /\
    _getRecords readers m buffsize = (recs, None) /\
    length recs = length idx /\
    forall k t, m !! k = Some t -> recs !! k = fetch readers t.
Proof.
  intros Hfit Hrows Hne Hb.
  destruct (indexRecords_positions d readers Hfit Hne)
    as (idx & m & Hrun & Hlen & Hl & _).
  assert (exists P : list ((nat * nat) * BamAlignment),
            P.*1 = m /\ Forall (served readers) P) as (P & <- & HP).
  { assert (forall k t, m !! k = Some t ->
              exists rr row, readers !! t.1 = Some rr /\
                reader_index rr !! t.2 = Some row) as Hl'.
    { intros k t Hk. destruct (Hl k t Hk) as (rr & row & ? & ? & _).
      by exists rr, row. }
    clear Hrun Hlen Hl. induction m as [|t m IH]; [by exists []|].
    destruct IH as (P & <- & HP).
    { intros k t' Hk. by apply (Hl' (S k)). }
    destruct (Hl' 0%nat t eq_refl) as (rr & row & Hrr & Hrow).
    rewrite Forall_forall in Hrows.
    assert (is_Some (reader_rows rr !! t.2)) as [r Hr].
    { apply lookup_lt_is_Some. rewrite (Hrows rr).
      - by eapply lookup_lt_Some.
      - by eapply list_elem_of_lookup_2. }
    exists ((t, r) :: P). split; [done|]. constructor; [|done].
    unfold served, fetch. simpl. rewrite Hrr. done. }
  exists idx, P.*1, P.*2. split; [done|].
  split; [by apply getRecords_served|].
  split; [by rewrite Hlen, !length_fmap|].
  intros k t Hk. rewrite list_lookup_fmap in Hk. rewrite list_lookup_fmap.
  destruct (P !! k) as [p|] eqn:Hp; [|done]. simplify_eq/=.
  rewrite Forall_forall in HP. symmetry. apply HP.
  by eapply list_elem_of_lookup_2.
Qed.

(** [ds[i]] for an integer, with the index and its map in place and of one
    length [n]: the record is the one the map names at [i] for
    [0 <= i < n]; the dataset is not changed; a negative [i] down to [-n]
    counts from the end; [i >= n] raises IndexError.  Since the index is
    moved up by [n] and then looked up the Python way, an [i] from [-2n] to
    [-n - 1] is not refused: it counts from the end once more; only below
    [-2n] is it an IndexError. *)
Theorem getitem_int_wraps (d : DataSet) (readers : list Reader)
    (idx : list IndexRow) (m : list (nat * nat)) (i : Z) :
  _index d = Some idx -> _indexMap d = Some m -> length m = length idx ->
  let n := Z.of_nat (length idx) in
  (getitem_int d readers i).1 = d /\
  (0 <= i < n ->
   exists t, m !! Z.to_nat i = Some t /\
     (getitem_int d readers i).2 = record_at readers t) /\
  (- n <= i < 0 ->
   (getitem_int d readers i).2 = (getitem_int d readers (i + n)).2) /\
  (- 2 * n <= i < - n ->
   (getitem_int d readers i).2 = (getitem_int d readers (i + 2 * n)).2) /\
  (n <= i \/ i < - 2 * n ->
   (getitem_int d readers i).2 = Err (Builtin IndexError)).
Proof.
  intros Hidx Hmap Hlen. cbv zeta.
  assert (forall j, getitem_int d readers j
            = match py_nth m (if j <? 0 then Z.of_nat (length idx) + j else j)
              with
              | None => (d, Err (Builtin IndexError))
              | Some t => (d, record_at readers t)
              end) as Hget.
  { intros j. unfold IndexRecords.getitem_int, IndexRecords.index.
    rewrite Hmap. cbn [fst snd]. rewrite Hidx.
    destruct (j <? 0); cbn [fst snd]; by rewrite Hmap. }
  assert (forall j, 0 <= j < Z.of_nat (length idx) ->
            exists t, m !! Z.to_nat j = Some t /\ py_nth m j = Some t) as Hin.
  { intros j Hj. destruct (lookup_lt_is_Some_2 m (Z.to_nat j)) as [t Ht];
      [lia|].
    exists t. split; [done|]. unfold py_nth.
    destruct (Z.ltb_spec j 0); [lia|done]. }
  assert (forall j, - Z.of_nat (length idx) <= j < 0 ->
            py_nth m j = py_nth m (Z.of_nat (length idx) + j)) as Hneg.
  { intros j Hj. unfold py_nth. rewrite Hlen.
    destruct (Z.ltb_spec j 0); [|lia].
    destruct (Z.leb_spec (- j) (Z.of_nat (length idx))); [|lia].
    destruct (Z.ltb_spec (Z.of_nat (length idx) + j) 0); [lia|done]. }
  assert (forall j, Z.of_nat (length idx) <= j \/ j < - Z.of_nat (length idx) ->
            py_nth m j = None) as Hout.
  { intros j Hj. unfold py_nth. rewrite Hlen.
    destruct (Z.ltb_spec j 0).
    - destruct (Z.leb_spec (- j) (Z.of_nat (length idx))); [lia|done].
    - apply lookup_ge_None. lia. }
  split; [|split; [|split; [|split]]].
  - rewrite Hget. by destruct (py_nth m _).
  - intros Hi. destruct (Hin i Hi) as (t & Ht & Hpy). exists t.
    split; [done|]. rewrite Hget.
    destruct (Z.ltb_spec i 0); [lia|]. by rewrite Hpy.
  - intros Hi. rewrite !Hget.
    destruct (Z.ltb_spec i 0); [|lia].
    destruct (Z.ltb_spec (i + Z.of_nat (length idx)) 0); [lia|].
    by rewrite (Z.add_comm i).
  - intros Hi. rewrite !Hget.
    destruct (Z.ltb_spec i 0); [|lia].
    destruct (Z.ltb_spec (i + 2 * Z.of_nat (length idx)) 0); [lia|].
    rewrite Hneg by lia. f_equal; lia || (do 2 f_equal; lia) || idtac.
    replace (Z.of_nat (length idx) + (Z.of_nat (length idx) + i))
      with (i + 2 * Z.of_nat (length idx)) by lia. done.
  - intros Hi. rewrite Hget.
    destruct (Z.ltb_spec i 0).
    + rewrite Hout; [done|]. lia.
    + rewrite Hout; [done|]. lia.
Qed.
End IndexRecordsFacts.

Lemma sample_masks_fit :
  masks_fit sample_filterIndexRecords ds_window [reader_A; reader_B].
Proof. repeat constructor. Qed.

Lemma indexRecords_aligned_witness :
  ([reader_A; reader_B] = [] ->
   (_indexRecords sample_Filters_bool sample_filterIndexRecords ds_window
      [reader_A; reader_B]).2 = Err (Builtin ValueError)) /\
  ([reader_A; reader_B] <> [] ->
   exists idx m,
     _indexRecords sample_Filters_bool sample_filterIndexRecords ds_window
       [reader_A; reader_B]
     = (set_indexMap (Some m) ds_window, Ok idx) /\
     length idx = length m /\
     (forall k t, m !! k = Some t ->
        exists rr row, [reader_A; reader_B] !! t.1 = Some rr /\
          reader_index rr !! t.2 = Some row /\ idx !! k = Some row) /\
     Sorted position_lt m).
Proof.
  exact (indexRecords_aligned sample_Filters_bool sample_filterIndexRecords
           ds_window [reader_A; reader_B] sample_masks_fit).
Defined.

Lemma indexRecords_unfiltered_witness :
  exists m,
    _indexRecords sample_Filters_bool sample_filterIndexRecords ds_three
      [reader_A; reader_B]
    = (set_indexMap (Some m) ds_three,
       Ok (concat (reader_index <$> [reader_A; reader_B]))) /\
    forall rrNo rr recNo, [reader_A; reader_B] !! rrNo = Some rr ->
      (recNo < length (reader_index rr))%nat -> (rrNo, recNo) ∈ m.
Proof.
  apply (indexRecords_unfiltered sample_Filters_bool sample_filterIndexRecords
           ds_three [reader_A; reader_B]); done.
Defined.

Lemma indexRecords_records_witness :
  exists idx m recs,
    _indexRecords sample_Filters_bool sample_filterIndexRecords ds_window
      [reader_A; reader_B]
    = (set_indexMap (Some m) ds_window, Ok idx) /\
    _getRecords [reader_A; reader_B] m 3 = (recs, None) /\
    length recs = length idx /\
    forall k t, m !! k = Some t -> recs !! k = fetch [reader_A; reader_B] t.
Proof.
  apply (indexRecords_records sample_Filters_bool sample_filterIndexRecords
           ds_window [reader_A; reader_B] 3 sample_masks_fit);
    [by repeat constructor|done|lia].
Defined.

(** The pooled index of the two sample readers under the sample mask, and
    the records read through it. *)
Example indexRecords_sample :
  (_indexRecords sample_Filters_bool sample_filterIndexRecords ds_window
     [reader_A; reader_B]).2
  = Ok [row_of read_a1; row_of read_a2; row_of read_b1; row_of read_b2] /\
  _indexMap
    (_indexRecords sample_Filters_bool sample_filterIndexRecords ds_window
       [reader_A; reader_B]).1
  = Some [(0, 0); (0, 1); (1, 0); (1, 1)]%nat.
Proof. split; reflexivity. Qed.

Lemma getitem_int_wraps_witness :
  (getitem_int sample_Filters_bool sample_filterIndexRecords ds_indexed
     [reader_A; reader_B] (-6)).1 = ds_indexed /\
  (getitem_int sample_Filters_bool sample_filterIndexRecords ds_indexed
     [reader_A; reader_B] (-6)).2
  = (getitem_int sample_Filters_bool sample_filterIndexRecords ds_indexed
       [reader_A; reader_B] (-6 + 2 * 5)).2.
Proof.
  destruct (getitem_int_wraps sample_Filters_bool sample_filterIndexRecords
              ds_indexed [reader_A; reader_B] sample_index sample_indexMap
              (-6) eq_refl eq_refl eq_refl) as (H1 & _ & _ & H4 & _).
  split; [exact H1|]. apply H4. simpl. lia.
Defined.

(** The last record by [-1], and by [-6] as well. *)
Example getitem_sample :
  (getitem_int sample_Filters_bool sample_filterIndexRecords ds_indexed
     [reader_A; reader_B] (-1)).2 = Ok read_b2 /\
  (getitem_int sample_Filters_bool sample_filterIndexRecords ds_indexed
     [reader_A; reader_B] (-6)).2 = Ok read_b2 /\
  (getitem_int sample_Filters_bool sample_filterIndexRecords ds_indexed
     [reader_A; reader_B] 5).2 = Err (Builtin IndexError).
Proof. repeat split; reflexivity. Qed.

End IndexRecordsFacts.

Module ContourFacts.
Import Py Errors Contour.

Lemma py_sum_snoc (l : list Z) (x : Z) : py_sum (l ++ [x]) = py_sum l + x.
Proof. unfold py_sum. induction l as [|y l IH]; simpl; lia. Qed.

Lemma coverage_between_step (contour : list Z) (a b : nat) :
  (a <= b)%nat ->
  coverage_between contour a (S b)
  = coverage_between contour a b + default 0 (contour !! S b).
Proof.
  intros Hab. unfold coverage_between.
  replace (S b - a)%nat with (S (b - a)) by lia.
  destruct (drop (S a) contour !! (b - a)%nat) as [x|] eqn:Hx.
  - rewrite (take_S_r _ _ _ Hx), py_sum_snoc.
    rewrite lookup_drop in Hx.
    replace (S a + (b - a))%nat with (S b) in Hx by lia. by rewrite Hx.
  - pose proof Hx as Hx'. rewrite lookup_drop in Hx'.
    replace (S a + (b - a))%nat with (S b) in Hx' by lia. rewrite Hx'.
    apply lookup_ge_None in Hx.
    rewrite !take_ge by lia. simpl. lia.
Qed.

(** The inner loop: it moves the endpoint forward, never past the last
    position, adds up the coverage it passes, and with enough turns it ends
    because its test fails. *)
Lemma advance_spec (fuel : nat) (contour : list Z) (splitSize size : Z)
    (e : nat) :
  let r := advance fuel contour splitSize size e in
  (e <= r.1)%nat /\
  (r.1 <= Nat.max e (length contour - 1))%nat /\
  r.2 = size + coverage_between contour e r.1 /\
  ((length contour - 1 - e <= fuel)%nat ->
   more contour splitSize r.2 r.1 = false).
Proof.
  cbv zeta. revert size e. induction fuel as [|fuel IH]; intros size e.
  - simpl. split; [done|]. split; [lia|]. split.
    { unfold coverage_between. rewrite Nat.sub_diag. simpl. lia. }
    intros Hf. unfold more. apply andb_false_iff. right.
    apply Z.ltb_ge. lia.
  - simpl. destruct (more contour splitSize size e) eqn:Hm.
    + destruct (IH (size + default 0 (contour !! S e)) (S e))
        as (Hle & Hmax & Hsize & Hend).
      unfold more in Hm. apply andb_true_iff in Hm as [_ Hlt].
      apply Z.ltb_lt in Hlt.
      split; [lia|]. split; [lia|]. split.
      * rewrite Hsize. clear -Hle.
        set (r := (advance fuel contour splitSize
                     (size + default 0 (contour !! S e)) (S e)).1) in *.
        clearbody r. induction Hle as [|b Hle IHle].
        { unfold coverage_between. rewrite Nat.sub_diag.
          replace (S e - e)%nat with 1%nat by lia.
          destruct (contour !! S e) as [x|] eqn:Hx.
          - rewrite (drop_S _ _ _ Hx). simpl. rewrite ?take_0. simpl. lia.
          - apply lookup_ge_None in Hx. rewrite !drop_ge by lia. simpl. lia. }
        rewrite (coverage_between_step contour (S e) b) by lia.
        rewrite (coverage_between_step contour e b) by lia. lia.
      * intros Hf. apply Hend. lia.
    + simpl. split; [done|]. split; [lia|]. split.
      { unfold coverage_between. rewrite Nat.sub_diag. simpl. lia. }
      done.
Qed.

Lemma split_loop_spec (turns : nat) (contour : list Z) (splitSize : Z)
    (last : nat) :
  let tbr := last :: split_loop turns contour splitSize last in
  length tbr = S turns /\
  Sorted le tbr /\
  Forall (fun e => (e <= Nat.max last (length contour - 1))%nat) tbr /\
  forall k a b, tbr !! k = Some a -> tbr !! S k = Some b ->
    splitSize <= coverage_between contour a b
    \/ (length contour - 1 <= b)%nat.
Proof.
  cbv zeta. revert last. induction turns as [|turns IH]; intros last.
  - simpl. split; [done|]. split; [by repeat constructor|].
    split; [constructor; [lia|constructor]|]. by intros [|k] a b Ha Hb.
  - cbn [split_loop].
    destruct (advance_spec (length contour) contour splitSize 0 last)
      as (Hle & Hmax & Hsize & Hend).
    set (e := (advance (length contour) contour splitSize 0 last).1) in *.
    destruct (IH e) as (Hlen & Hs & Hall & Hcov).
    split; [simpl in *; lia|]. split; [constructor; [done|by constructor]|]. split.
    + constructor; [lia|]. eapply Forall_impl; [exact Hall|].
      simpl. intros x Hx. lia.
    + intros [|k] a b Ha Hb.
      * simpl in Ha, Hb. simplify_eq.
        specialize (Hend ltac:(lia)). unfold more in Hend.
        apply andb_false_iff in Hend as [Hend|Hend].
        -- left. apply Z.ltb_ge in Hend. lia.
        -- right. apply Z.ltb_ge in Hend. lia.
      * by apply (Hcov k).
Qed.

(** [_splitContour]: for at least one split it returns [splits]
    endpoints, the first of them 0, in nondecreasing order and none past
    the last position of the contour; between two endpoints that follow
    each other lies at least the coverage of a split (the total coverage
    divided by [splits]), unless the second is the last position.  No
    split at all is a ZeroDivisionError, a negative number of splits an
    AssertionError. *)
Theorem splitContour_spec (contour : list Z) (splits : Z) :
  (1 <= splits ->
   exists tbr,
     _splitContour contour splits = Ok tbr /\
     Z.of_nat (length tbr) = splits /\
     head tbr = Some 0%nat /\
     Sorted le tbr /\
     Forall (fun e => (e <= length contour - 1)%nat) tbr /\
     forall k a b, tbr !! k = Some a -> tbr !! S k = Some b ->
       py_sum contour / splits <= coverage_between contour a b
       \/ (length contour - 1 <= b)%nat) /\
  (splits = 0 -> _splitContour contour splits = Err ZeroDivisionError) /\
  (splits < 0 -> _splitContour contour splits = Err AssertionError).
Proof.
  split; [|split].
  - intros Hs. unfold _splitContour.
    destruct (Z.eqb_spec splits 0) as [|_]; [lia|]. cbv zeta.
    destruct (split_loop_spec (Z.to_nat (splits - 1)) contour
                (py_sum contour / splits) 0) as (Hlen & Hsorted & Hall & Hcov).
    rewrite Hlen.
    destruct (Z.eqb_spec (Z.of_nat (S (Z.to_nat (splits - 1)))) splits)
      as [_|Hne]; [|lia].
    eexists. split; [done|]. rewrite Hlen.
    split; [lia|]. split; [done|]. split; [done|]. split; [|done].
    eapply Forall_impl; [exact Hall|]. simpl. lia.
  - intros ->. done.
  - intros Hs. unfold _splitContour.
    destruct (Z.eqb_spec splits 0) as [|_]; [lia|]. cbv zeta.
    replace (Z.to_nat (splits - 1)) with 0%nat by lia.
    cbn [split_loop length]. destruct (Z.eqb_spec (Z.of_nat 1) splits); [lia|done].
Qed.

(** A contour of six positions cut in three. *)
Example splitContour_sample :
  _splitContour [0; 2; 2; 1; 3; 1] 3 = Ok [0; 2; 4]%nat.
Proof. reflexivity. Qed.

Lemma splitContour_spec_witness :
  exists tbr,
    _splitContour [0; 2; 2; 1; 3; 1] 3 = Ok tbr /\
    Z.of_nat (length tbr) = 3 /\
    head tbr = Some 0%nat /\
    Sorted le tbr /\
    Forall (fun e => (e <= length [0; 2; 2; 1; 3; 1] - 1)%nat) tbr /\
    forall k a b, tbr !! k = Some a -> tbr !! S k = Some b ->
      py_sum [0; 2; 2; 1; 3; 1] / 3 <= coverage_between [0; 2; 2; 1; 3; 1] a b
      \/ (length [0; 2; 2; 1; 3; 1] - 1 <= b)%nat.
Proof.
  apply (proj1 (splitContour_spec [0; 2; 2; 1; 3; 1] 3)). lia.
Defined.

End ContourFacts.

Module AtomsFacts.
Import Py Errors Atoms.

Lemma atom_keys_ok (atoms : list Atom) :
  Forall (fun x => 1 <= x.2) atoms ->
  exists keys, atom_keys atoms = Ok keys /\ length keys = length atoms.
Proof.
  induction 1 as [|x atoms Hx _ (keys & Hk & Hlen)]; [by exists []|].
  simpl. rewrite Hk. unfold atom_key. destruct (Z.eqb_spec x.2 0); [lia|].
  eexists. split; [done|]. simpl. by rewrite Hlen.
Qed.

Lemma argmax_from_bound (best_i : nat) (best : Z) (i : nat) (keys : list Z) :
  (best_i < i)%nat -> (argmax_from best_i best i keys < i + length keys)%nat.
Proof.
  revert best_i best i. induction keys as [|k keys IH]; intros best_i best i Hi;
    simpl; [lia|].
  destruct (best <? k).
  - specialize (IH i k (S i)). lia.
  - specialize (IH best_i best (S i)). lia.
Qed.

Lemma total_segments_alter (atoms : list Atom) (i : nat) :
  (i < length atoms)%nat ->
  total_segments (alter (fun x => (x.1, x.2 + 1)) i atoms)
  = total_segments atoms + 1.
Proof.
  unfold total_segments, alter.
  revert i. induction atoms as [|x atoms IH]; intros [|i] Hi; simpl in *;
    try lia.
  rewrite IH by lia. lia.
Qed.

Lemma alter_segment_names (atoms : list Atom) (i : nat) :
  (alter (fun x : Atom => (x.1, x.2 + 1)) i atoms).*1 = atoms.*1.
Proof.
  unfold alter. revert i. induction atoms as [|y l IH]; intros [|i]; simpl;
    try done. by rewrite IH.
Qed.

Lemma alter_segment_positive (atoms : list Atom) (i : nat) :
  Forall (fun x => 1 <= x.2) atoms ->
  Forall (fun x => 1 <= x.2) (alter (fun x : Atom => (x.1, x.2 + 1)) i atoms).
Proof.
  unfold alter. intros Hseg. revert i.
  induction Hseg as [|y l Hy Hl IH]; intros [|i]; simpl; constructor;
    simpl; try done; try lia.
Qed.

Lemma alter_segment_grows (atoms : list Atom) (i : nat) :
  Forall2 (fun x y => x.2 <= y.2) atoms
    (alter (fun x : Atom => (x.1, x.2 + 1)) i atoms).
Proof.
  unfold alter. revert i. induction atoms as [|y l IH]; intros [|i]; simpl;
    constructor; simpl; try lia; try done.
  clear. induction l; constructor; [lia|done].
Qed.

Lemma split_atoms_step_spec (atoms : list Atom) :
  atoms <> [] -> Forall (fun x => 1 <= x.2) atoms ->
  exists atoms', split_atoms_step atoms = Ok atoms' /\
    atoms'.*1 = atoms.*1 /\
    Forall (fun x => 1 <= x.2) atoms' /\
    Forall2 (fun x y => x.2 <= y.2) atoms atoms' /\
    total_segments atoms' = total_segments atoms + 1.
Proof.
  intros Hne Hseg. unfold split_atoms_step.
  destruct (atom_keys_ok atoms Hseg) as (keys & Hk & Hlen).
  destruct atoms as [|x atoms]; [done|]. rewrite Hk.
  destruct keys as [|k keys]; [done|].
  pose proof (argmax_from_bound 0 k 1 keys ltac:(lia)) as Hb.
  eexists. split; [done|].
  split; [apply alter_segment_names|].
  split; [by apply alter_segment_positive|].
  split; [apply alter_segment_grows|].
  apply total_segments_alter. simpl in *. lia.
Qed.

Lemma split_atoms_loop_spec (turns : nat) (atoms : list Atom) :
  atoms <> [] -> Forall (fun x => 1 <= x.2) atoms ->
  exists atoms', split_atoms_loop turns atoms = Ok atoms' /\
    atoms'.*1 = atoms.*1 /\
    Forall (fun x => 1 <= x.2) atoms' /\
    Forall2 (fun x y => x.2 <= y.2) atoms atoms' /\
    total_segments atoms' = total_segments atoms + Z.of_nat turns.
Proof.
  revert atoms. induction turns as [|turns IH]; intros atoms Hne Hseg.
  - exists atoms. split; [done|]. split; [done|]. split; [done|].
    split; [|simpl; lia]. clear. induction atoms; constructor; [lia|done].
  - destruct (split_atoms_step_spec atoms Hne Hseg)
      as (atoms1 & Hstep & Hn1 & Hseg1 & Hle1 & Htot1).
    assert (atoms1 <> []) as Hne1.
    { intros ->. destruct atoms; [done|]. simpl in Hn1. done. }
    destruct (IH atoms1 Hne1 Hseg1) as (atoms' & Hloop & Hn & Hseg' & Hle & Htot).
    exists atoms'. simpl. rewrite Hstep. split; [done|].
    split; [by rewrite Hn|]. split; [done|]. split; [|lia].
    clear -Hle1 Hle. revert atoms' Hle.
    induction Hle1 as [|x y l l' Hxy _ IHl]; intros atoms' Hle;
      inversion Hle as [|? z ? l'' Hyz Hrest]; subst; constructor;
      [lia|by apply IHl].
Qed.

(** [_split_atoms]: given at least one atom, each with at least one
    segment, the call returns the atoms with their names and sizes as they
    were, no atom with fewer segments than before, and as many segments
    more in all as [num_chunks] exceeds the number of atoms (none if it
    does not).  Without atom and with a positive [num_chunks] it ends in
    the ValueError of [max]. *)
Theorem split_atoms_spec (atoms : list Atom) (num_chunks : Z) :
  (atoms <> [] -> Forall (fun x => 1 <= x.2) atoms ->
   exists atoms', _split_atoms atoms num_chunks = Ok atoms' /\
     atoms'.*1 = atoms.*1 /\
     Forall (fun x => 1 <= x.2) atoms' /\
     Forall2 (fun x y => x.2 <= y.2) atoms atoms' /\
     total_segments atoms'
     = total_segments atoms
       + Z.max 0 (num_chunks - Z.of_nat (length atoms))) /\
  (0 < num_chunks -> _split_atoms [] num_chunks = Err (Builtin ValueError)).
Proof.
  split.
  - intros Hne Hseg. unfold _split_atoms.
    destruct (split_atoms_loop_spec
                (Z.to_nat (num_chunks - Z.of_nat (length atoms))) atoms Hne Hseg)
      as (atoms' & Hrun & Hn & Hseg' & Hle & Htot).
    exists atoms'. repeat (split; [done|]). lia.
  - intros Hc. unfold _split_atoms. cbn [length].
    destruct (Z.to_nat (num_chunks - Z.of_nat 0)) eqn:E; [lia|reflexivity].
Qed.

Lemma tiles_app (name : string) (a b c : Z) (ws ws' : list Window) :
  tiles name a b ws -> tiles name b c ws' -> tiles name a c (ws ++ ws').
Proof.
  revert a. induction ws as [|w ws IH]; intros a; simpl.
  - by intros ->.
  - intros (Hn & Hs & Ht) Ht'. repeat split; [done|done|]. by apply IH.
Qed.

Lemma tiles_segments (name : string) (seg : Z) (s n : nat) :
  tiles name (seg * Z.of_nat s) (seg * Z.of_nat (s + n))
    ((fun i => (name, seg * Z.of_nat i, seg * (Z.of_nat i + 1))) <$> seq s n).
Proof.
  revert s. induction n as [|n IH]; intros s; simpl.
  - by rewrite Nat.add_0_r.
  - repeat split. replace (seg * (Z.of_nat s + 1)) with (seg * Z.of_nat (S s))
      by lia. replace (s + S n)%nat with (S s + n)%nat by lia. apply IH.
Qed.

(** The windows of an atom with [k >= 1] segments whose reference is known:
    there are [k] of them, all of that reference, and they follow each
    other without gap or overlap from 0 to the length of the reference. *)
Lemma windows_of_atom_tiles (refLens : gmap string Z) (byRecords : bool)
    (atom : Atom) (len : Z) :
  1 <= atom.2 -> refLens !! atom.1.1 = Some len ->
  exists ws, windows_of_atom refLens byRecords atom = Ok ws /\
    Z.of_nat (length ws) = atom.2 /\ ws <> [] /\
    tiles atom.1.1 0 len ws.
Proof.
  intros Hk Hlen. unfold windows_of_atom.
  destruct (Z.eqb_spec atom.2 0); [lia|].
  unfold dict_get. rewrite Hlen.
  set (seg := if byRecords then len / atom.2 else atom.1.2 / atom.2).
  assert ((if byRecords then Ok (len / atom.2) else Ok (atom.1.2 / atom.2))
          = Ok seg) as -> by (by destruct byRecords).
  destruct (Z.to_nat atom.2) as [|k] eqn:Ek; [lia|].
  rewrite seq_S, fmap_app. cbn [fmap list_fmap].
  rewrite fmap_app. cbn [fmap list_fmap].
  rewrite last_last. cbn [fst snd]. rewrite Hlen.
  rewrite removelast_last.
  eexists. split; [done|]. split.
  { rewrite length_app, length_fmap, length_seq. simpl. lia. }
  split; [by destruct (_ <$> seq 0 k)|].
  eapply tiles_app.
  - pose proof (tiles_segments atom.1.1 seg 0 k) as Ht.
    rewrite Z.mul_0_r in Ht. exact Ht.
  - simpl. repeat split.
Qed.

Lemma windows_of_atoms_tile (refLens : gmap string Z) (atoms : list Atom) :
  Forall (fun x => 1 <= x.2) atoms ->
  Forall (fun x => is_Some (refLens !! x.1.1)) atoms ->
  exists wss, windows_of_atoms refLens false atoms = Ok wss /\
    Forall2 (fun x ws =>
               Z.of_nat (length ws) = x.2 /\ ws <> [] /\
               exists len, refLens !! x.1.1 = Some len /\
                 tiles x.1.1 0 len ws) atoms wss /\
    Z.of_nat (length (concat wss)) = total_segments atoms.
Proof.
  induction 1 as [|x atoms Hx _ IH]; intros Hall.
  - exists []. by repeat split; try constructor.
  - apply Forall_cons in Hall as [[len Hlen] Hall].
    destruct (IH Hall) as (wss & Hrun & Hf & Htot).
    destruct (windows_of_atom_tiles refLens false x len Hx Hlen)
      as (ws & Hw & Hn & Hne & Ht).
    exists (ws :: wss). simpl. rewrite Hw, Hrun. split; [done|]. split.
    + constructor; [|done]. split; [done|]. split; [done|]. by exists len.
    + rewrite length_app. lia.
Qed.

Lemma length_atoms_spec (refLens : gmap string Z) (names : list string) :
  Forall (fun rn => is_Some (refLens !! rn)) names ->
  exists atoms, length_atoms refLens names = Ok atoms /\
    atoms.*1.*1 = names /\
    Forall (fun x => x.2 = 1 /\ refLens !! x.1.1 = Some x.1.2) atoms /\
    total_segments atoms = Z.of_nat (length names).
Proof.
  induction 1 as [|rn names [len Hlen] _ (atoms & Hrun & Hn & Hall & Htot)].
  - exists []. by repeat split; try constructor.
  - exists ((rn, len, 1) :: atoms). simpl. unfold dict_get.
    rewrite Hlen, Hrun. split; [done|]. split; [by f_equal|].
    split; [by constructor|]. lia.
Qed.

(** Splitting the references named into more chunks than there are
    references (not by records): when every name has a length, the windows
    come in one group per reference, in the order of the names; each group
    holds at least one window and covers its reference from 0 to its
    length without gap or overlap; and there are [chunks] windows in
    all. *)
Theorem contig_windows_tile (refLens : gmap string Z) (names : list string)
    (chunks : Z) :
  names <> [] ->
  Forall (fun rn => is_Some (refLens !! rn)) names ->
  Z.of_nat (length names) < chunks ->
  exists wss,
    contig_windows refLens names chunks = Ok wss /\
    Forall2 (fun rn ws =>
               ws <> [] /\
               exists len, refLens !! rn = Some len /\ tiles rn 0 len ws)
      names wss /\
    Z.of_nat (length (concat wss)) = chunks.
Proof.
  intros Hne Hnames Hc. unfold contig_windows.
  destruct (length_atoms_spec refLens names Hnames)
    as (atoms & -> & Hn & Hall & Htot).
  assert (atoms <> []) as Hne'.
  { intros ->. simpl in Hn. by subst. }
  assert (Forall (fun x => 1 <= x.2) atoms) as Hseg.
  { eapply Forall_impl; [exact Hall|]. simpl. intros x [-> _]. lia. }
  assert (length atoms = length names) as Hlen.
  { by rewrite <- Hn, !length_fmap. }
  destruct (split_atoms_loop_spec
              (Z.to_nat (chunks - Z.of_nat (length atoms))) atoms Hne' Hseg)
    as (atoms' & Hrun & Hn' & Hseg' & _ & Htot').
  unfold _split_atoms. rewrite Hrun.
  assert (Forall (fun x => is_Some (refLens !! x.1.1)) atoms') as Hknown.
  { apply Forall_forall. intros x Hx.
    assert (x.1.1 ∈ names) as Hin.
    { rewrite <- Hn, <- Hn'. apply list_elem_of_fmap. exists x.1.
      split; [done|]. apply list_elem_of_fmap. by exists x. }
    rewrite Forall_forall in Hnames. by apply Hnames. }
  destruct (windows_of_atoms_tile refLens atoms' Hseg' Hknown)
    as (wss & -> & Hf & Hcount).
  exists wss. split; [done|]. split; [|lia].
  assert (atoms'.*1.*1 = names) as Hnn by (by rewrite Hn').
  clear -Hf Hnn. revert names Hnn.
  induction Hf as [|x ws atoms' wss (_ & Hne & len & Hlen & Ht) _ IH];
    intros names Hnn; simpl in Hnn; subst; constructor.
  - split; [done|]. by exists len.
  - by apply IH.
Qed.

(** Two references cut into five windows. *)
Example contig_windows_sample :
  contig_windows {[ "chr1" := 100; "chr2" := 30 ]} ["chr1"; "chr2"] 5
  = Ok [[("chr1", 0, 25); ("chr1", 25, 50); ("chr1", 50, 75);
         ("chr1", 75, 100)];
        [("chr2", 0, 30)]].
Proof. vm_compute. reflexivity. Qed.

Lemma split_atoms_spec_witness :
  exists atoms', _split_atoms [("chr1", 100, 1); ("chr2", 30, 1)] 5 = Ok atoms' /\
    atoms'.*1 = [("chr1", 100); ("chr2", 30)] /\
    Forall (fun x => 1 <= x.2) atoms' /\
    Forall2 (fun x y => x.2 <= y.2) [("chr1", 100, 1); ("chr2", 30, 1)] atoms' /\
    total_segments atoms' = 2 + Z.max 0 (5 - 2).
Proof.
  apply (proj1 (split_atoms_spec [("chr1", 100, 1); ("chr2", 30, 1)] 5));
    [done|]. repeat constructor; simpl; lia.
Defined.

Lemma contig_windows_tile_witness :
  exists wss,
    contig_windows {[ "chr1" := 100; "chr2" := 30 ]} ["chr1"; "chr2"] 5
    = Ok wss /\
    Forall2 (fun rn ws =>
               ws <> [] /\
               exists len,
                 ({[ "chr1" := 100; "chr2" := 30 ]} : gmap string Z) !! rn
                 = Some len /\ tiles rn 0 len ws)
      ["chr1"; "chr2"] wss /\
    Z.of_nat (length (concat wss)) = 5.
Proof.
  apply (contig_windows_tile {[ "chr1" := 100; "chr2" := 30 ]}
           ["chr1"; "chr2"] 5); [done| |simpl; lia].
  repeat constructor; by eexists.
Defined.

End AtomsFacts.

Module CoverageFacts.
Import Py Errors DataSetModel Coverage IterationFacts.

Lemma add_each_spec (coverage : list Z) (positions : list Z) (delta : Z) :
  Forall (fun i => 0 <= i < Z.of_nat (length coverage)) positions ->
  exists coverage', add_each coverage positions delta = Ok coverage' /\
    length coverage' = length coverage /\
    forall k c, coverage !! k = Some c ->
      coverage' !! k = Some (c + delta * count_eq (Z.of_nat k) positions).
Proof.
  intros Hpos. revert coverage Hpos.
  induction positions as [|i positions IH]; intros coverage Hpos.
  - exists coverage. split; [done|]. split; [done|]. intros k c Hk.
    unfold count_eq. simpl. rewrite Hk. f_equal. lia.
  - apply Forall_cons in Hpos as [Hi Hpos]. simpl. unfold py_add_at.
    cbv zeta.
    destruct (Z.ltb_spec i (- Z.of_nat (length coverage))); [lia|].
    destruct (Z.leb_spec (Z.of_nat (length coverage)) i); [lia|]. simpl.
    destruct (Z.ltb_spec i 0); [lia|].
    set (c1 := alter (fun c => c + delta) (Z.to_nat i) coverage).
    assert (length c1 = length coverage) as Hlen1
      by (unfold c1; apply length_alter).
    destruct (IH c1) as (c' & Hrun & Hlen & Hval).
    { by rewrite Hlen1. }
    exists c'. split; [done|]. split; [lia|]. intros k c Hk.
    unfold count_eq. rewrite filter_cons.
    destruct (decide (i = Z.of_nat k)) as [->|Hne].
    + rewrite (Hval k (c + delta)).
      * f_equal. unfold count_eq. simpl. lia.
      * unfold c1. rewrite Nat2Z.id, list_lookup_alter, Hk.
        by rewrite decide_True.
    + rewrite (Hval k c).
      * done.
      * unfold c1. rewrite list_lookup_alter, Hk.
        rewrite decide_False by lia. done.
Qed.

Lemma running_spec (curCov : Z) (coverage : list Z) (k : nat) :
  (k < length coverage)%nat ->
  running curCov coverage !! k
  = Some (curCov + foldr Z.add 0 (take (S k) coverage)).
Proof.
  revert curCov k. induction coverage as [|d coverage IH]; intros cur k Hk;
    simpl in *; [lia|].
  destruct k as [|k]; simpl.
  - rewrite ?take_0. simpl. f_equal. lia.
  - rewrite IH by lia. f_equal. simpl. lia.
Qed.

Lemma length_running (curCov : Z) (coverage : list Z) :
  length (running curCov coverage) = length coverage.
Proof.
  revert curCov. induction coverage as [|d c IH]; intros cur; simpl; [done|].
  by rewrite IH.
Qed.

Lemma count_le_step (p : nat) (xs : list Z) :
  count_le (Z.of_nat (S p)) xs
  = count_le (Z.of_nat p) xs + count_eq (Z.of_nat (S p)) xs.
Proof.
  unfold count_le, count_eq. induction xs as [|x xs IH]; [done|].
  rewrite !filter_cons.
  destruct (decide (x <= Z.of_nat (S p))), (decide (x <= Z.of_nat p)),
    (decide (x = Z.of_nat (S p))); simpl; lia.
Qed.

Lemma count_le_zero (xs : list Z) :
  Forall (fun x => 0 <= x) xs -> count_le 0 xs = count_eq 0 xs.
Proof.
  unfold count_le, count_eq. induction 1 as [|x xs Hx _ IH]; [done|].
  rewrite !filter_cons.
  destruct (decide (x <= 0)), (decide (x = 0)); simpl; lia.
Qed.

Lemma count_eq_perm (p : Z) (xs ys : list Z) :
  xs ≡ₚ ys -> count_eq p xs = count_eq p ys.
Proof. intros Hp. unfold count_eq. by rewrite Hp. Qed.

Lemma depth_counts (hits : list IndexRow) (p : Z) :
  Forall (fun h => row_tStart h <= row_tEnd h) hits ->
  depth hits p
  = count_le p (row_tStart <$> hits) - count_le p (row_tEnd <$> hits).
Proof.
  unfold depth, count_le. induction 1 as [|h hits Hh _ IH]; [done|].
  rewrite !fmap_cons, !filter_cons.
  destruct (decide (row_tStart h <= p < row_tEnd h)),
    (decide (row_tStart h <= p)), (decide (row_tEnd h <= p)); simpl; lia.
Qed.

(** [_intervalContour]: for rows that start and end within the reference
    (from 0 to its length), the call returns one entry per position from 0
    to the length of the reference; the entry at [p] is the number of rows
    that start at or before [p] less the number that end at or before
    [p], which for rows that do not end before they start is the number of
    rows that cover [p]. *)
Theorem intervalContour_depth (hits : list IndexRow) (refLength : Z) :
  0 <= refLength ->
  Forall (fun h => 0 <= row_tStart h <= refLength /\
                   0 <= row_tEnd h <= refLength) hits ->
  exists coverage,
    _intervalContour hits refLength = Ok coverage /\
    Z.of_nat (length coverage) = refLength + 1 /\
    (forall p, 0 <= p <= refLength ->
       coverage !! Z.to_nat p
       = Some (count_le p (row_tStart <$> hits)
               - count_le p (row_tEnd <$> hits))) /\
    (Forall (fun h => row_tStart h <= row_tEnd h) hits ->
     forall p, 0 <= p <= refLength ->
       coverage !! Z.to_nat p = Some (depth hits p)).
Proof.
  intros HL Hhits. unfold _intervalContour. cbv zeta.
  set (n := Z.to_nat (refLength + 1)).
  set (starts := sorted_stable (fun x => x) (row_tStart <$> hits)).
  set (ends := sorted_stable (fun x => x) (row_tEnd <$> hits)).
  assert (starts ≡ₚ row_tStart <$> hits) as Hs by apply sorted_stable_perm.
  assert (ends ≡ₚ row_tEnd <$> hits) as He by apply sorted_stable_perm.
  destruct (add_each_spec (replicate n 0) starts 1) as (c1 & -> & Hlen1 & Hv1).
  { rewrite Hs. apply Forall_fmap. eapply Forall_impl; [exact Hhits|].
    simpl. intros h Hh. rewrite length_replicate. lia. }
  destruct (add_each_spec c1 ends (-1)) as (c2 & -> & Hlen2 & Hv2).
  { rewrite He. apply Forall_fmap. eapply Forall_impl; [exact Hhits|].
    simpl. intros h Hh. rewrite Hlen1, length_replicate. lia. }
  rewrite length_replicate in Hlen1.
  assert (forall k, (k < n)%nat ->
            c2 !! k = Some (count_eq (Z.of_nat k) (row_tStart <$> hits)
                            - count_eq (Z.of_nat k) (row_tEnd <$> hits)))
    as Hc2.
  { intros k Hk.
    rewrite (Hv2 k (0 + 1 * count_eq (Z.of_nat k) starts)).
    - rewrite (count_eq_perm _ _ _ Hs), (count_eq_perm _ _ _ He).
      f_equal. lia.
    - apply Hv1. by apply lookup_replicate_2. }
  assert (forall k, (k < n)%nat ->
            foldr Z.add 0 (take (S k) c2)
            = count_le (Z.of_nat k) (row_tStart <$> hits)
              - count_le (Z.of_nat k) (row_tEnd <$> hits)) as Hsum.
  { induction k as [|k IHk]; intros Hk.
    - pose proof (Hc2 0%nat Hk) as H0.
      destruct c2 as [|d c2']; [done|]. simpl in H0. simplify_eq. simpl.
      rewrite ?take_0. simpl. change (Z.of_nat 0) with 0.
      rewrite !count_le_zero; [lia| |];
        apply Forall_fmap; eapply Forall_impl; try exact Hhits; simpl; lia.
    - destruct (lookup_lt_is_Some_2 c2 (S k)) as [d Hd]; [lia|].
      rewrite (take_S_r _ _ _ Hd), foldr_app. simpl.
      assert (forall l a, foldr Z.add a l = foldr Z.add 0 l + a) as Hfold.
      { clear. induction l as [|x l IH]; intros a; simpl; [lia|].
        rewrite IH. lia. }
      rewrite Hfold, IHk by lia. rewrite (Hc2 (S k) Hk) in Hd. simplify_eq.
      rewrite !count_le_step. lia. }
  exists (running 0 c2). split; [done|].
  split; [rewrite length_running; lia|].
  assert (forall p, 0 <= p <= refLength ->
            running 0 c2 !! Z.to_nat p
            = Some (count_le p (row_tStart <$> hits)
                    - count_le p (row_tEnd <$> hits))) as Hmain.
  { intros p Hp. rewrite running_spec by lia.
    rewrite Hsum by lia. rewrite Z2Nat.id by lia. done. }
  split; [exact Hmain|].
  intros Hord p Hp. rewrite Hmain by done. by rewrite depth_counts.
Qed.

(** Three rows on a reference of length 6. *)
Example intervalContour_sample :
  _intervalContour [mkIndexRow 0 0 4; mkIndexRow 0 2 6; mkIndexRow 0 2 3] 6
  = Ok [1; 1; 3; 2; 1; 1; 0].
Proof. reflexivity. Qed.

Lemma intervalContour_depth_witness :
  exists coverage,
    _intervalContour [mkIndexRow 0 0 4; mkIndexRow 0 2 6; mkIndexRow 0 2 3] 6
    = Ok coverage /\
    Z.of_nat (length coverage) = 6 + 1 /\
    (forall p, 0 <= p <= 6 ->
       coverage !! Z.to_nat p
       = Some (count_le p
                 (row_tStart <$>
                    [mkIndexRow 0 0 4; mkIndexRow 0 2 6; mkIndexRow 0 2 3])
               - count_le p
                   (row_tEnd <$>
                      [mkIndexRow 0 0 4; mkIndexRow 0 2 6; mkIndexRow 0 2 3]))) /\
    (Forall (fun h => row_tStart h <= row_tEnd h)
       [mkIndexRow 0 0 4; mkIndexRow 0 2 6; mkIndexRow 0 2 3] ->
     forall p, 0 <= p <= 6 ->
       coverage !! Z.to_nat p
       = Some (depth [mkIndexRow 0 0 4; mkIndexRow 0 2 6; mkIndexRow 0 2 3] p)).
Proof.
  apply (intervalContour_depth
           [mkIndexRow 0 0 4; mkIndexRow 0 2 6; mkIndexRow 0 2 3] 6); [lia|].
  repeat constructor; simpl; lia.
Defined.

End CoverageFacts.
